(** * Azure Service Bus nodes for n8n: receive and dispatch core

    A shallow embedding of the two nodes of the repository:

    - [nodes/AzureServiceBus/AzureServiceBus.node.ts]: [isEmptyMessageBody],
      the send loops and the one-shot [receiveMessages] operation of
      [execute];
    - the trigger node (AzureServiceBusTrigger): [getOrCreateSessionReceiver],
      [processMessage], [processError], [startSessionHandling] and
      [closeFunction].

    JavaScript values are an inductive type, the Node built-ins the code
    calls ([JSON.parse], [Buffer.from], [Buffer.prototype.toString]) are an
    interface, the broker SDK is an environment that answers every call from
    the history of calls made so far, and the code itself runs in a state and
    exception monad over the call trace and the session registry.  Logging is
    left out; awaited calls run to completion one after the other.

    The embedding comes first, then an executable model of the built-ins,
    sample brokers and inputs, and the vocabulary of the statements; the
    properties follow, send path first, then the normalizer, the session
    negotiator and error path, the shutdown, the registry invariant, the
    session loop and the completion of messages. *)

From Stdlib Require Import List String Ascii ZArith Bool Lia Arith.
From Stdlib.Strings Require Import Byte.
From Stdlib Require Import DecimalString.
Import ListNotations.
Open Scope string_scope.
Open Scope Z_scope.

Set Implicit Arguments.
Set Warnings "-register-all".

(* ================================================================== *)
(** * JavaScript values *)
(* ================================================================== *)

Module Js.

(** A string is its sequence of code units; the model covers the code units
    below 256, one [ascii] each.  A number is modelled by its integer value:
    the code only asks a number for its type. *)
Inductive JsValue : Type :=
| JUndefined
| JNull
| JBool (b : bool)
| JNum (n : Z)
| JStr (s : string)
| JBigInt (n : Z)
| JSymbol (description : string)
| JFunction (name : string)
| JBuffer (bytes : list byte)
| JArr (items : list JsValue)
| JObj (fields : list (string * JsValue)).

(** [typeof v], as the string the operator returns. *)
Definition typeof (v : JsValue) : string :=
  match v with
  | JUndefined => "undefined"
  | JNull => "object"
  | JBool _ => "boolean"
  | JNum _ => "number"
  | JStr _ => "string"
  | JBigInt _ => "bigint"
  | JSymbol _ => "symbol"
  | JFunction _ => "function"
  | JBuffer _ | JArr _ | JObj _ => "object"
  end.

(** ToBoolean, the test made by [v && ...] and [if (v)]. *)
Definition truthy (v : JsValue) : bool :=
  match v with
  | JUndefined | JNull => false
  | JBool b => b
  | JNum n | JBigInt n => negb (n =? 0)
  | JStr s => negb (s =? "")%string
  | _ => true
  end.

Fixpoint assoc (k : string) (fields : list (string * JsValue)) : option JsValue :=
  match fields with
  | [] => None
  | (k', v) :: rest => if (k =? k')%string then Some v else assoc k rest
  end.

(** [v.k] on a value that is not null or undefined: own data properties of
    plain objects; arrays and buffers have no property named [type] or
    [data]. *)
Definition get_prop (v : JsValue) (k : string) : JsValue :=
  match v with
  | JObj fields => match assoc k fields with Some x => x | None => JUndefined end
  | _ => JUndefined
  end.

(** Defining a property: an existing key keeps its place and takes the new
    value, a new key goes last. *)
Fixpoint setField (k : string) (v : JsValue) (fields : list (string * JsValue))
  : list (string * JsValue) :=
  match fields with
  | [] => [(k, v)]
  | (k', v') :: rest =>
      if (k =? k')%string then (k, v) :: rest else (k', v') :: setField k v rest
  end.

(** [obj.k = v] on an object. *)
Definition set_prop (obj : JsValue) (k : string) (v : JsValue) : JsValue :=
  match obj with
  | JObj fields => JObj (setField k v fields)
  | _ => obj
  end.

(** [v === "..."] against a string literal. *)
Definition is_string_lit (v : JsValue) (lit : string) : bool :=
  match v with
  | JStr s => (s =? lit)%string
  | _ => false
  end.

Definition isBuffer (v : JsValue) : bool :=
  match v with JBuffer _ => true | _ => false end.

(** ** [String.prototype.trim] and [startsWith] *)

(** WhiteSpace and LineTerminator code units below 256: TAB, LF, VT, FF, CR,
    SP and NBSP. *)
Definition isWhiteSpace (c : ascii) : bool :=
  let n := nat_of_ascii c in
  ((9 <=? n) && (n <=? 13) || (n =? 32) || (n =? 160))%nat.

Fixpoint trimStart (s : string) : string :=
  match s with
  | EmptyString => EmptyString
  | String c rest => if isWhiteSpace c then trimStart rest else s
  end.

Fixpoint trimEnd (s : string) : string :=
  match s with
  | EmptyString => EmptyString
  | String c rest =>
      match trimEnd rest with
      | EmptyString => if isWhiteSpace c then EmptyString else String c EmptyString
      | rest' => String c rest'
      end
  end.

Definition trim (s : string) : string := trimEnd (trimStart s).

Definition startsWith (s p : string) : bool := String.prefix p s.

End Js.
Import Js.

(* ================================================================== *)
(** * The send path: [isEmptyMessageBody] *)
(* ================================================================== *)

(** [isEmptyMessageBody], AzureServiceBus.node.ts lines 24-38. *)
Definition isEmptyMessageBody (messageBody : JsValue) : bool :=
  match messageBody with
  | JNull | JUndefined => true
  | _ =>
    if (typeof messageBody =? "string")%string then
      match messageBody with
      | JStr s => (trim s =? "")%string
      | _ => true
      end
    else if (typeof messageBody =? "number")%string
            || (typeof messageBody =? "boolean")%string then false
    else if (typeof messageBody =? "object")%string then false
    else true
  end.

(* ================================================================== *)
(** * Exceptions *)
(* ================================================================== *)

(** What a [throw] carries.  The errors the nodes raise themselves are
    constructors of their own; [SdkError] is whatever the broker SDK rejects
    with, and [OperationFailed] is the wrapper the outer [catch] of
    [execute] puts around everything thrown inside its [try]. *)
Inductive Exn : Type :=
| TypeError (msg : string)
| MessageBodyEmpty
| InvalidProtocol
| TopicSdkOnly
| ReceiveSdkOnly
| AcceptSessionFailed (sessionId : string) (cause : Exn)
| AcceptNextFailed (cause : Exn)
| UpdateStateFailed (cause : Exn)
| ManagerNotInitialized
| UnsupportedSessionMode (mode : string)
| SdkError (msg : string)
| SyntaxError (msg : string)
| OperationFailed (cause : Exn).

(** [error.message] of a thrown value; the nodes build their own messages by
    appending the cause's message to a fixed prefix. *)
Fixpoint message (e : Exn) : string :=
  match e with
  | TypeError m => m
  | MessageBodyEmpty => "Message Body cannot be empty"
  | InvalidProtocol => "Invalid protocol configuration"
  | TopicSdkOnly => "Topic operations are only supported with Azure SDK protocol"
  | ReceiveSdkOnly => "Receive messages is only supported with Azure SDK protocol"
  | AcceptSessionFailed sid c => "Failed to accept session '" ++ sid ++ "': " ++ message c
  | AcceptNextFailed c => "No available sessions or failed to accept session: " ++ message c
  | UpdateStateFailed c => "Failed to update session state: " ++ message c
  | ManagerNotInitialized => "Session receiver manager not initialized"
  | UnsupportedSessionMode m => "Unsupported session mode: " ++ m
  | SdkError m => m
  | SyntaxError m => m
  | OperationFailed c => "Azure Service Bus operation failed: " ++ message c
  end.

Inductive Result (A : Type) : Type :=
| Ok (a : A)
| Throw (e : Exn).
Arguments Ok {A} a.
Arguments Throw {A} e.

(* ================================================================== *)
(** * The message normalizer *)
(* ================================================================== *)

(** The Node built-ins the normalizer calls.  [JSON_parse s = None] is a
    SyntaxError, [Buffer_from v = None] a TypeError.  The one law is the JSON
    grammar's: a text accepted by [JSON.parse] whose first character after
    white space is an opening brace denotes an object. *)
Class NodeRuntime : Type := {
  JSON_parse : string -> option JsValue;
  Buffer_from : JsValue -> option (list byte);
  Buffer_toString_utf8 : list byte -> string;
  JSON_parse_brace : forall s v,
    startsWith (trim s) "{" = true -> JSON_parse s = Some v ->
    exists fields, v = JObj fields
}.

Section Normalizer.
Context {rt : NodeRuntime}.

(** First statement of the normalizer (trigger lines 342-349, node lines
    748-755): a Buffer-shaped object ([type === 'Buffer']) is rebuilt with
    [Buffer.from(body.data)] and decoded, a real Buffer is decoded. *)
Definition decodeBinary (messageBody : JsValue) : Result JsValue :=
  if truthy messageBody
     && (typeof messageBody =? "object")%string
     && is_string_lit (get_prop messageBody "type") "Buffer"
  then
    match Buffer_from (get_prop messageBody "data") with
    | Some buffer => Ok (JStr (Buffer_toString_utf8 buffer))
    | None => Throw (TypeError "The first argument must be of type string or an instance of Buffer, ArrayBuffer, or Array or an Array-like Object.")
    end
  else if isBuffer messageBody then
    match messageBody with
    | JBuffer bytes => Ok (JStr (Buffer_toString_utf8 bytes))
    | _ => Ok messageBody
    end
  else Ok messageBody.

(** Second statement (trigger lines 351-358, node lines 757-764): a string
    whose trimmed form starts with a brace goes through [JSON.parse]; the
    [catch] keeps the string. *)
Definition parseJsonText (messageBody : JsValue) : JsValue :=
  match messageBody with
  | JStr s =>
      if startsWith (trim s) "{" then
        match JSON_parse s with
        | Some parsed => parsed
        | None => messageBody
        end
      else messageBody
  | _ => messageBody
  end.

(** The normalizer: the two statements in sequence.  Both receive paths
    carry the same text. *)
Definition normalizeBody (body : JsValue) : Result JsValue :=
  match decodeBinary body with
  | Ok decoded => Ok (parseJsonText decoded)
  | Throw e => Throw e
  end.

(** A Buffer-shaped object, as the first test of the normalizer sees it. *)
Definition isBufferWrapper (v : JsValue) : bool :=
  truthy v && (typeof v =? "object")%string
  && is_string_lit (get_prop v "type") "Buffer".

End Normalizer.

(* ================================================================== *)
(** * A model of the Node built-ins *)
(* ================================================================== *)

(** An executable instance of [NodeRuntime], used to run the normalizer on
    concrete bodies.  [JSON_parse] follows the JSON grammar with integer
    number literals and escapes that denote code units below 256;
    [Buffer_toString_utf8] decodes one- and two-byte UTF-8 sequences.  Texts
    and byte strings outside that fragment are not claimed to be treated as
    Node treats them. *)
Module NodeModel.

Definition chr (n : nat) : ascii := ascii_of_nat n.
Definition dquote : ascii := chr 34.
Definition backslash : ascii := chr 92.

Definition isJsonWs (c : ascii) : bool :=
  let n := nat_of_ascii c in
  ((n =? 9) || (n =? 10) || (n =? 13) || (n =? 32))%nat.

Fixpoint skipWs (s : string) : string :=
  match s with
  | EmptyString => EmptyString
  | String c rest => if isJsonWs c then skipWs rest else s
  end.

Definition isDigit (c : ascii) : bool :=
  let n := nat_of_ascii c in ((48 <=? n) && (n <=? 57))%nat.

Definition digitVal (c : ascii) : Z := Z.of_nat (nat_of_ascii c) - 48.

Fixpoint takeDigits (acc : Z) (s : string) : Z * string :=
  match s with
  | String c rest => if isDigit c then takeDigits (10 * acc + digitVal c) rest else (acc, s)
  | EmptyString => (acc, s)
  end.

Definition startsFraction (s : string) : bool :=
  match s with
  | String c _ => (c =? ".")%char || (c =? "e")%char || (c =? "E")%char
  | EmptyString => false
  end.

(** [int] of the grammar: a lone zero or a digit sequence without a leading
    zero.  Fractions and exponents are outside the model. *)
Definition parseNat (s : string) : option (Z * string) :=
  match s with
  | String c rest =>
      if (c =? "0")%char then
        match rest with
        | String d _ => if isDigit d || startsFraction rest then None else Some (0, rest)
        | EmptyString => Some (0, rest)
        end
      else if isDigit c then
        let '(n, rest') := takeDigits 0 s in
        if startsFraction rest' then None else Some (n, rest')
      else None
  | EmptyString => None
  end.

Definition hexVal (c : ascii) : option nat :=
  let n := nat_of_ascii c in
  if ((48 <=? n) && (n <=? 57))%nat then Some (n - 48)%nat
  else if ((97 <=? n) && (n <=? 102))%nat then Some (n - 87)%nat
  else if ((65 <=? n) && (n <=? 70))%nat then Some (n - 55)%nat
  else None.

Definition unescape (c : ascii) : option ascii :=
  if (c =? dquote)%char then Some dquote
  else if (c =? backslash)%char then Some backslash
  else if (c =? "/")%char then Some "/"%char
  else if (c =? "b")%char then Some (chr 8)
  else if (c =? "f")%char then Some (chr 12)
  else if (c =? "n")%char then Some (chr 10)
  else if (c =? "r")%char then Some (chr 13)
  else if (c =? "t")%char then Some (chr 9)
  else None.

(** The characters of a string literal, after its opening quote. *)
Fixpoint parseString (s : string) : option (string * string) :=
  match s with
  | EmptyString => None
  | String c r =>
      if (c =? dquote)%char then Some (EmptyString, r)
      else if (c =? backslash)%char then
        match r with
        | String e r' =>
            if (e =? "u")%char then
              match r' with
              | String h1 (String h2 (String h3 (String h4 r''))) =>
                  match hexVal h1, hexVal h2, hexVal h3, hexVal h4 with
                  | Some 0%nat, Some 0%nat, Some a, Some b =>
                      match parseString r'' with
                      | Some (str, rest) => Some (String (chr (16 * a + b)) str, rest)
                      | None => None
                      end
                  | _, _, _, _ => None
                  end
              | _ => None
              end
            else
              match unescape e with
              | Some ch =>
                  match parseString r' with
                  | Some (str, rest) => Some (String ch str, rest)
                  | None => None
                  end
              | None => None
              end
        | EmptyString => None
        end
      else if (nat_of_ascii c <? 32)%nat then None
      else
        match parseString r with
        | Some (str, rest) => Some (String c str, rest)
        | None => None
        end
  end.

Fixpoint dropN (n : nat) (s : string) : string :=
  match n, s with
  | S n', String _ r => dropN n' r
  | _, _ => s
  end.

Fixpoint parseValue (fuel : nat) (s : string) : option (JsValue * string) :=
  match fuel with
  | O => None
  | S fuel' =>
    match s with
    | EmptyString => None
    | String c r =>
        if (c =? "{")%char then
          match skipWs r with
          | String d r' =>
              if (d =? "}")%char then Some (JObj [], r')
              else parseMembers fuel' [] (skipWs r)
          | EmptyString => None
          end
        else if (c =? "[")%char then
          match skipWs r with
          | String d r' =>
              if (d =? "]")%char then Some (JArr [], r')
              else parseElements fuel' [] (skipWs r)
          | EmptyString => None
          end
        else if (c =? dquote)%char then
          match parseString r with
          | Some (str, rest) => Some (JStr str, rest)
          | None => None
          end
        else if (c =? "-")%char then
          match parseNat r with
          | Some (n, rest) => Some (JNum (- n), rest)
          | None => None
          end
        else if isDigit c then
          match parseNat s with
          | Some (n, rest) => Some (JNum n, rest)
          | None => None
          end
        else if String.prefix "true" s then Some (JBool true, dropN 4 s)
        else if String.prefix "false" s then Some (JBool false, dropN 5 s)
        else if String.prefix "null" s then Some (JNull, dropN 4 s)
        else None
    end
  end
with parseMembers (fuel : nat) (acc : list (string * JsValue)) (s : string)
  : option (JsValue * string) :=
  match fuel with
  | O => None
  | S fuel' =>
    match s with
    | EmptyString => None
    | String c r =>
        if (c =? dquote)%char then
          match parseString r with
          | Some (key, r1) =>
              match skipWs r1 with
              | String colon r2 =>
                  if (colon =? ":")%char then
                    match parseValue fuel' (skipWs r2) with
                    | Some (v, r3) =>
                        match skipWs r3 with
                        | String d r4 =>
                            if (d =? ",")%char then
                              parseMembers fuel' (setField key v acc) (skipWs r4)
                            else if (d =? "}")%char then
                              Some (JObj (setField key v acc), r4)
                            else None
                        | EmptyString => None
                        end
                    | None => None
                    end
                  else None
              | EmptyString => None
              end
          | None => None
          end
        else None
    end
  end
with parseElements (fuel : nat) (acc : list JsValue) (s : string)
  : option (JsValue * string) :=
  match fuel with
  | O => None
  | S fuel' =>
    match parseValue fuel' s with
    | Some (v, r1) =>
        match skipWs r1 with
        | String d r2 =>
            if (d =? ",")%char then parseElements fuel' (acc ++ [v]) (skipWs r2)
            else if (d =? "]")%char then Some (JArr (acc ++ [v]), r2)
            else None
        | EmptyString => None
        end
    | None => None
    end
  end.

(** [JSON.parse]: one value between optional white space, nothing after. *)
Definition JSON_parse_model (s : string) : option JsValue :=
  match parseValue (S (2 * String.length s)) (skipWs s) with
  | Some (v, rest) =>
      match skipWs rest with
      | EmptyString => Some v
      | String _ _ => None
      end
  | None => None
  end.

(** ** [Buffer.prototype.toString('utf8')] and [Buffer.from] *)

(** One-byte sequences and the two-byte sequences of U+0080..U+00FF.  Any
    other byte would decode to a code unit the string model does not have
    (or to U+FFFD); the model writes a question mark for it. *)
Fixpoint utf8_decode (bs : list byte) : string :=
  match bs with
  | [] => EmptyString
  | b :: rest =>
      let n := Byte.to_nat b in
      if (n <? 128)%nat then String (chr n) (utf8_decode rest)
      else
        match rest with
        | b2 :: rest' =>
            let m := Byte.to_nat b2 in
            if ((n =? 194) || (n =? 195))%nat && (128 <=? m)%nat && (m <? 192)%nat
            then String (chr ((n - 192) * 64 + (m - 128))) (utf8_decode rest')
            else String "?"%char (utf8_decode rest)
        | [] => String "?"%char EmptyString
        end
  end.

Definition byte_of_nat (n : nat) : byte :=
  match Byte.of_nat (n mod 256) with
  | Some b => b
  | None => Byte.x00
  end.

Fixpoint utf8_encode (s : string) : list byte :=
  match s with
  | EmptyString => []
  | String c rest =>
      let n := nat_of_ascii c in
      if (n <? 128)%nat then byte_of_nat n :: utf8_encode rest
      else byte_of_nat (192 + n / 64) :: byte_of_nat (128 + n mod 64) :: utf8_encode rest
  end.

(** An array element as a byte: a number modulo 256.  Elements that are not
    numbers go through ToNumber in Node; the model reads booleans exactly and
    every other element as 0. *)
Definition toUint8 (v : JsValue) : byte :=
  match v with
  | JNum n => byte_of_nat (Z.to_nat (n mod 256))
  | JBool true => byte_of_nat 1
  | _ => byte_of_nat 0
  end.

(** [Buffer.from(value)] for the arguments the normalizer can pass: a
    string, a Buffer, an array, or a Buffer-shaped object with an array under
    [data]; everything else, [undefined] included, is a TypeError. *)
Definition Buffer_from_model (v : JsValue) : option (list byte) :=
  match v with
  | JStr s => Some (utf8_encode s)
  | JBuffer bytes => Some bytes
  | JArr items => Some (map toUint8 items)
  | JObj _ =>
      if is_string_lit (get_prop v "type") "Buffer" then
        match get_prop v "data" with
        | JArr items => Some (map toUint8 items)
        | _ => None
        end
      else None
  | _ => None
  end.

End NodeModel.

(* ================================================================== *)
(** * The broker SDK as an environment *)
(* ================================================================== *)

Module Sdk.

(** A receiver object.  [rid] is its identity ([===] compares it);
    [sessionId] is present on session receivers only, which is what
    ['sessionId' in receiver] tests. *)
Record Receiver : Type := {
  rid : nat;
  sessionId : option string
}.

Definition same_receiver (a b : Receiver) : bool := (rid a =? rid b)%nat.

(** The queue, or the topic and subscription, a receiver is opened on. *)
Inductive Entity : Type :=
| QueueEntity (queueName : string)
| SubscriptionEntity (topicName subscriptionName : string).

(** A received message, the fields the nodes read. *)
Record Message : Type := {
  messageId : JsValue;
  body : JsValue;
  contentType : JsValue;
  enqueuedTimeUtc : JsValue;
  applicationProperties : JsValue;
  deliveryCount : JsValue;
  sequenceNumber : option Z;
  msgSessionId : JsValue
}.

(** Every call the nodes make on the SDK, on the host ([Emit] is
    [this.emit], [Push] is [returnData.push]) and on the timer. *)
Inductive Call : Type :=
| AcceptSession (entity : Entity) (sessionId : string) (maxAutoLockRenewalDurationInMs : Z)
| AcceptNextSession (entity : Entity) (maxAutoLockRenewalDurationInMs : Z)
| CreateReceiver (entity : Entity) (receiveMode : option string)
| Subscribe (receiver : Receiver) (autoCompleteMessages : bool) (maxConcurrentCalls : Z)
| GetSessionState (receiver : Receiver)
| SetSessionState (receiver : Receiver) (state : JsValue)
| ReceiveMessages (receiver : Receiver) (maxMessageCount maxWaitTimeInMs : Z)
| CompleteMessage (receiver : Receiver) (message : Message)
| CloseReceiver (receiver : Receiver)
| CloseClient
| CreateSender (entityName : string)
| SendMessages (message : JsValue)
| SendViaHttp (entityName : string) (message : JsValue)
| CloseSender
| Emit (json : JsValue)
| Push (json : JsValue)
| Sleep (ms : Z).

Definition History : Type := list Call.

(** An answer of the outside world: a value, or a rejection with the
    message of the error the SDK raises. *)
Inductive Reply (A : Type) : Type :=
| Done (a : A)
| Fail (msg : string).
Arguments Done {A} a.
Arguments Fail {A} msg.

(** How the outside world answers.  Every answer may depend on all calls
    made so far, so an environment is any deterministic broker, host and
    clock.  A successful acceptance yields a new receiver object; for
    [acceptNextSession] the broker chooses the session id. *)
Record Env : Type := {
  acceptSession_reply : History -> Entity -> string -> Reply unit;
  acceptNextSession_reply : History -> Entity -> Reply string;
  subscribe_reply : History -> Receiver -> Reply unit;
  getSessionState_reply : History -> Receiver -> Reply JsValue;
  setSessionState_reply : History -> Receiver -> JsValue -> Reply unit;
  receiveMessages_reply : History -> Receiver -> Reply (list Message);
  completeMessage_reply : History -> Receiver -> Message -> Reply unit;
  closeReceiver_reply : History -> Receiver -> Reply unit;
  closeClient_reply : History -> Reply unit;
  sendMessages_reply : History -> JsValue -> Reply unit;
  sendViaHttp_reply : History -> JsValue -> Reply unit;
  closeSender_reply : History -> Reply unit;
  now : History -> string
}.

End Sdk.
Import Sdk.

(* ================================================================== *)
(** * State and exceptions: the monad the code runs in *)
(* ================================================================== *)

(** The state: the calls made so far, the counter that names new receiver
    objects, and the variables of the closure being run. *)
Record St (L : Type) : Type := {
  trace : History;
  nextRid : nat;
  local : L
}.

Definition M (L A : Type) : Type := St L -> Result A * St L.

Definition ret {L A} (a : A) : M L A := fun st => (Ok a, st).

Definition throw {L A} (e : Exn) : M L A := fun st => (Throw e, st).

Definition bind {L A B} (m : M L A) (k : A -> M L B) : M L B :=
  fun st =>
    match m st with
    | (Ok a, st') => k a st'
    | (Throw e, st') => (Throw e, st')
    end.

(** [try { m } catch (e) { h e }] *)
Definition try_catch {L A} (m : M L A) (h : Exn -> M L A) : M L A :=
  fun st =>
    match m st with
    | (Ok a, st') => (Ok a, st')
    | (Throw e, st') => h e st'
    end.

(** [try { m } finally { f }]: [f] runs on both exits; its own exception
    replaces the pending one. *)
Definition try_finally {L A} (m : M L A) (f : M L unit) : M L A :=
  fun st =>
    match m st with
    | (res, st') =>
        match f st' with
        | (Ok _, st'') => (res, st'')
        | (Throw e, st'') => (Throw e, st'')
        end
    end.

Declare Scope monad_scope.
Delimit Scope monad_scope with monad.
Notation "x <- m ;; k" := (bind m (fun x => k))
  (at level 61, m at next level, right associativity) : monad_scope.
Notation "m ;; k" := (bind m (fun _ => k))
  (at level 61, right associativity) : monad_scope.
Open Scope monad_scope.

Definition getLocal {L} : M L L := fun st => (Ok (local st), st).

Definition setLocal {L} (l : L) : M L unit :=
  fun st => (Ok tt, {| trace := trace st; nextRid := nextRid st; local := l |}).

Definition liftResult {L A} (r : Result A) : M L A := fun st => (r, st).

(** [for (const x of xs) { await f(x) }] *)
Fixpoint forEach {L A} (f : A -> M L unit) (xs : list A) : M L unit :=
  match xs with
  | [] => ret tt
  | x :: rest => f x ;; forEach f rest
  end.

Section Calls.
Context {L : Type} (env : Env).

(** A call is logged, then answered from the history before it; a
    rejection is thrown as the SDK's error. *)
Definition call {A} (c : Call) (reply : History -> Reply A) : M L A :=
  fun st =>
    (match reply (trace st) with
     | Done a => Ok a
     | Fail msg => Throw (SdkError msg)
     end,
     {| trace := (trace st ++ [c])%list; nextRid := nextRid st; local := local st |}).

Definition newReceiver (sid : option string) : M L Receiver :=
  fun st =>
    (Ok {| rid := nextRid st; sessionId := sid |},
     {| trace := trace st; nextRid := S (nextRid st); local := local st |}).

Definition acceptSession (e : Entity) (sid : string) (renewMs : Z) : M L Receiver :=
  call (AcceptSession e sid renewMs) (fun h => acceptSession_reply env h e sid) ;;
  newReceiver (Some sid).

Definition acceptNextSession (e : Entity) (renewMs : Z) : M L Receiver :=
  sid <- call (AcceptNextSession e renewMs) (fun h => acceptNextSession_reply env h e) ;;
  newReceiver (Some sid).

Definition createReceiver (e : Entity) (receiveMode : option string) : M L Receiver :=
  call (CreateReceiver e receiveMode) (fun _ => Done tt) ;;
  newReceiver None.

Definition subscribe (r : Receiver) (autoComplete : bool) (maxConcurrentCalls : Z) : M L unit :=
  call (Subscribe r autoComplete maxConcurrentCalls) (fun h => subscribe_reply env h r).

Definition getSessionState (r : Receiver) : M L JsValue :=
  call (GetSessionState r) (fun h => getSessionState_reply env h r).

Definition setSessionState (r : Receiver) (v : JsValue) : M L unit :=
  call (SetSessionState r v) (fun h => setSessionState_reply env h r v).

Definition receiveBatch (r : Receiver) (maxMessageCount maxWaitTimeInMs : Z) : M L (list Message) :=
  call (ReceiveMessages r maxMessageCount maxWaitTimeInMs)
       (fun h => receiveMessages_reply env h r).

Definition completeMessage (r : Receiver) (m : Message) : M L unit :=
  call (CompleteMessage r m) (fun h => completeMessage_reply env h r m).

Definition closeReceiver (r : Receiver) : M L unit :=
  call (CloseReceiver r) (fun h => closeReceiver_reply env h r).

Definition closeClient : M L unit :=
  call CloseClient (fun h => closeClient_reply env h).

Definition emit (json : JsValue) : M L unit := call (Emit json) (fun _ => Done tt).

Definition sleep (ms : Z) : M L unit := call (Sleep ms) (fun _ => Done tt).

Definition currentTime : M L string := fun st => (Ok (now env (trace st)), st).

End Calls.

(* ================================================================== *)
(** * [Map<string, V>] *)
(* ================================================================== *)

(** A JavaScript [Map] with string keys: entries in insertion order, which
    is the order [for ... of] visits them. *)
Module JsMap.
Section JsMap.
Variable V : Type.

Definition t : Type := list (string * V).

Fixpoint get (k : string) (m : t) : option V :=
  match m with
  | [] => None
  | (k', v) :: rest => if (k =? k')%string then Some v else get k rest
  end.

Definition has (k : string) (m : t) : bool :=
  match get k m with Some _ => true | None => false end.

(** [set]: a present key keeps its position and takes the new value. *)
Fixpoint set (k : string) (v : V) (m : t) : t :=
  match m with
  | [] => [(k, v)]
  | (k', v') :: rest =>
      if (k =? k')%string then (k, v) :: rest else (k', v') :: set k v rest
  end.

Fixpoint delete (k : string) (m : t) : t :=
  match m with
  | [] => []
  | (k', v') :: rest =>
      if (k =? k')%string then rest else (k', v') :: delete k rest
  end.

Definition clear (m : t) : t := [].

Definition keys (m : t) : list string := map fst m.
Definition values (m : t) : list V := map snd m.

End JsMap.
End JsMap.

(** [x.toString()] of a Long or BigInt: its decimal numeral. *)
Definition Z_toString (n : Z) : string := NilZero.string_of_int (Z.to_int n).

(* ================================================================== *)
(** * The trigger node *)
(* ================================================================== *)

Module Trigger.

(** The node parameters [trigger] reads. *)
Record Config : Type := {
  resource : string;
  sessionMode : string;
  specificSessionId : string;
  sessionTimeout : Z;
  queueName : string;
  topicName : string;
  subscriptionName : string;
  maxConcurrentCalls : Z;
  autoComplete : bool
}.

(** The variables of the closure: the [receivers] array and the
    [activeReceivers] map of [sessionReceiverManager]. *)
Record Closure : Type := {
  receivers : list Receiver;
  activeReceivers : JsMap.t Receiver
}.

Section Trigger.
Context {rt : NodeRuntime} (env : Env) (cfg : Config).

#[local] Abbreviation T := (M Closure).

(** [sessionReceiverManager] is created exactly when the session mode is
    not ['none'] (lines 239-270), and never reassigned. *)
Definition managerInitialized : bool := negb (sessionMode cfg =? "none")%string.

Definition isQueue : bool := (resource cfg =? "queue")%string.

Definition entity : Entity :=
  if isQueue then QueueEntity (queueName cfg)
  else SubscriptionEntity (topicName cfg) (subscriptionName cfg).

Definition entityName : string :=
  if isQueue then queueName cfg
  else topicName cfg ++ "/" ++ subscriptionName cfg.

Definition getActive : T (JsMap.t Receiver) :=
  cl <- getLocal ;; ret (activeReceivers cl).

Definition setActive (m : JsMap.t Receiver) : T unit :=
  cl <- getLocal ;; setLocal {| receivers := receivers cl; activeReceivers := m |}.

(** Lines 235-271: the plain receiver of the ['none'] mode. *)
Definition createReceivers : T unit :=
  if (sessionMode cfg =? "none")%string then
    receiver <- createReceiver entity None ;;
    cl <- getLocal ;;
    setLocal {| receivers := (receivers cl ++ [receiver])%list;
                activeReceivers := activeReceivers cl |}
  else ret tt.

(** [getOrCreateSessionReceiver], lines 273-335.  [has] followed by [get]
    on the same key is one lookup; the two [catch] blocks log and rethrow. *)
Definition getOrCreateSessionReceiver : T Receiver :=
  if negb managerInitialized then throw ManagerNotInitialized
  else if (sessionMode cfg =? "specific")%string then
    active <- getActive ;;
    match JsMap.get (specificSessionId cfg) active with
    | Some receiver => ret receiver
    | None =>
        receiver <- acceptSession env entity (specificSessionId cfg)
                      (sessionTimeout cfg * 1000) ;;
        active <- getActive ;;
        setActive (JsMap.set (specificSessionId cfg) receiver active) ;;
        ret receiver
    end
  else if (sessionMode cfg =? "any")%string then
    receiver <- acceptNextSession env entity (sessionTimeout cfg * 1000) ;;
    let acceptedSessionId :=
      match sessionId receiver with Some sid => sid | None => "" end in
    active <- getActive ;;
    setActive (JsMap.set acceptedSessionId receiver active) ;;
    ret receiver
  else throw (UnsupportedSessionMode (sessionMode cfg)).

(** The record [processMessage] builds, lines 360-375. *)
Definition executionData (message : Message) (messageBody : JsValue)
           (receivedAt : string) : JsValue :=
  JObj [ ("messageId", messageId message);
         ("body", messageBody);
         ("contentType", contentType message);
         ("enqueuedTimeUtc", enqueuedTimeUtc message);
         ("applicationProperties",
            if truthy (applicationProperties message)
            then applicationProperties message else JObj []);
         ("deliveryCount", deliveryCount message);
         ("sequenceNumber",
            match sequenceNumber message with
            | Some n => JStr (Z_toString n)
            | None => JUndefined
            end);
         ("sessionId", msgSessionId message);
         ("receivedAt", JStr receivedAt);
         ("entityName", JStr entityName);
         ("resource", JStr (resource cfg));
         ("sessionMode", JStr (sessionMode cfg)) ].

Definition sessionInfo (sid : string) (sessionState : JsValue) : JsValue :=
  JObj [ ("sessionId", JStr sid);
         ("sessionState", sessionState);
         ("isSessionMessage", JBool true) ].

(** [processMessage], lines 337-397. *)
Definition processMessage (message : Message) (currentReceiver : Receiver) : T unit :=
  messageBody <- liftResult (normalizeBody (body message)) ;;
  receivedAt <- currentTime env ;;
  let nodeExecutionData := executionData message messageBody receivedAt in
  json <-
    match sessionId currentReceiver with
    | Some sid =>
        if negb (sessionMode cfg =? "none")%string then
          try_catch
            (sessionState <- getSessionState env currentReceiver ;;
             ret (set_prop nodeExecutionData "sessionInfo" (sessionInfo sid sessionState)))
            (fun stateError =>
             ret (set_prop nodeExecutionData "sessionInfo" (sessionInfo sid JNull)))
        else ret nodeExecutionData
    | None => ret nodeExecutionData
    end ;;
  emit json.

(** The loop both [processError] and [closeFunction] run over the map:
    close each receiver, log and drop what [close] throws. *)
Definition closeEach (active : JsMap.t Receiver) : T unit :=
  forEach (fun entry : string * Receiver =>
             try_catch (closeReceiver env (snd entry)) (fun closeError => ret tt))
          active.

(** [processError], lines 399-414. *)
Definition processError : T unit :=
  if negb (sessionMode cfg =? "none")%string && managerInitialized then
    active <- getActive ;;
    closeEach active ;;
    active <- getActive ;;
    setActive (JsMap.clear active)
  else ret tt.

(** The first key under which the map holds this very receiver. *)
Fixpoint keyOf (r : Receiver) (m : JsMap.t Receiver) : option string :=
  match m with
  | [] => None
  | (k, r') :: rest => if same_receiver r' r then Some k else keyOf r rest
  end.

(** The [processError] handler of a session subscription, lines 440-448. *)
Definition sessionProcessError (sessionReceiver : Receiver) : T unit :=
  processError ;;
  active <- getActive ;;
  match keyOf sessionReceiver active with
  | Some sid => setActive (JsMap.delete sid active)
  | None => ret tt
  end.

(** One pass through the body of [while (true)] in [startSessionHandling],
    lines 434-464; [true] is the [break]. *)
Definition sessionLoopBody : T bool :=
  try_catch
    (sessionReceiver <- getOrCreateSessionReceiver ;;
     subscribe env sessionReceiver (autoComplete cfg) (maxConcurrentCalls cfg) ;;
     if (sessionMode cfg =? "specific")%string then ret true
     else sleep 1000 ;; ret false)
    (fun sessionError => sleep 5000 ;; ret false).

(** Whether [startSessionHandling] has left its loop after at most [fuel]
    passes. *)
Inductive LoopStatus : Type := Returned | Looping.

Fixpoint startSessionHandling (fuel : nat) : T LoopStatus :=
  match fuel with
  | O => ret Looping
  | S fuel' =>
      stop <- sessionLoopBody ;;
      if stop then ret Returned else startSessionHandling fuel'
  end.

(** Lines 418-430: the subscriptions of the ['none'] mode. *)
Definition subscribePlain : T unit :=
  cl <- getLocal ;;
  forEach (fun receiver =>
             subscribe env receiver (autoComplete cfg) (maxConcurrentCalls cfg))
          (receivers cl).

(** [closeFunction], lines 475-499. *)
Definition closeFunction : T unit :=
  try_catch
    (cl <- getLocal ;;
     forEach (closeReceiver env) (receivers cl) ;;
     (if managerInitialized then
        active <- getActive ;;
        closeEach active ;;
        active <- getActive ;;
        setActive (JsMap.clear active)
      else ret tt) ;;
     closeClient env)
    (fun error => ret tt).

End Trigger.

Definition initial : St Closure :=
  {| trace := []; nextRid := 0;
     local := {| receivers := []; activeReceivers := [] |} |}.

End Trigger.

(* ================================================================== *)
(** * The action node: [execute] *)
(* ================================================================== *)

Module Node.

(** The node parameters [execute] reads at index 0. *)
Record Config : Type := {
  resource : string;
  operation : string;
  protocol : string;
  queueName : string;
  topicName : string;
  maxMessageCount : Z;
  maxWaitTimeInSeconds : Z;
  receiveMode : string;
  sessionMode : string;
  receiveSessionId : string;
  sessionTimeout : Z;
  manageSessionState : bool;
  newSessionState : string
}.

(** The parameters read per input item by [sendMessage]. *)
Record Item : Type := {
  messageBody : JsValue;
  messageProperties : option (list (string * string));
  contentType : string;
  messageId : string;
  itemSessionId : string
}.

Section Node.
Context {rt : NodeRuntime} (env : Env) (cfg : Config).

(** The local state is [returnData]. *)
#[local] Abbreviation X := (M (list JsValue)).

Definition isSdk : bool := (protocol cfg =? "sdk")%string.
Definition isHttp : bool := (protocol cfg =? "http")%string.

(** [returnData.push({ json })] *)
Definition pushReturn (json : JsValue) : X unit :=
  call (Push json) (fun _ => Done tt) ;;
  returnData <- getLocal ;;
  setLocal (returnData ++ [json])%list.

(** [s && s.trim() !== ''] *)
Definition nonBlank (s : string) : bool :=
  negb (s =? "")%string && negb (trim s =? "")%string.

(** The [applicationProperties] object: the pairs whose key and value are
    both non-empty, a repeated key keeping its last value. *)
Definition applicationPropertiesOf (props : list (string * string)) : JsValue :=
  JObj (fold_left
          (fun acc (kv : string * string) =>
             if negb (fst kv =? "")%string && negb (snd kv =? "")%string
             then setField (fst kv) (JStr (snd kv)) acc else acc)
          props []).

(** The message object of the send loops, lines 607-628 and 835-855. *)
Definition buildMessage (item : Item) : JsValue :=
  let message := JObj [ ("body", messageBody item);
                        ("contentType", JStr (contentType item)) ] in
  let message :=
    if nonBlank (messageId item)
    then set_prop message "messageId" (JStr (messageId item)) else message in
  let message :=
    if nonBlank (itemSessionId item)
    then set_prop message "sessionId" (JStr (itemSessionId item)) else message in
  match messageProperties item with
  | Some props => set_prop message "applicationProperties" (applicationPropertiesOf props)
  | None => message
  end.

Definition sendMessages (message : JsValue) : X unit :=
  call (SendMessages message) (fun h => sendMessages_reply env h message).

Definition sendMessageViaHTTP (entityName : string) (message : JsValue) : X unit :=
  call (SendViaHttp entityName message) (fun h => sendViaHttp_reply env h message).

Definition sentRecord (message : JsValue) (entityKey entityName sentAt : string) : JsValue :=
  JObj [ ("success", JBool true);
         ("messageId", get_prop message "messageId");
         (entityKey, JStr entityName);
         ("sentAt", JStr sentAt) ].

(** One pass of the queue send loop, lines 585-655. *)
Definition sendQueueItem (item : Item) : X unit :=
  if isEmptyMessageBody (messageBody item) then throw MessageBodyEmpty
  else
    let message := buildMessage item in
    (if isSdk then sendMessages message
     else if isHttp then sendMessageViaHTTP (queueName cfg) message
     else throw InvalidProtocol) ;;
    sentAt <- currentTime env ;;
    pushReturn (sentRecord message "queueName" (queueName cfg) sentAt).

(** One pass of the topic send loop, lines 824-866. *)
Definition sendTopicItem (item : Item) : X unit :=
  if isEmptyMessageBody (messageBody item) then throw MessageBodyEmpty
  else
    let message := buildMessage item in
    sendMessages message ;;
    sentAt <- currentTime env ;;
    pushReturn (sentRecord message "topicName" (topicName cfg) sentAt).

Definition closeSender : X unit :=
  call CloseSender (fun h => closeSender_reply env h).

(** Queue [sendMessage], lines 575-661. *)
Definition sendToQueue (items : list Item) : X unit :=
  (if isSdk then call (CreateSender (queueName cfg)) (fun _ => Done tt) else ret tt) ;;
  forEach sendQueueItem items ;;
  if isSdk then closeSender else ret tt.

(** Topic [sendMessage], lines 817-869. *)
Definition sendToTopic (items : list Item) : X unit :=
  if negb isSdk then throw TopicSdkOnly
  else
    call (CreateSender (topicName cfg)) (fun _ => Done tt) ;;
    forEach sendTopicItem items ;;
    closeSender.

(** The record of the receive loop, lines 766-783. *)
Definition receivedRecord (message : Message) (messageBody : JsValue)
           (sessionInfo : option JsValue) : JsValue :=
  let result :=
    JObj [ ("messageId", Sdk.messageId message);
           ("body", messageBody);
           ("contentType", Sdk.contentType message);
           ("enqueuedTimeUtc", enqueuedTimeUtc message);
           ("applicationProperties", applicationProperties message);
           ("deliveryCount", deliveryCount message);
           ("sequenceNumber",
              match sequenceNumber message with
              | Some n => JStr (Z_toString n)
              | None => JUndefined
              end);
           ("sessionId", msgSessionId message) ] in
  match sessionInfo with
  | Some info => set_prop result "sessionInfo" info
  | None => result
  end.

(** One pass of the receive loop, lines 742-790. *)
Definition receiveOne (receiver : Receiver) (isSessionReceiver : bool)
           (currentSessionId : option string) (currentSessionState : JsValue)
           (message : Message) : X unit :=
  messageBody <- liftResult (normalizeBody (body message)) ;;
  let sessionInfo :=
    match currentSessionId with
    | Some sid =>
        if isSessionReceiver && negb (sid =? "")%string
        then Some (Trigger.sessionInfo sid currentSessionState) else None
    | None => None
    end in
  pushReturn (receivedRecord message messageBody sessionInfo) ;;
  if (receiveMode cfg =? "peekLock")%string
  then completeMessage env receiver message
  else ret tt.

(** Lines 674-721: the receiver, whether it is a session receiver, and the
    session id. *)
Definition openReceiver : X (Receiver * bool * option string) :=
  if (sessionMode cfg =? "specific")%string then
    receiver <- try_catch
                  (acceptSession env (QueueEntity (queueName cfg)) (receiveSessionId cfg)
                                 (sessionTimeout cfg * 1000))
                  (fun sessionError =>
                     throw (AcceptSessionFailed (receiveSessionId cfg) sessionError)) ;;
    ret (receiver, true, Some (receiveSessionId cfg))
  else if (sessionMode cfg =? "next")%string then
    receiver <- try_catch
                  (acceptNextSession env (QueueEntity (queueName cfg))
                                     (sessionTimeout cfg * 1000))
                  (fun sessionError => throw (AcceptNextFailed sessionError)) ;;
    ret (receiver, true, sessionId receiver)
  else
    receiver <- createReceiver (QueueEntity (queueName cfg)) (Some (receiveMode cfg)) ;;
    ret (receiver, false, None).

(** Lines 723-734: the session state, read once before the batch. *)
Definition readSessionState (receiver : Receiver) (isSessionReceiver : bool) : X JsValue :=
  if isSessionReceiver && negb (sessionMode cfg =? "none")%string then
    if manageSessionState cfg then
      try_catch (getSessionState env receiver) (fun stateError => ret JNull)
    else ret JNull
  else ret JNull.

(** Lines 792-809: the session state written back after the batch. *)
Definition writeSessionState (receiver : Receiver) (isSessionReceiver : bool) : X unit :=
  if isSessionReceiver && negb (sessionMode cfg =? "none")%string then
    if manageSessionState cfg && nonBlank (newSessionState cfg) then
      try_catch
        (match JSON_parse (newSessionState cfg) with
         | Some stateObject => setSessionState env receiver stateObject
         | None => throw (SyntaxError "Unexpected token in JSON")
         end)
        (fun stateError => throw (UpdateStateFailed stateError))
    else ret tt
  else ret tt.

(** Queue [receiveMessages], lines 662-813. *)
Definition receiveMessages : X unit :=
  if negb isSdk then throw ReceiveSdkOnly
  else
    opened <- openReceiver ;;
    let '(receiver, isSessionReceiver, currentSessionId) := opened in
    currentSessionState <- readSessionState receiver isSessionReceiver ;;
    messages <- receiveBatch env receiver (maxMessageCount cfg)
                             (maxWaitTimeInSeconds cfg * 1000) ;;
    forEach (receiveOne receiver isSessionReceiver currentSessionId currentSessionState)
            messages ;;
    writeSessionState receiver isSessionReceiver ;;
    closeReceiver env receiver.

(** The dispatch inside the [try] of [execute], lines 571-870. *)
Definition dispatch (items : list Item) : X unit :=
  if (resource cfg =? "queue")%string then
    if (operation cfg =? "sendMessage")%string then sendToQueue items
    else if (operation cfg =? "receiveMessages")%string then receiveMessages
    else ret tt
  else if (resource cfg =? "topic")%string then
    if (operation cfg =? "sendMessage")%string then sendToTopic items
    else ret tt
  else ret tt.

(** [execute] from its [try] on, lines 570-885: the [catch] wraps what was
    thrown, the [finally] closes the client, and the items collected are
    returned. *)
Definition execute (items : list Item) : X (list JsValue) :=
  try_finally
    (try_catch (dispatch items) (fun error => throw (OperationFailed error)))
    (if isSdk then closeClient env else ret tt) ;;
  getLocal.

End Node.

Definition initial : St (list JsValue) :=
  {| trace := []; nextRid := 0; local := [] |}.

End Node.

(* ================================================================== *)
(** * Reading a call trace *)
(* ================================================================== *)

(** The messages [completeMessage] was called on, in call order. *)
Fixpoint completions (h : History) : list Message :=
  match h with
  | [] => []
  | CompleteMessage _ m :: rest => m :: completions rest
  | _ :: rest => completions rest
  end.

(** The receivers [close] was called on, in call order. *)
Fixpoint closedReceivers (h : History) : list Receiver :=
  match h with
  | [] => []
  | CloseReceiver r :: rest => r :: closedReceivers rest
  | _ :: rest => closedReceivers rest
  end.

(** The records handed to the sink ([this.emit] or [returnData.push]). *)
Fixpoint delivered (h : History) : list JsValue :=
  match h with
  | [] => []
  | Emit json :: rest => json :: delivered rest
  | Push json :: rest => json :: delivered rest
  | _ :: rest => delivered rest
  end.

(** The session ids acceptance was requested for, [None] standing for
    [acceptNextSession]. *)
Fixpoint acceptances (h : History) : list (option string) :=
  match h with
  | [] => []
  | AcceptSession _ sid _ :: rest => Some sid :: acceptances rest
  | AcceptNextSession _ _ :: rest => None :: acceptances rest
  | _ :: rest => acceptances rest
  end.

Definition isClosed (h : History) (r : Receiver) : bool :=
  existsb (same_receiver r) (closedReceivers h).

(* ================================================================== *)
(** * Sample environments and inputs *)
(* ================================================================== *)

Module Samples.
Import NodeModel.

Definition quoted (s : string) : string := String dquote (s ++ String dquote "").

(** The text [{"a":1}]. *)
Definition jsonA : string := "{" ++ quoted "a" ++ ":1}".

(** The text [{"type":"Buffer","data":[123,125]}]; bytes 123 and 125 are the
    two braces. *)
Definition jsonWrapper : string :=
  "{" ++ quoted "type" ++ ":" ++ quoted "Buffer" ++ "," ++ quoted "data" ++ ":[123,125]}".

(** A broker that grants everything; every session has a stored state. *)
Definition happy : Env := {|
  acceptSession_reply := fun _ _ _ => Done tt;
  acceptNextSession_reply := fun _ _ => Done "S-next";
  subscribe_reply := fun _ _ => Done tt;
  getSessionState_reply := fun _ _ => Done (JObj [("state", JStr "active")]);
  setSessionState_reply := fun _ _ _ => Done tt;
  receiveMessages_reply := fun _ _ => Done [];
  completeMessage_reply := fun _ _ _ => Done tt;
  closeReceiver_reply := fun _ _ => Done tt;
  closeClient_reply := fun _ => Done tt;
  sendMessages_reply := fun _ _ => Done tt;
  sendViaHttp_reply := fun _ _ => Done tt;
  closeSender_reply := fun _ => Done tt;
  now := fun _ => "2026-02-05T12:00:00.000Z"
|}.

Definition message (id : string) (payload : JsValue) : Message := {|
  Sdk.messageId := JStr id;
  body := payload;
  Sdk.contentType := JStr "application/json";
  enqueuedTimeUtc := JStr "2026-02-05T12:00:00.000Z";
  applicationProperties := JUndefined;
  deliveryCount := JNum 1;
  sequenceNumber := Some 1;
  msgSessionId := JUndefined
|}.

(** [happy], except that a new session has no state yet and the batch holds
    the given messages. *)
Definition withBatch (stateless : bool) (batch : list Message) : Env := {|
  acceptSession_reply := acceptSession_reply happy;
  acceptNextSession_reply := acceptNextSession_reply happy;
  subscribe_reply := subscribe_reply happy;
  getSessionState_reply := fun h r =>
    if stateless then Fail "The session state is not available" else getSessionState_reply happy h r;
  setSessionState_reply := setSessionState_reply happy;
  receiveMessages_reply := fun _ _ => Done batch;
  completeMessage_reply := completeMessage_reply happy;
  closeReceiver_reply := closeReceiver_reply happy;
  closeClient_reply := closeClient_reply happy;
  sendMessages_reply := sendMessages_reply happy;
  sendViaHttp_reply := sendViaHttp_reply happy;
  closeSender_reply := closeSender_reply happy;
  now := now happy
|}.

Definition triggerCfg (mode : string) (auto : bool) : Trigger.Config := {|
  Trigger.resource := "queue";
  Trigger.sessionMode := mode;
  Trigger.specificSessionId := "S1";
  Trigger.sessionTimeout := 60;
  Trigger.queueName := "orders";
  Trigger.topicName := "";
  Trigger.subscriptionName := "";
  Trigger.maxConcurrentCalls := 1;
  Trigger.autoComplete := auto
|}.

Definition nodeCfg (res op proto mode recvMode : string) (manage : bool) : Node.Config := {|
  Node.resource := res;
  Node.operation := op;
  Node.protocol := proto;
  Node.queueName := "orders";
  Node.topicName := "events";
  Node.maxMessageCount := 10;
  Node.maxWaitTimeInSeconds := 60;
  Node.receiveMode := recvMode;
  Node.sessionMode := mode;
  Node.receiveSessionId := "S1";
  Node.sessionTimeout := 60;
  Node.manageSessionState := manage;
  Node.newSessionState := ""
|}.

Definition item (payload : JsValue) : Node.Item := {|
  Node.messageBody := payload;
  Node.messageProperties := None;
  Node.contentType := "application/json";
  Node.messageId := "";
  Node.itemSessionId := ""
|}.

(** A session receiver and a plain one, as the SDK would have created
    them. *)
Definition sessionReceiver (n : nat) (sid : string) : Receiver :=
  {| rid := n; sessionId := Some sid |}.
Definition plainReceiver (n : nat) : Receiver := {| rid := n; sessionId := None |}.

End Samples.

(* ================================================================== *)
(** * What the properties are stated with *)
(* ================================================================== *)

Ltac unfold_monad :=
  unfold bind, ret, throw, try_catch, try_finally, getLocal, setLocal,
         liftResult, call, currentTime in *.

(** The calls a computation adds to the trace. *)
Definition newCalls {L} (before after : St L) : History :=
  skipn (List.length (trace before)) (trace after).

Ltac unfold_trigger :=
  unfold Trigger.getActive, Trigger.setActive, acceptSession, acceptNextSession,
         newReceiver, closeReceiver, closeClient, subscribe, sleep, emit,
         getSessionState, completeMessage in *;
  unfold_monad.

(** The state after some more calls and with another registry. *)
Definition withCalls (st : St Trigger.Closure) (calls : History)
           (active : JsMap.t Receiver) : St Trigger.Closure :=
  {| trace := (trace st ++ calls)%list;
     nextRid := nextRid st;
     local := {| Trigger.receivers := Trigger.receivers (local st);
                 Trigger.activeReceivers := active |} |}.

(** The calls of one shutdown: the plain receivers closed, the session
    receivers closed, and whether the connection was closed. *)
Definition shutdownCalls (plain session : list Receiver) (connection : bool) : History :=
  (map CloseReceiver plain ++ map CloseReceiver session
   ++ (if connection then [CloseClient] else []))%list.

(** What can happen to a running trigger, in any order: its start-up, an
    acceptance (specific or next, by the mode), one pass of the session loop,
    a delivery on a receiver, an error on a plain subscription, an error on a
    session subscription, and the shutdown. *)
Inductive Op : Type :=
| OpStart
| OpAccept
| OpLoopPass
| OpDeliver (message : Message) (receiver : Receiver)
| OpError
| OpSessionError (sessionReceiver : Receiver)
| OpShutdown.

Section Engine.
Context {rt : NodeRuntime} (env : Env) (cfg : Trigger.Config).

Definition perform (st : St Trigger.Closure) (op : Op) : St Trigger.Closure :=
  match op with
  | OpStart => snd ((Trigger.createReceivers cfg ;; Trigger.subscribePlain env cfg) st)
  | OpAccept => snd (Trigger.getOrCreateSessionReceiver env cfg st)
  | OpLoopPass => snd (Trigger.sessionLoopBody env cfg st)
  | OpDeliver m r => snd (Trigger.processMessage env cfg m r st)
  | OpError => snd (Trigger.processError env cfg st)
  | OpSessionError r => snd (Trigger.sessionProcessError env cfg r st)
  | OpShutdown => snd (Trigger.closeFunction env cfg st)
  end.

Definition runOps (ops : list Op) : St Trigger.Closure :=
  fold_left perform ops Trigger.initial.

End Engine.

(** The receivers registered under a session id. *)
Definition registeredUnder (sid : string) (st : St Trigger.Closure) : list Receiver :=
  map snd (filter (fun entry => (fst entry =? sid)%string)
                  (Trigger.activeReceivers (local st))).

(** Receiver objects are named in creation order; the registry has one entry
    per key; no registered receiver has been closed, and none is a plain
    receiver. *)
Record RegistryOk (st : St Trigger.Closure) : Prop := {
  keys_unique : NoDup (JsMap.keys (Trigger.activeReceivers (local st)));
  registered_known : forall k r,
    In (k, r) (Trigger.activeReceivers (local st)) -> (rid r < nextRid st)%nat;
  plain_known : forall p,
    In p (Trigger.receivers (local st)) -> (rid p < nextRid st)%nat;
  closed_known : forall c,
    In c (closedReceivers (trace st)) -> (rid c < nextRid st)%nat;
  registered_not_plain : forall k r p,
    In (k, r) (Trigger.activeReceivers (local st)) ->
    In p (Trigger.receivers (local st)) -> rid r <> rid p;
  registered_open : forall k r c,
    In (k, r) (Trigger.activeReceivers (local st)) ->
    In c (closedReceivers (trace st)) -> rid r <> rid c
}.

Definition Preserves {A} (m : M Trigger.Closure A) : Prop :=
  forall st, RegistryOk st -> RegistryOk (snd (m st)).

Definition isClose (c : Call) : bool :=
  match c with CloseReceiver _ => true | _ => false end.

Section BatchCalls.
Context {rt : NodeRuntime} (cfg : Node.Config).
Variables (receiver : Receiver) (isSessionReceiver : bool)
          (currentSessionId : option string) (currentSessionState : JsValue).

(** The [sessionInfo] the one-shot loop attaches, lines 777-783. *)
Definition batchSessionInfo : option JsValue :=
  match currentSessionId with
  | Some sid =>
      if isSessionReceiver && negb (sid =? "")%string
      then Some (Trigger.sessionInfo sid currentSessionState) else None
  | None => None
  end.

(** The record the one-shot loop pushes for a message. *)
Definition batchRecord (m : Message) : JsValue :=
  match normalizeBody (body m) with
  | Ok messageBody => Node.receivedRecord m messageBody batchSessionInfo
  | Throw _ => JUndefined
  end.

(** The calls of one pass of the one-shot loop: the record is pushed, then,
    under peek-lock, the message is completed. *)
Definition passCalls (m : Message) : History :=
  Push (batchRecord m)
  :: (if (Node.receiveMode cfg =? "peekLock")%string
      then [CompleteMessage receiver m] else []).

End BatchCalls.

(* ================================================================== *)
(** * Connection strings *)
(* ================================================================== *)

(** The string methods the connection-string code calls, on strings of code
    units below 256. *)
Module Str.

(** [s.split(sep)] for a one-character separator: the pieces between the
    separators, at least one piece. *)
Fixpoint split (sep : ascii) (s : string) : list string :=
  match s with
  | EmptyString => [EmptyString]
  | String c rest =>
      if (c =? sep)%char then EmptyString :: split sep rest
      else
        match split sep rest with
        | piece :: pieces => String c piece :: pieces
        | [] => [String c EmptyString]
        end
  end.

(** [s.split(sep, limit)]: the first [limit] pieces of the full split. *)
Definition splitLimit (sep : ascii) (limit : nat) (s : string) : list string :=
  firstn limit (split sep s).

(** [s.replace(pattern, '')] for a string pattern: the first occurrence is
    removed. *)
Fixpoint removeFirst (pattern s : string) : string :=
  if String.prefix pattern s then NodeModel.dropN (String.length pattern) s
  else
    match s with
    | EmptyString => EmptyString
    | String c rest => String c (removeFirst pattern rest)
    end.

(** [toLowerCase] of one code unit: A-Z, and the capital letters of
    U+00C0..U+00DE other than the multiplication sign. *)
Definition lowerChar (c : ascii) : ascii :=
  let n := nat_of_ascii c in
  if ((65 <=? n) && (n <=? 90) || (192 <=? n) && (n <=? 222) && negb (n =? 215))%nat
  then ascii_of_nat (n + 32) else c.

Fixpoint toLowerCase (s : string) : string :=
  match s with
  | EmptyString => EmptyString
  | String c rest => String (lowerChar c) (toLowerCase rest)
  end.

(** [s.includes(sub)] *)
Fixpoint includes (sub s : string) : bool :=
  String.prefix sub s
  || match s with
     | EmptyString => false
     | String _ rest => includes sub rest
     end.

(** Whether a character occurs in a string. *)
Fixpoint occurs (c : ascii) (s : string) : bool :=
  match s with
  | EmptyString => false
  | String d rest => (d =? c)%char || occurs c rest
  end.

End Str.

Module Conn.

(** [ConnectionDetails], AzureServiceBus.node.ts lines 12-17. *)
Record ConnectionDetails : Type := {
  hostname : string;
  username : string;
  password : string;
  entityPath : option string
}.

(** The errors raised before the [try] of [execute] and at the start of
    [trigger]; they reach the host as they are. *)
Inductive ConfigError : Type :=
| ConnectionStringRequired
| BlankValues
| MissingEndpoint.

Definition configMessage (e : ConfigError) : string :=
  match e with
  | ConnectionStringRequired => "Azure Service Bus connection string is required"
  | BlankValues => "Connection string contains blank values. Please re-enter your credentials."
  | MissingEndpoint => "Missing Endpoint in connection string"
  end.

(** The [parsed] record: string keys, the last assignment to a key wins. *)
Fixpoint lookup (k : string) (parsed : list (string * string)) : option string :=
  match parsed with
  | [] => None
  | (k', v) :: rest => if (k =? k')%string then Some v else lookup k rest
  end.

Fixpoint assign (k v : string) (parsed : list (string * string)) : list (string * string) :=
  match parsed with
  | [] => [(k, v)]
  | (k', v') :: rest =>
      if (k =? k')%string then (k, v) :: rest else (k', v') :: assign k v rest
  end.

(** One pass of the loop of [parseConnectionString], lines 45-50:
    [const [key, value] = part.split('=', 2)], then the assignment when both
    are non-empty. *)
Definition parsePart (parsed : list (string * string)) (part : string)
  : list (string * string) :=
  match Str.splitLimit "=" 2 part with
  | key :: value :: _ =>
      if negb (key =? "")%string && negb (value =? "")%string
      then assign (Str.toLowerCase key) value parsed
      else parsed
  | _ => parsed
  end.

Definition parseParts (connectionString : string) : list (string * string) :=
  fold_left parsePart (Str.split ";" connectionString) [].

(** [parseConnectionString], lines 40-75.  Only the four keys read below are
    ever looked up in [parsed]. *)
Definition parseConnectionString (connectionString : string)
  : ConfigError + ConnectionDetails :=
  let parsed := parseParts connectionString in
  match lookup "endpoint" parsed with
  | None => inl MissingEndpoint
  | Some endpoint =>
      let hostname := Str.removeFirst "/" (Str.removeFirst "sb://" endpoint) in
      inr {| hostname := hostname;
             username := match lookup "sharedaccesskeyname" parsed with
                         | Some v => v
                         | None => ""
                         end;
             password := match lookup "sharedaccesskey" parsed with
                         | Some v => v
                         | None => ""
                         end;
             entityPath := lookup "entitypath" parsed |}
  end.

(** The two checks both nodes make on the credential before connecting:
    node lines 536-545, trigger lines 198-206. *)
Definition checkConnectionString (connectionString : string) : ConfigError + unit :=
  if (connectionString =? "")%string then inl ConnectionStringRequired
  else if Str.includes "__n8n_BLANK_VALUE_" connectionString then inl BlankValues
  else inr tt.

End Conn.

(* ================================================================== *)
(** * The two entry points from their first line *)
(* ================================================================== *)

Section EntryPoints.
Context {rt : NodeRuntime} (env : Env).

(** [new ServiceBusClient(connectionString, ...)]: the SDK reads the
    connection string and throws on one it cannot use.  The flag tells the
    attempt made with the WebSockets transport from the one made without. *)
Variable newClient : bool -> string -> Reply unit.

(** The client of both nodes, trigger lines 217-229 and node lines 550-564:
    the constructor is tried with the WebSockets transport, and once more
    without it in the [catch]; what the second attempt throws leaves the
    function. *)
Definition createClient (connectionString : string) : Reply unit :=
  match newClient true connectionString with
  | Done _ => Done tt
  | Fail _ => newClient false connectionString
  end.

(** [trigger], lines 182-504, up to the return of [closeFunction]: the
    credential checks, the client, the receivers, the subscriptions.
    Constructing the client sends nothing to the broker.
    [startSessionHandling] is started, not awaited; [fuel] bounds the passes
    of its loop that are run. *)
Definition triggerStart (cfg : Trigger.Config) (connectionString : string) (fuel : nat)
  : St Trigger.Closure -> (Conn.ConfigError + Result unit) * St Trigger.Closure :=
  fun st =>
    match Conn.checkConnectionString connectionString with
    | inl e => (inl e, st)
    | inr _ =>
        match createClient connectionString with
        | Fail msg => (inr (Throw (SdkError msg)), st)
        | Done _ =>
            let '(res, st') :=
              (Trigger.createReceivers cfg ;;
               if (Trigger.sessionMode cfg =? "none")%string
               then Trigger.subscribePlain env cfg
               else Trigger.startSessionHandling env cfg fuel ;; ret tt) st in
            (inr res, st')
        end
    end.

(** [execute], lines 516-885, from its first line: the credential checks,
    the client when the protocol is the SDK's or the connection details when
    it is HTTP, then the [try]. *)
Definition executeStart (cfg : Node.Config) (connectionString : string)
           (items : list Node.Item)
  : St (list JsValue) -> (Conn.ConfigError + Result (list JsValue)) * St (list JsValue) :=
  fun st =>
    match Conn.checkConnectionString connectionString with
    | inl e => (inl e, st)
    | inr _ =>
        if Node.isSdk cfg then
          match createClient connectionString with
          | Fail msg => (inr (Throw (SdkError msg)), st)
          | Done _ => let '(res, st') := Node.execute env cfg items st in (inr res, st')
          end
        else
          let details :=
            if Node.isHttp cfg
            then match Conn.parseConnectionString connectionString with
                 | inl e => inl e
                 | inr d => inr (Some d)
                 end
            else inr None in
          match details with
          | inl e => (inl e, st)
          | inr _ => let '(res, st') := Node.execute env cfg items st in (inr res, st')
          end
    end.

End EntryPoints.

(** A client constructor for the examples: under either transport it takes
    a connection string that has an endpoint, a key name and a key. *)
Definition exampleClient (webSockets : bool) (connectionString : string) : Reply unit :=
  match Conn.parseConnectionString connectionString with
  | inr d =>
      if negb (Conn.username d =? "")%string && negb (Conn.password d =? "")%string
      then Done tt
      else Fail "Connection string malformed"
  | inl _ => Fail "Connection string malformed"
  end.

(** The messages handed to [sender.sendMessages], in call order. *)
Fixpoint sentMessages (h : History) : list JsValue :=
  match h with
  | [] => []
  | SendMessages m :: rest => m :: sentMessages rest
  | _ :: rest => sentMessages rest
  end.

(** The session states written with [setSessionState], in call order. *)
Fixpoint statesWritten (h : History) : list JsValue :=
  match h with
  | [] => []
  | SetSessionState _ v :: rest => v :: statesWritten rest
  | _ :: rest => statesWritten rest
  end.

(** The receivers the SDK has created so far are numbered from 0. *)
Definition created (st : St Trigger.Closure) (n : nat) : Prop := (n < nextRid st)%nat.

(** A created receiver is accounted for when it is in the [receivers]
    array, in the registry, or [close] has been called on it. *)
Definition accountedFor (st : St Trigger.Closure) (n : nat) : Prop :=
  In n (map rid (Trigger.receivers (local st)))
  \/ In n (map rid (JsMap.values (Trigger.activeReceivers (local st))))
  \/ In n (map rid (closedReceivers (trace st))).

(** A computation makes only calls of a given kind: whatever the state, it
    extends the trace, and every call it adds satisfies [P]. *)
Definition Emits {L A} (P : Call -> Prop) (m : M L A) : Prop :=
  forall st, exists calls,
    trace (snd (m st)) = (trace st ++ calls)%list /\ Forall P calls.

(** The last valid value given for a property key in the node's
    [messageProperties] list. *)
Fixpoint lastValue (k : string) (props : list (string * string)) : option string :=
  match props with
  | [] => None
  | (k', v) :: rest =>
      match lastValue k rest with
      | Some later => Some later
      | None =>
          if (k =? k')%string && negb (k' =? "")%string && negb (v =? "")%string
          then Some v else None
      end
  end.

(** The state of [execute] after some more calls and some more records. *)
Definition withRecords (st : St (list JsValue)) (calls : History) (records : list JsValue)
  : St (list JsValue) :=
  {| trace := (trace st ++ calls)%list;
     nextRid := nextRid st;
     local := (local st ++ records)%list |}.

(** No receiver is lost: every receiver created so far is accounted for. *)
Definition NoneLost (st : St Trigger.Closure) : Prop :=
  forall n, created st n -> accountedFor st n.

(* ================================================================== *)
(** * The HTTP request of [sendMessageViaHTTP] *)
(* ================================================================== *)

Module Http.

(** What [sendMessageViaHTTP] and [createSasToken] take from the platform,
    left open: [JSON.stringify], [String(v)], and the token [createSasToken]
    derives from the clock, the URI, the key name and the key with
    [encodeURIComponent] and an HMAC.  The one law is that [String] leaves a
    string as it is. *)
Class HttpRuntime : Type := {
  JSON_stringify : JsValue -> string;
  String_of : JsValue -> string;
  createSasToken : Z -> string -> string -> string -> string;
  String_of_string : forall s, String_of (JStr s) = s
}.

(** A [Record<string, string>] of headers: the last assignment to a key
    wins. *)
Definition Headers : Type := list (string * string).

Definition header (k : string) (headers : Headers) : option string := Conn.lookup k headers.

(** [Object.entries] of the [applicationProperties] record. *)
Definition entries (v : JsValue) : list (string * JsValue) :=
  match v with
  | JObj fields => fields
  | _ => []
  end.

Section Http.
Context {hr : HttpRuntime}.

(** The URL, line 100. *)
Definition requestUrl (d : Conn.ConnectionDetails) (queueName : string) : string :=
  "https://" ++ Conn.hostname d ++ "/" ++ queueName ++ "/messages?timeout=60".

(** The body sent, line 109. *)
Definition requestBody (message : JsValue) : string :=
  match get_prop message "body" with
  | JStr s => s
  | body => JSON_stringify body
  end.

(** The headers before the application properties are copied in, lines
    103-127. *)
Definition baseHeaders (time : Z) (d : Conn.ConnectionDetails) (queueName : string)
           (message : JsValue) : Headers :=
  let sasToken :=
    createSasToken time ("https://" ++ Conn.hostname d ++ "/" ++ queueName)
                   (Conn.username d) (Conn.password d) in
  let contentType := get_prop message "contentType" in
  let headers :=
    [ ("Authorization", sasToken);
      ("Content-Type",
         if truthy contentType then String_of contentType
         else "application/atom+xml;type=entry;charset=utf-8") ] in
  let brokerProperties := [] in
  let brokerProperties :=
    if truthy (get_prop message "messageId")
    then setField "MessageId" (JStr (String_of (get_prop message "messageId")))
                  brokerProperties
    else brokerProperties in
  let brokerProperties :=
    if truthy (get_prop message "sessionId")
    then setField "SessionId" (get_prop message "sessionId") brokerProperties
    else brokerProperties in
  if (0 <? List.length brokerProperties)%nat
  then Conn.assign "BrokerProperties" (JSON_stringify (JObj brokerProperties)) headers
  else headers.

(** The headers of the request, lines 103-133: each application property
    is assigned as a header of its own name. *)
Definition requestHeaders (time : Z) (d : Conn.ConnectionDetails) (queueName : string)
           (message : JsValue) : Headers :=
  let headers := baseHeaders time d queueName message in
  let applicationProperties := get_prop message "applicationProperties" in
  if truthy applicationProperties then
    fold_left (fun headers (entry : string * JsValue) =>
                 Conn.assign (fst entry) (String_of (snd entry)) headers)
              (entries applicationProperties) headers
  else headers.

End Http.

(** A platform for the examples: [String] of the primitives a property can
    hold, a fixed token, and objects printed as [String] prints them. *)
Definition exampleRuntime : HttpRuntime := {|
  JSON_stringify := fun _ => "{}";
  String_of := fun v =>
    match v with
    | JStr s => s
    | JBool true => "true"
    | JBool false => "false"
    | JNum n => Z_toString n
    | JUndefined => "undefined"
    | JNull => "null"
    | _ => "[object Object]"
    end;
  createSasToken := fun _ _ _ _ => "SharedAccessSignature";
  String_of_string := fun s => eq_refl
|}.

End Http.

(* ================================================================== *)
(** * What the broker answered, read off a run *)
(* ================================================================== *)



Section BatchPasses.
Context {rt : NodeRuntime} (env : Env) (cfg : Node.Config).
Variables (receiver : Receiver) (isSessionReceiver : bool)
          (currentSessionId : option string) (currentSessionState : JsValue).

(** The trace before pass [i] of a receive loop that began at trace [h]. *)
Definition beforePass (h : History) (messages : list Message) (i : nat) : History :=
  (h ++ flat_map (passCalls cfg receiver isSessionReceiver currentSessionId
                            currentSessionState)
                 (firstn i messages))%list.

(** A pass of the receive loop that begins at trace [h] goes through: the
    body normalizes and, under peek-lock, the broker answers the
    completion. *)
Definition passGoesThrough (h : History) (m : Message) : Prop :=
  (exists b, normalizeBody (body m) = Ok b)
  /\ ((Node.receiveMode cfg =? "peekLock")%string = true ->
      completeMessage_reply env
        (h ++ [Push (batchRecord isSessionReceiver currentSessionId
                                 currentSessionState m)])%list
        receiver m = Done tt).

End BatchPasses.

(** The call that opens the receiver of the one-shot receive, lines
    679-721: a session is accepted with the lock renewal time and nothing
    else; only the plain receiver is created with the receive mode. *)
Definition openingCall (cfg : Node.Config) : Call :=
  if (Node.sessionMode cfg =? "specific")%string then
    AcceptSession (QueueEntity (Node.queueName cfg)) (Node.receiveSessionId cfg)
                  (Node.sessionTimeout cfg * 1000)
  else if (Node.sessionMode cfg =? "next")%string then
    AcceptNextSession (QueueEntity (Node.queueName cfg)) (Node.sessionTimeout cfg * 1000)
  else CreateReceiver (QueueEntity (Node.queueName cfg)) (Some (Node.receiveMode cfg)).

(** The session receivers that are open: created, not in the [receivers]
    array, and [close] never called on them. *)
Definition openSessionReceivers (st : St Trigger.Closure) : list nat :=
  filter (fun n =>
            negb (existsb (Nat.eqb n) (map rid (Trigger.receivers (local st))))
            && negb (existsb (Nat.eqb n) (map rid (closedReceivers (trace st)))))
         (seq 0 (nextRid st)).

Open Scope list_scope.

(* ================================================================== *)
(** * The model of the Node built-ins obeys the grammar law *)
(* ================================================================== *)

Module NodeModelFacts.
Import NodeModel.

Lemma trimEnd_head (t : string) (c : ascii) (x : string) :
  trimEnd t = String c x -> exists y, t = String c y.
Proof.
  destruct t as [|d rest]; simpl; [discriminate|].
  destruct (trimEnd rest); [destruct (isWhiteSpace d)|]; intros H;
    try discriminate; inversion H; subst; eauto.
Qed.

Lemma prefix_brace (t : string) :
  startsWith t "{" = true -> exists y, t = String "{"%char y.
Proof.
  unfold startsWith. destruct t as [|c rest]; [discriminate|].
  cbn [String.prefix].
  destruct (ascii_dec "{"%char c) as [<-|]; [eauto|discriminate].
Qed.

Lemma jsonWs_isWhiteSpace (c : ascii) : isJsonWs c = true -> isWhiteSpace c = true.
Proof.
  destruct c as [[] [] [] [] [] [] [] []]; vm_compute; congruence.
Qed.

(** A white-space character starts no JSON value. *)
Lemma whiteSpace_no_value (c : ascii) (r : string) (fuel : nat) :
  isWhiteSpace c = true -> parseValue fuel (String c r) = None.
Proof.
  intros H. destruct fuel as [|fuel]; [reflexivity|].
  destruct c as [[] [] [] [] [] [] [] []]; vm_compute in H; try discriminate H; reflexivity.
Qed.

Lemma skipWs_trimStart (s : string) (r : string) :
  trimStart s = String "{"%char r ->
  skipWs s = String "{"%char r
  \/ exists c r', skipWs s = String c r' /\ isWhiteSpace c = true.
Proof.
  induction s as [|c rest IH]; simpl; [discriminate|].
  destruct (isJsonWs c) eqn:Hj.
  - rewrite (jsonWs_isWhiteSpace _ Hj). exact IH.
  - destruct (isWhiteSpace c) eqn:Hw.
    + intros _. right. eauto.
    + intros H. now left.
Qed.

Lemma parseMembers_object (fuel : nat) :
  forall acc s v rest,
    parseMembers fuel acc s = Some (v, rest) -> exists fields, v = JObj fields.
Proof.
  induction fuel as [|fuel IH]; intros acc s v rest; simpl; [discriminate|].
  destruct s as [|c r]; [discriminate|].
  destruct (c =? dquote)%char; [|discriminate].
  destruct (parseString r) as [[key r1]|]; [|discriminate].
  destruct (skipWs r1) as [|colon r2]; [discriminate|].
  destruct (colon =? ":")%char; [|discriminate].
  destruct (parseValue fuel (skipWs r2)) as [[v' r3]|]; [|discriminate].
  destruct (skipWs r3) as [|d r4]; [discriminate|].
  destruct (d =? ",")%char; [apply IH|].
  destruct (d =? "}")%char; [|discriminate].
  intros H; inversion H; eauto.
Qed.

Lemma parseValue_brace (fuel : nat) (r : string) (v : JsValue) (rest : string) :
  parseValue fuel (String "{"%char r) = Some (v, rest) -> exists fields, v = JObj fields.
Proof.
  destruct fuel as [|fuel]; simpl; [discriminate|].
  destruct (skipWs r) as [|d r'] eqn:E; [discriminate|].
  destruct (d =? "}")%char.
  - intros H; inversion H; eauto.
  - apply parseMembers_object.
Qed.

Lemma JSON_parse_model_brace (s : string) (v : JsValue) :
  startsWith (trim s) "{" = true -> JSON_parse_model s = Some v ->
  exists fields, v = JObj fields.
Proof.
  intros Hp Hv. unfold trim in Hp.
  destruct (prefix_brace _ Hp) as [y Hy].
  destruct (trimEnd_head _ Hy) as [z Hz].
  unfold JSON_parse_model in Hv.
  destruct (skipWs_trimStart _ Hz) as [E | (c & r' & E & Hc)]; rewrite E in Hv.
  - destruct (parseValue _ _) as [[v' rest]|] eqn:Ev; [|discriminate].
    destruct (skipWs rest); [|discriminate].
    inversion Hv; subst. eapply parseValue_brace; eauto.
  - rewrite whiteSpace_no_value in Hv by exact Hc. discriminate.
Qed.

End NodeModelFacts.

(** The executable runtime. *)
Definition nodeModel : NodeRuntime := {|
  JSON_parse := NodeModel.JSON_parse_model;
  Buffer_from := NodeModel.Buffer_from_model;
  Buffer_toString_utf8 := NodeModel.utf8_decode;
  JSON_parse_brace := NodeModelFacts.JSON_parse_model_brace
|}.

(* ================================================================== *)
(** * Properties of the send path *)
(* ================================================================== *)

Lemma skipn_length_app {A} (l1 l2 : list A) : skipn (List.length l1) (l1 ++ l2)%list = l2.
Proof. induction l1; simpl; auto. Qed.




(* ================================================================== *)
(** * Properties of the normalizer *)
(* ================================================================== *)

Section NormalizerFacts.
Context {rt : NodeRuntime}.

Lemma decodeBinary_plain (v : JsValue) :
  isBufferWrapper v = false -> isBuffer v = false -> decodeBinary v = Ok v.
Proof.
  unfold decodeBinary, isBufferWrapper. intros -> ->. reflexivity.
Qed.

Lemma wrapper_not_buffer (v : JsValue) : isBufferWrapper v = true -> isBuffer v = false.
Proof. destruct v; simpl; auto; discriminate. Qed.

Lemma string_not_wrapper (s : string) : isBufferWrapper (JStr s) = false.
Proof. unfold isBufferWrapper. simpl. now rewrite andb_false_r. Qed.

(** A string body: only the second statement applies. *)
Lemma normalizeBody_string (s : string) :
  normalizeBody (JStr s) = Ok (parseJsonText (JStr s)).
Proof.
  unfold normalizeBody. now rewrite decodeBinary_plain by auto using string_not_wrapper.
Qed.

(** What the second statement leaves is stable under it: a string is kept
    only if it does not look like JSON or does not parse, and a parsed text
    that starts with a brace is an object. *)
Lemma parseJsonText_stable (v : JsValue) :
  parseJsonText (parseJsonText v) = parseJsonText v.
Proof.
  destruct v; try reflexivity. simpl.
  destruct (startsWith (trim s) "{") eqn:Hb.
  - destruct (JSON_parse s) as [parsed|] eqn:Hp.
    + destruct (JSON_parse_brace _ Hb Hp) as [fields ->]. reflexivity.
    + simpl. now rewrite Hb, Hp.
  - simpl. now rewrite Hb.
Qed.

Lemma parseJsonText_not_buffer (v : JsValue) :
  isBuffer v = false -> isBuffer (parseJsonText v) = false.
Proof.
  destruct v; simpl; auto. intros _.
  destruct (startsWith (trim s) "{") eqn:Hb; auto.
  destruct (JSON_parse s) as [parsed|] eqn:Hp; auto.
  destruct (JSON_parse_brace _ Hb Hp) as [fields ->]. reflexivity.
Qed.

Lemma normalizeBody_fixed (x v : JsValue) :
  normalizeBody x = Ok v -> isBufferWrapper v = false -> normalizeBody v = Ok v.
Proof.
  unfold normalizeBody. intros Hx Hw.
  destruct (decodeBinary x) as [y|e] eqn:Hd; [|discriminate].
  inversion Hx as [Hv]. clear Hx.
  assert (Hy : isBuffer y = false).
  { unfold decodeBinary in Hd.
    destruct (truthy x && (typeof x =? "object")%string
              && is_string_lit (get_prop x "type") "Buffer").
    - destruct (Buffer_from (get_prop x "data")); inversion Hd; reflexivity.
    - destruct x; simpl in Hd; inversion Hd; reflexivity. }
  subst v. rewrite decodeBinary_plain.
  - now rewrite parseJsonText_stable.
  - exact Hw.
  - now apply parseJsonText_not_buffer.
Qed.

End NormalizerFacts.

(** C2, as the code has it.  A binary buffer, and a Buffer-shaped object
    whose [data] [Buffer.from] accepts, are decoded as UTF-8 and the decoded
    text is then normalized as a string body; a string whose trimmed form
    starts with a brace becomes the [JSON.parse] result when it parses and
    stays the same string when it does not, without raising; any other string
    and any other value that is neither a buffer nor Buffer-shaped is passed
    through unchanged. *)
Theorem normalizeBody_cases {rt : NodeRuntime} (body : JsValue) :
  match body with
  | JBuffer bytes =>
      normalizeBody body = normalizeBody (JStr (Buffer_toString_utf8 bytes))
  | JStr s =>
      normalizeBody body =
        Ok (if startsWith (trim s) "{"
            then match JSON_parse s with Some parsed => parsed | None => JStr s end
            else JStr s)
  | _ =>
      if isBufferWrapper body then
        match Buffer_from (get_prop body "data") with
        | Some bytes =>
            normalizeBody body = normalizeBody (JStr (Buffer_toString_utf8 bytes))
        | None => True
        end
      else normalizeBody body = Ok body
  end.
Proof.
  assert (Hplain : forall v, isBufferWrapper v = false -> isBuffer v = false ->
                             normalizeBody v = Ok (parseJsonText v)).
  { intros v Hw Hb. unfold normalizeBody. now rewrite decodeBinary_plain. }
  assert (Hwrap : forall v, isBufferWrapper v = true ->
            match Buffer_from (get_prop v "data") with
            | Some bytes =>
                normalizeBody v = normalizeBody (JStr (Buffer_toString_utf8 bytes))
            | None => True
            end).
  { intros v Hw. unfold isBufferWrapper in Hw.
    destruct (Buffer_from (get_prop v "data")) as [bytes|] eqn:Hf.
    - rewrite normalizeBody_string. unfold normalizeBody, decodeBinary.
      now rewrite Hw, Hf.
    - exact I. }
  destruct body;
    try (destruct (isBufferWrapper _) eqn:Hw;
         [now apply Hwrap | now rewrite Hplain]).
  - rewrite normalizeBody_string. reflexivity.
  - now rewrite normalizeBody_string.
Qed.

(** C2 as stated fails: the buffer holding the text [{"a":1}] is normalized
    to the parsed object, not to its UTF-8 decoded string; and the
    Buffer-shaped object without a [data] property makes [Buffer.from] throw,
    so the normalizer raises. *)
Lemma normalizeBody_buffer_not_string :
  let bytes := list_byte_of_string Samples.jsonA in
  NodeModel.utf8_decode bytes = Samples.jsonA
  /\ normalizeBody (rt := nodeModel) (JBuffer bytes)
     = Ok (JObj [("a", JNum 1)])
  /\ normalizeBody (rt := nodeModel) (JBuffer bytes)
     <> Ok (JStr (NodeModel.utf8_decode bytes))
  /\ exists e,
       normalizeBody (rt := nodeModel) (JObj [("type", JStr "Buffer")]) = Throw e.
Proof.
  split; [reflexivity | split; [reflexivity | split]].
  - vm_compute. discriminate.
  - eexists. reflexivity.
Qed.

(** C9, as the code has it.  Normalization is a function of the body alone,
    and a normalized value that is not a Buffer-shaped object is a fixed
    point: normalizing it again returns it.  In particular a parsed JSON
    object without [type: 'Buffer'] is left as it is. *)
Theorem normalizeBody_idempotent {rt : NodeRuntime} (x v : JsValue) :
  normalizeBody x = Ok v ->
  isBufferWrapper v = false ->
  normalizeBody v = Ok v.
Proof. apply normalizeBody_fixed. Qed.

Lemma normalizeBody_idempotent_witness :
  normalizeBody (rt := nodeModel) (JStr Samples.jsonA)
    = Ok (JObj [("a", JNum 1)])
  /\ normalizeBody (rt := nodeModel) (JObj [("a", JNum 1)])
    = Ok (JObj [("a", JNum 1)]).
Proof.
  split; [reflexivity|].
  apply (normalizeBody_idempotent (rt := nodeModel) (JStr Samples.jsonA));
    reflexivity.
Defined.

(** C9 as stated fails: the text [{"type":"Buffer","data":[123,125]}] parses
    to a Buffer-shaped object, and normalizing that object again decodes its
    two bytes to the text of an empty object and parses it. *)
Lemma normalizeBody_not_idempotent :
  exists v w,
    normalizeBody (rt := nodeModel) (JStr Samples.jsonWrapper) = Ok v
    /\ normalizeBody (rt := nodeModel) v = Ok w
    /\ w = JObj []
    /\ v <> w.
Proof.
  exists (JObj [("type", JStr "Buffer"); ("data", JArr [JNum 123; JNum 125])]), (JObj []).
  repeat split; try reflexivity. discriminate.
Qed.

(* ================================================================== *)
(** * The session registry *)
(* ================================================================== *)

Section MapFacts.
Variable V : Type.
Implicit Types (m : JsMap.t V) (k : string) (v : V).

Lemma get_set_same k v m : JsMap.get k (JsMap.set k v m) = Some v.
Proof.
  induction m as [|[k' v'] m IH]; simpl.
  - now rewrite String.eqb_refl.
  - destruct (k =? k')%string eqn:E; simpl; rewrite ?E, ?String.eqb_refl; auto.
Qed.

Lemma in_set k v m k0 v0 :
  In (k0, v0) (JsMap.set k v m) -> (k0 = k /\ v0 = v) \/ In (k0, v0) m.
Proof.
  induction m as [|[k' v'] m IH]; simpl.
  - intros [H|[]]. inversion H; auto.
  - destruct (k =? k')%string; simpl; intros [H|H]; auto.
    + inversion H; auto.
    + destruct (IH H); auto.
Qed.

Lemma keys_set_in k v m k0 :
  In k0 (JsMap.keys (JsMap.set k v m)) -> k0 = k \/ In k0 (JsMap.keys m).
Proof.
  unfold JsMap.keys. induction m as [|[k' v'] m IH]; simpl.
  - intros [H|[]]; auto.
  - destruct (k =? k')%string eqn:E; simpl; intros [H|H]; auto.
    destruct (IH H); auto.
Qed.

Lemma NoDup_keys_set k v m :
  NoDup (JsMap.keys m) -> NoDup (JsMap.keys (JsMap.set k v m)).
Proof.
  unfold JsMap.keys. induction m as [|[k' v'] m IH]; simpl; intros H.
  - constructor; [intros []|constructor].
  - inversion H as [|? ? Hn Hd]; subst.
    destruct (k =? k')%string eqn:E; simpl.
    + apply String.eqb_eq in E. subst. now constructor.
    + constructor; auto. intros Hin.
      destruct (keys_set_in _ _ _ _ Hin) as [->|]; auto.
      now rewrite String.eqb_refl in E.
Qed.

Lemma in_delete k m k0 v0 : In (k0, v0) (JsMap.delete k m) -> In (k0, v0) m.
Proof.
  induction m as [|[k' v'] m IH]; simpl; auto.
  destruct (k =? k')%string; simpl; intros H; auto. destruct H; auto.
Qed.

Lemma NoDup_keys_delete k m :
  NoDup (JsMap.keys m) -> NoDup (JsMap.keys (JsMap.delete k m)).
Proof.
  unfold JsMap.keys. induction m as [|[k' v'] m IH]; simpl; intros H; auto.
  inversion H as [|? ? Hn Hd]; subst.
  destruct (k =? k')%string; simpl; auto.
  constructor; auto. intros Hin. apply Hn.
  apply in_map_iff in Hin. destruct Hin as [[k1 v1] [Hk Hin]]. simpl in Hk. subst.
  apply in_map_iff. exists (k', v1). split; auto. now apply in_delete in Hin.
Qed.

End MapFacts.

(* ================================================================== *)
(** * Properties of the session negotiator and of the error path *)
(* ================================================================== *)

(** C3.  In 'specific' mode, a receiver the registry holds for the session
    id is returned as it is, with no call made; and once
    [getOrCreateSessionReceiver] has returned a receiver, the next call
    returns the same receiver object and leaves the state as it is: the trace
    gets no new call, so the broker is not asked again. *)
Theorem acceptSpecific_reuses_receiver
    (env : Env) (cfg : Trigger.Config) (st : St Trigger.Closure) :
  Trigger.sessionMode cfg = "specific" ->
  (forall r0,
     JsMap.get (Trigger.specificSessionId cfg) (Trigger.activeReceivers (local st)) = Some r0 ->
     Trigger.getOrCreateSessionReceiver env cfg st = (Ok r0, st))
  /\ (forall r st1,
        Trigger.getOrCreateSessionReceiver env cfg st = (Ok r, st1) ->
        Trigger.getOrCreateSessionReceiver env cfg st1 = (Ok r, st1)).
Proof.
  intros Hmode. unfold Trigger.getOrCreateSessionReceiver, Trigger.managerInitialized.
  rewrite Hmode. simpl. unfold_trigger. split.
  - intros r0 Hget. now rewrite Hget.
  - intros r st1.
    destruct (JsMap.get (Trigger.specificSessionId cfg)
                        (Trigger.activeReceivers (local st))) as [r0|] eqn:Hget.
    + intros H. inversion H; subst. now rewrite Hget.
    + simpl. destruct (acceptSession_reply env (trace st) _ _); simpl; [|discriminate].
      intros H. inversion H; subst. simpl. now rewrite get_set_same.
Qed.

Lemma acceptSpecific_reuses_receiver_witness :
  let cfg := Samples.triggerCfg "specific" false in
  let first := Trigger.getOrCreateSessionReceiver Samples.happy cfg Trigger.initial in
  fst first = Ok (Samples.sessionReceiver 0 "S1")
  /\ acceptances (trace (snd first)) = [Some "S1"]
  /\ Trigger.getOrCreateSessionReceiver Samples.happy cfg (snd first)
     = (Ok (Samples.sessionReceiver 0 "S1"), snd first).
Proof.
  split; [reflexivity | split; [reflexivity |]].
  apply (proj2 (@acceptSpecific_reuses_receiver Samples.happy
                  (Samples.triggerCfg "specific" false) Trigger.initial eq_refl)).
  reflexivity.
Defined.

Lemma withCalls_nil (st : St Trigger.Closure) :
  withCalls st [] (Trigger.activeReceivers (local st)) = st.
Proof.
  destruct st as [h n [rs act]]. unfold withCalls. simpl. now rewrite app_nil_r.
Qed.

Lemma withCalls_withCalls (st : St Trigger.Closure) c1 a1 c2 a2 :
  withCalls (withCalls st c1 a1) c2 a2 = withCalls st (c1 ++ c2)%list a2.
Proof. unfold withCalls. simpl. now rewrite app_assoc. Qed.

(** The best-effort loop closes every entry in map order and never raises,
    whatever the broker answers. *)
Lemma closeEach_all (env : Env) (cfg : Trigger.Config) (entries : JsMap.t Receiver) :
  forall st : St Trigger.Closure,
    Trigger.closeEach env entries st
    = (Ok tt, withCalls st (map CloseReceiver (JsMap.values entries))
                        (Trigger.activeReceivers (local st))).
Proof.
  unfold Trigger.closeEach.
  induction entries as [|[sid r] rest IH]; intros st; simpl.
  - unfold ret. now rewrite withCalls_nil.
  - unfold bind at 1. unfold try_catch at 1. unfold closeReceiver, call.
    assert (Hstep : forall res : Result unit,
      (let (r0, st') := (res,
          {| trace := (trace st ++ [CloseReceiver r])%list; nextRid := nextRid st;
             local := local st |}) in
       match r0 with
       | Ok a => (Ok a, st')
       | Throw e => ret tt st'
       end)
      = (Ok tt, withCalls st [CloseReceiver r] (Trigger.activeReceivers (local st)))).
    { intros [[]|e]; unfold ret, withCalls; simpl; destruct st as [h n [rs act]]; reflexivity. }
    simpl in Hstep. simpl. rewrite Hstep. rewrite IH.
    now rewrite withCalls_withCalls.
Qed.

Lemma closedReceivers_closes (rs : list Receiver) :
  closedReceivers (map CloseReceiver rs) = rs.
Proof. induction rs as [|r rs IH]; simpl; [reflexivity | now rewrite IH]. Qed.

(** What [processError] returns and leaves, for every broker. *)
Lemma processError_run (env : Env) (cfg : Trigger.Config) (st : St Trigger.Closure) :
  Trigger.processError env cfg st
  = (Ok tt,
     if negb (Trigger.sessionMode cfg =? "none")%string
     then withCalls st
            (map CloseReceiver (JsMap.values (Trigger.activeReceivers (local st)))) []
     else st).
Proof.
  unfold Trigger.processError, Trigger.managerInitialized.
  destruct (Trigger.sessionMode cfg =? "none")%string; simpl; [reflexivity|].
  unfold Trigger.getActive, Trigger.setActive. unfold_monad.
  rewrite (closeEach_all env cfg). reflexivity.
Qed.


(* ================================================================== *)
(** * Properties of the shutdown *)
(* ================================================================== *)

Lemma closeReceiver_run (env : Env) (r : Receiver) (st : St Trigger.Closure) :
  closeReceiver env r st
  = (match closeReceiver_reply env (trace st) r with
     | Done a => Ok a
     | Fail msg => Throw (SdkError msg)
     end,
     withCalls st [CloseReceiver r] (Trigger.activeReceivers (local st))).
Proof. destruct st as [h n [rs act]]. reflexivity. Qed.

(** The loop over the plain receivers stops at the first [close] that
    throws: it has then closed a non-empty prefix of them. *)
Lemma closePlain_prefix (env : Env) (rs : list Receiver) :
  forall st : St Trigger.Closure,
  exists k,
    (k <= List.length rs)%nat
    /\ snd (forEach (closeReceiver env) rs st)
       = withCalls st (map CloseReceiver (firstn k rs)) (Trigger.activeReceivers (local st))
    /\ ((fst (forEach (closeReceiver env) rs st) = Ok tt /\ k = List.length rs)
        \/ (exists e, fst (forEach (closeReceiver env) rs st) = Throw e) /\ (1 <= k)%nat).
Proof.
  induction rs as [|r rest IH]; intros st.
  - exists 0%nat. simpl. unfold ret. simpl. rewrite withCalls_nil. auto.
  - simpl. unfold bind. rewrite closeReceiver_run.
    destruct (closeReceiver_reply env (trace st) r) as [[]|msg].
    + destruct (IH (withCalls st [CloseReceiver r] (Trigger.activeReceivers (local st))))
        as (k & Hk & Hst & Hres).
      exists (S k). simpl. rewrite Hst, withCalls_withCalls. simpl.
      split; [lia|]. split; [reflexivity|].
      destruct Hres as [[Hok ->]|[He Hk1]]; [left; auto | right; split; [auto | lia]].
    + exists 1%nat. simpl. split; [lia|]. split; [reflexivity|].
      right. split; [eauto | lia].
Qed.

(** One invocation of [closeFunction]: it never raises; it closes a prefix
    of the plain receivers, and, unless one of them threw, every registered
    session receiver and then the connection, clearing the registry. *)
Lemma closeFunction_once (env : Env) (cfg : Trigger.Config) (st : St Trigger.Closure) :
  let managed := Trigger.managerInitialized cfg in
  let plain := Trigger.receivers (local st) in
  let active := Trigger.activeReceivers (local st) in
  exists (k : nat) (reached : bool),
    Trigger.closeFunction env cfg st
    = (Ok tt,
       withCalls st
         (shutdownCalls (firstn k plain)
            (if reached && managed then JsMap.values active else []) reached)
         (if reached && managed then [] else active))
    /\ (k <= List.length plain)%nat
    /\ (if reached then k = List.length plain else (1 <= k)%nat).
Proof.
  intros managed plain active.
  destruct (closePlain_prefix env plain st) as (k & Hk & Hst & Hres).
  unfold Trigger.closeFunction. unfold try_catch. unfold bind at 1.
  unfold getLocal at 1. cbn beta iota. unfold bind at 1.
  fold plain.
  destruct (forEach (closeReceiver env) plain st) as [res st1] eqn:Hrun.
  simpl in Hst, Hres. subst st1.
  destruct Hres as [[-> ->]|[[e ->] Hk1]].
  - exists (List.length plain), true. rewrite firstn_all. simpl.
    split; [|split; [lia | reflexivity]].
    fold managed. unfold bind at 1.
    destruct managed.
    + unfold Trigger.getActive, Trigger.setActive. unfold_monad. cbn beta iota.
      rewrite (closeEach_all env cfg). cbn [fst snd local Trigger.activeReceivers withCalls].
      unfold closeClient, call. cbn. fold active.
      unfold withCalls, shutdownCalls, JsMap.clear. cbn. rewrite <- !app_assoc.
      destruct (closeClient_reply env _) as [[]|msg]; reflexivity.
    + unfold ret at 1. unfold closeClient, call. cbn. fold active.
      unfold withCalls, shutdownCalls. cbn. rewrite <- !app_assoc.
      destruct (closeClient_reply env _) as [[]|msg]; reflexivity.
  - exists k, false. simpl. unfold shutdownCalls. simpl. rewrite app_nil_r.
    split; [reflexivity | split; [lia | exact Hk1]].
Qed.





(* ================================================================== *)
(** * The registry invariant *)
(* ================================================================== *)

Lemma closedReceivers_app (h1 h2 : History) :
  closedReceivers (h1 ++ h2) = (closedReceivers h1 ++ closedReceivers h2)%list.
Proof.
  induction h1 as [|c h1 IH]; simpl; auto. destruct c; simpl; auto. now rewrite IH.
Qed.

Section PreservesFacts.
Context {A B : Type}.

Lemma preserves_ret (a : A) : Preserves (ret a).
Proof. intros st H. exact H. Qed.

Lemma preserves_throw (e : Exn) : Preserves (@throw _ A e).
Proof. intros st H. exact H. Qed.

Lemma preserves_liftResult (r : Result A) : Preserves (liftResult r).
Proof. intros st H. exact H. Qed.

Lemma preserves_bind (m : M Trigger.Closure A) (k : A -> M Trigger.Closure B) :
  Preserves m -> (forall a, Preserves (k a)) -> Preserves (bind m k).
Proof.
  intros Hm Hk st H. unfold bind. specialize (Hm st H).
  destruct (m st) as [[a|e] st']; simpl in *; [now apply Hk | exact Hm].
Qed.

Lemma preserves_try_catch (m : M Trigger.Closure A) (h : Exn -> M Trigger.Closure A) :
  Preserves m -> (forall e, Preserves (h e)) -> Preserves (try_catch m h).
Proof.
  intros Hm Hh st H. unfold try_catch. specialize (Hm st H).
  destruct (m st) as [[a|e] st']; simpl in *; [exact Hm | now apply Hh].
Qed.

(** A call other than [close] touches nothing the invariant speaks of. *)
Lemma preserves_call (c : Call) (reply : History -> Reply A) :
  isClose c = false -> Preserves (call c reply).
Proof.
  intros Hc st [H1 H2 H3 H4 H5 H6]. unfold call. simpl.
  assert (Hsame : closedReceivers (trace st ++ [c]) = closedReceivers (trace st)).
  { rewrite closedReceivers_app. destruct c; simpl; try discriminate Hc;
      now rewrite app_nil_r. }
  constructor; simpl; auto; rewrite Hsame; auto.
Qed.

End PreservesFacts.

Lemma preserves_forEach {A} (f : A -> M Trigger.Closure unit) (xs : list A) :
  (forall x, Preserves (f x)) -> Preserves (forEach f xs).
Proof.
  intros Hf. induction xs as [|x xs IH]; simpl.
  - apply preserves_ret.
  - apply preserves_bind; auto.
Qed.

Lemma preserves_getLocal : Preserves (@getLocal Trigger.Closure).
Proof. intros st H. exact H. Qed.

Section InvariantSteps.
Context {rt : NodeRuntime} (env : Env) (cfg : Trigger.Config).

(** Registering a newly created receiver keeps the invariant. *)
Lemma registryOk_register (st : St Trigger.Closure) (k : string) (sid : option string) :
  RegistryOk st ->
  RegistryOk
    {| trace := trace st; nextRid := S (nextRid st);
       local := {| Trigger.receivers := Trigger.receivers (local st);
                   Trigger.activeReceivers :=
                     JsMap.set k {| rid := nextRid st; sessionId := sid |}
                               (Trigger.activeReceivers (local st)) |} |}.
Proof.
  intros [H1 H2 H3 H4 H5 H6]. constructor; simpl.
  - now apply NoDup_keys_set.
  - intros k0 r Hin. destruct (in_set _ _ _ _ _ Hin) as [[_ ->]|Hold]; simpl.
    + lia.
    + specialize (H2 _ _ Hold). lia.
  - intros p Hp. specialize (H3 _ Hp). lia.
  - intros c Hc. specialize (H4 _ Hc). lia.
  - intros k0 r p Hin Hp. destruct (in_set _ _ _ _ _ Hin) as [[_ ->]|Hold]; simpl.
    + specialize (H3 _ Hp). lia.
    + eauto.
  - intros k0 r c Hin Hc. destruct (in_set _ _ _ _ _ Hin) as [[_ ->]|Hold]; simpl.
    + specialize (H4 _ Hc). lia.
    + eauto.
Qed.

Lemma registryOk_call (st : St Trigger.Closure) (c : Call) :
  isClose c = false -> RegistryOk st ->
  RegistryOk {| trace := trace st ++ [c]; nextRid := nextRid st; local := local st |}.
Proof.
  intros Hc H. exact (@preserves_call unit c (fun _ => Done tt) Hc st H).
Qed.

Lemma preserves_getOrCreate : Preserves (Trigger.getOrCreateSessionReceiver env cfg).
Proof.
  intros st H. unfold Trigger.getOrCreateSessionReceiver.
  destruct (negb (Trigger.managerInitialized cfg)); [exact H|].
  destruct (Trigger.sessionMode cfg =? "specific")%string.
  - unfold_trigger. simpl.
    destruct (JsMap.get _ _); [exact H|]. simpl.
    destruct (acceptSession_reply env (trace st) _ _); simpl.
    + apply (registryOk_register
               (st := {| trace := trace st ++ [_]; nextRid := nextRid st;
                         local := local st |})).
      now apply registryOk_call.
    + now apply registryOk_call.
  - destruct (Trigger.sessionMode cfg =? "any")%string; [|exact H].
    unfold_trigger. simpl.
    destruct (acceptNextSession_reply env (trace st) _); simpl.
    + apply (registryOk_register
               (st := {| trace := trace st ++ [_]; nextRid := nextRid st;
                         local := local st |})).
      now apply registryOk_call.
    + now apply registryOk_call.
Qed.

Lemma preserves_createReceivers : Preserves (Trigger.createReceivers cfg).
Proof.
  intros st H. unfold Trigger.createReceivers.
  destruct (Trigger.sessionMode cfg =? "none")%string; [|exact H].
  unfold createReceiver, newReceiver. unfold_monad. simpl.
  pose proof (@registryOk_call st (CreateReceiver (Trigger.entity cfg) None) eq_refl H)
    as [H1 H2 H3 H4 H5 H6]. simpl in *.
  constructor; simpl; auto.
  - intros k r Hin. specialize (H2 _ _ Hin). lia.
  - intros p Hp. apply in_app_or in Hp. destruct Hp as [Hp|[<-|[]]]; simpl.
    + specialize (H3 _ Hp). lia.
    + lia.
  - intros c Hc. specialize (H4 _ Hc). lia.
  - intros k r p Hin Hp. apply in_app_or in Hp. destruct Hp as [Hp|[<-|[]]]; simpl.
    + eauto.
    + specialize (H2 _ _ Hin). lia.
Qed.

(** Closing a set of known receivers and emptying the registry. *)
Lemma registryOk_cleared (st : St Trigger.Closure) (closed : list Receiver) (tail : History) :
  RegistryOk st ->
  (forall c, In c closed -> (rid c < nextRid st)%nat) ->
  closedReceivers tail = [] ->
  RegistryOk (withCalls st (map CloseReceiver closed ++ tail) []).
Proof.
  intros [H1 H2 H3 H4 H5 H6] Hclosed Htail.
  constructor; simpl; auto; try (intros; contradiction); try constructor.
  intros c. rewrite !closedReceivers_app, closedReceivers_closes, Htail, app_nil_r.
  intros Hc. apply in_app_or in Hc. destruct Hc; auto.
Qed.

Lemma preserves_processError : Preserves (Trigger.processError env cfg).
Proof.
  intros st H. rewrite processError_run.
  destruct (negb (Trigger.sessionMode cfg =? "none")%string); simpl; [|exact H].
  rewrite <- (app_nil_r (map CloseReceiver _)).
  apply registryOk_cleared; auto.
  intros c Hc. unfold JsMap.values in Hc. apply in_map_iff in Hc.
  destruct Hc as [[k r] [<- Hin]]. simpl. eapply registered_known; eauto.
Qed.

Lemma preserves_evict (r : Receiver) :
  Preserves (active <- Trigger.getActive ;;
             match Trigger.keyOf r active with
             | Some sid => Trigger.setActive (JsMap.delete sid active)
             | None => ret tt
             end).
Proof.
  intros st H. unfold_trigger. simpl.
  destruct (Trigger.keyOf r _) as [sid|]; simpl; [|exact H].
  destruct H as [H1 H2 H3 H4 H5 H6]. constructor; simpl; auto.
  - now apply NoDup_keys_delete.
  - intros k r0 Hin. apply in_delete in Hin. eauto.
  - intros k r0 p Hin. apply in_delete in Hin. eauto.
  - intros k r0 c Hin. apply in_delete in Hin. eauto.
Qed.

Lemma preserves_sessionProcessError (r : Receiver) :
  Preserves (Trigger.sessionProcessError env cfg r).
Proof.
  unfold Trigger.sessionProcessError. apply preserves_bind.
  - apply preserves_processError.
  - intros _. apply preserves_evict.
Qed.

Lemma preserves_processMessage (m : Message) (r : Receiver) :
  Preserves (Trigger.processMessage env cfg m r).
Proof.
  unfold Trigger.processMessage.
  apply preserves_bind; [apply preserves_liftResult | intros messageBody].
  apply preserves_bind; [intros st H; exact H | intros receivedAt].
  apply preserves_bind; [|intros json; now apply preserves_call].
  destruct (sessionId r); [|apply preserves_ret].
  destruct (negb (Trigger.sessionMode cfg =? "none")%string); [|apply preserves_ret].
  apply preserves_try_catch; [|intros e; apply preserves_ret].
  apply preserves_bind; [now apply preserves_call | intros v; apply preserves_ret].
Qed.

Lemma preserves_sessionLoopBody : Preserves (Trigger.sessionLoopBody env cfg).
Proof.
  unfold Trigger.sessionLoopBody. apply preserves_try_catch.
  - apply preserves_bind; [apply preserves_getOrCreate | intros r].
    apply preserves_bind; [now apply preserves_call | intros _].
    destruct (Trigger.sessionMode cfg =? "specific")%string; [apply preserves_ret|].
    apply preserves_bind; [now apply preserves_call | intros _; apply preserves_ret].
  - intros e. apply preserves_bind; [now apply preserves_call | intros _; apply preserves_ret].
Qed.

Lemma preserves_start :
  Preserves (Trigger.createReceivers cfg ;; Trigger.subscribePlain env cfg).
Proof.
  apply preserves_bind; [apply preserves_createReceivers | intros _].
  unfold Trigger.subscribePlain.
  apply preserves_bind; [apply preserves_getLocal | intros cl].
  apply preserves_forEach. intros r. now apply preserves_call.
Qed.

Lemma closedReceivers_shutdownCalls (plain session : list Receiver) (connection : bool) :
  closedReceivers (shutdownCalls plain session connection) = plain ++ session.
Proof.
  unfold shutdownCalls. rewrite !closedReceivers_app, !closedReceivers_closes.
  destruct connection; simpl; now rewrite app_nil_r.
Qed.

Lemma in_firstn {A} (k : nat) (l : list A) (x : A) : In x (firstn k l) -> In x l.
Proof.
  revert l. induction k as [|k IH]; intros [|y l]; simpl; try tauto.
  intros [H|H]; auto.
Qed.

Lemma preserves_closeFunction : Preserves (Trigger.closeFunction env cfg).
Proof.
  intros st H.
  destruct (closeFunction_once env cfg st) as (k & reached & -> & _ & _).
  destruct H as [H1 H2 H3 H4 H5 H6]. simpl.
  assert (Hvals : forall c, In c (JsMap.values (Trigger.activeReceivers (local st))) ->
                            exists key, In (key, c) (Trigger.activeReceivers (local st))).
  { intros c Hc. unfold JsMap.values in Hc. apply in_map_iff in Hc.
    destruct Hc as [[key r] [<- Hin]]. eauto. }
  constructor; simpl;
    rewrite ?closedReceivers_app, ?closedReceivers_shutdownCalls; auto.
  - destruct (reached && Trigger.managerInitialized cfg); [constructor | auto].
  - intros key r Hin.
    destruct (reached && Trigger.managerInitialized cfg); [destruct Hin | eauto].
  - intros c Hc. apply in_app_or in Hc. destruct Hc as [Hc|Hc]; auto.
    apply in_app_or in Hc. destruct Hc as [Hc|Hc].
    + apply in_firstn in Hc. auto.
    + destruct (reached && Trigger.managerInitialized cfg); [|destruct Hc].
      destruct (Hvals _ Hc) as [key Hin]. eauto.
  - intros key r p Hin.
    destruct (reached && Trigger.managerInitialized cfg); [destruct Hin | eauto].
  - intros key r c Hin Hc.
    destruct (reached && Trigger.managerInitialized cfg); [destruct Hin|].
    rewrite app_nil_r in Hc. apply in_app_or in Hc. destruct Hc as [Hc|Hc]; eauto.
    apply in_firstn in Hc. eauto.
Qed.

Lemma perform_preserves (st : St Trigger.Closure) (op : Op) :
  RegistryOk st -> RegistryOk (perform env cfg st op).
Proof.
  intros H. destruct op; simpl.
  - now apply preserves_start.
  - now apply preserves_getOrCreate.
  - now apply preserves_sessionLoopBody.
  - now apply preserves_processMessage.
  - now apply preserves_processError.
  - now apply preserves_sessionProcessError.
  - now apply preserves_closeFunction.
Qed.

Lemma registryOk_initial : RegistryOk Trigger.initial.
Proof.
  constructor; simpl; try (intros; contradiction). constructor.
Qed.

Lemma runOps_ok (ops : list Op) : RegistryOk (runOps env cfg ops).
Proof.
  unfold runOps. generalize registryOk_initial. generalize Trigger.initial.
  induction ops as [|op ops IH]; simpl; intros st H; auto.
  apply IH. now apply perform_preserves.
Qed.

End InvariantSteps.

Lemma unique_key_one_entry {V} (m : JsMap.t V) (sid : string) :
  NoDup (JsMap.keys m) ->
  (List.length (filter (fun entry => (fst entry =? sid)%string) m) <= 1)%nat.
Proof.
  unfold JsMap.keys. induction m as [|[k v] m IH]; simpl; intros H; [lia|].
  inversion H as [|? ? Hn Hd]; subst.
  destruct (k =? sid)%string eqn:E; simpl; auto.
  apply String.eqb_eq in E. subst k.
  assert (Hnone : filter (fun entry => (fst entry =? sid)%string) m = []).
  { clear IH Hd H. induction m as [|[k' v'] m IH]; simpl in *; auto.
    destruct (k' =? sid)%string eqn:E'.
    - apply String.eqb_eq in E'. subst. exfalso. apply Hn. now left.
    - apply IH. intros Hin. apply Hn. now right. }
  rewrite Hnone. simpl. lia.
Qed.

(* ================================================================== *)
(** * The session loop *)
(* ================================================================== *)

Section SessionLoop.
Context {rt : NodeRuntime} (env : Env) (cfg : Trigger.Config).

(** In 'specific' mode, a refused acceptance is followed by a wait of five
    seconds and the loop goes on; the next pass asks for the same session
    id. *)
Lemma specific_refused_retries (st : St Trigger.Closure) (msg : string) :
  Trigger.sessionMode cfg = "specific" ->
  JsMap.get (Trigger.specificSessionId cfg) (Trigger.activeReceivers (local st)) = None ->
  acceptSession_reply env (trace st) (Trigger.entity cfg) (Trigger.specificSessionId cfg)
    = Fail msg ->
  Trigger.sessionLoopBody env cfg st
  = (Ok false,
     withCalls st
       [AcceptSession (Trigger.entity cfg) (Trigger.specificSessionId cfg)
                      (Trigger.sessionTimeout cfg * 1000);
        Sleep 5000]
       (Trigger.activeReceivers (local st))).
Proof.
  intros Hmode Hget Hreply.
  unfold Trigger.sessionLoopBody, Trigger.getOrCreateSessionReceiver,
    Trigger.managerInitialized.
  rewrite Hmode. simpl. unfold_trigger. simpl. rewrite Hget. simpl. rewrite Hreply.
  simpl. unfold withCalls. simpl. rewrite <- app_assoc. destruct st as [h n [rs act]].
  reflexivity.
Qed.

(** In 'any' mode no pass leaves the loop: it ends with a wait, of one
    second after a subscription and of five after an error, and goes on. *)
Lemma any_pass_continues (st : St Trigger.Closure) :
  Trigger.sessionMode cfg = "any" ->
  fst (Trigger.sessionLoopBody env cfg st) = Ok false
  /\ exists calls ms,
       trace (snd (Trigger.sessionLoopBody env cfg st)) = trace st ++ calls ++ [Sleep ms]
       /\ (ms = 1000 \/ ms = 5000).
Proof.
  intros Hmode.
  unfold Trigger.sessionLoopBody, Trigger.getOrCreateSessionReceiver,
    Trigger.managerInitialized.
  rewrite Hmode. simpl. unfold_trigger. simpl.
  destruct (acceptNextSession_reply env (trace st) (Trigger.entity cfg)) as [sid|msg];
    simpl.
  - match goal with
    | |- context [subscribe_reply env ?h ?r] => destruct (subscribe_reply env h r)
    end; simpl; (split; [reflexivity|]); rewrite <- !app_assoc;
      eexists [_; _], _; (split; [reflexivity|]); auto.
  - split; [reflexivity|]. rewrite <- !app_assoc.
    eexists [_], _; (split; [reflexivity|]); auto.
Qed.

Lemma any_mode_keeps_looping (passes : nat) :
  Trigger.sessionMode cfg = "any" ->
  forall st, fst (Trigger.startSessionHandling env cfg passes st) = Ok Trigger.Looping.
Proof.
  intros Hmode. induction passes as [|n IH]; intros st; simpl; [reflexivity|].
  unfold bind. destruct (any_pass_continues st Hmode) as [Hres _].
  destruct (Trigger.sessionLoopBody env cfg st) as [[[]|e] st1]; simpl in Hres;
    try discriminate Hres. apply IH.
Qed.

(** A handler run, a delivery or an error, asks for no session. *)
Lemma handlers_accept_nothing (st : St Trigger.Closure) (op : Op) :
  match op with
  | OpDeliver _ _ | OpError | OpSessionError _ =>
      acceptances (trace (perform env cfg st op)) = acceptances (trace st)
  | _ => True
  end.
Proof.
  assert (Happ : forall h1 h2, acceptances (h1 ++ h2) = acceptances h1 ++ acceptances h2).
  { induction h1 as [|c h1 IH]; intros h2; simpl; auto.
    destruct c; simpl; auto; now rewrite IH. }
  assert (Hcl : forall rs, acceptances (map CloseReceiver rs) = []).
  { induction rs; simpl; auto. }
  destruct op as [| | |m receiver| |sessionReceiver|]; auto; simpl.
  - unfold Trigger.processMessage. unfold_monad.
    destruct (normalizeBody (body m)); simpl; auto.
    destruct (sessionId receiver); simpl.
    + destruct (negb (Trigger.sessionMode cfg =? "none")%string); simpl.
      * unfold getSessionState, emit, call.
        destruct (getSessionState_reply env (trace st) receiver); simpl;
          rewrite !Happ; simpl; now rewrite !app_nil_r.
      * unfold emit, call. simpl. rewrite Happ. simpl. now rewrite app_nil_r.
    + unfold emit, call. simpl. rewrite Happ. simpl. now rewrite app_nil_r.
  - rewrite processError_run.
    destruct (negb (Trigger.sessionMode cfg =? "none")%string); simpl; auto.
    now rewrite Happ, Hcl, app_nil_r.
  - unfold Trigger.sessionProcessError. unfold bind at 1. rewrite processError_run.
    unfold_trigger.
    destruct (negb (Trigger.sessionMode cfg =? "none")%string); simpl.
    + now rewrite Happ, Hcl, app_nil_r.
    + destruct (Trigger.keyOf sessionReceiver _); reflexivity.
Qed.

(** The subscription handlers alone, run any number of times, never ask
    the broker for a session: only a pass of the loop does. *)
Lemma handlers_never_reaccept (ops : list Op) :
  forall st : St Trigger.Closure,
    Forall (fun op => match op with
                      | OpDeliver _ _ | OpError | OpSessionError _ => True
                      | _ => False
                      end) ops ->
    acceptances (trace (fold_left (perform env cfg) ops st)) = acceptances (trace st).
Proof.
  induction ops as [|op ops IH]; intros st Hall; simpl; [reflexivity|].
  inversion Hall as [|? ? Hop Hrest]; subst.
  rewrite IH by exact Hrest.
  pose proof (handlers_accept_nothing st op) as H.
  destruct op; try contradiction; exact H.
Qed.

End SessionLoop.

(** C5.  With session mode 'specific', session id S1 and a broker that
    grants the session at once, [startSessionHandling] accepts S1, installs
    the subscription and leaves its loop.  An error on that subscription then
    closes the receiver and empties the registry, and that is all: the trace
    holds the one acceptance made at start-up, and no loop is left to make
    another. *)
Theorem specific_session_not_reaccepted (passes : nat) :
  let cfg := Samples.triggerCfg "specific" false in
  let r := Samples.sessionReceiver 0 "S1" in
  let started :=
    Trigger.startSessionHandling Samples.happy cfg (S passes) Trigger.initial in
  let failed := Trigger.sessionProcessError Samples.happy cfg r (snd started) in
  fst started = Ok Trigger.Returned
  /\ trace (snd started)
     = [AcceptSession (QueueEntity "orders") "S1" 60000; Subscribe r false 1]
  /\ fst failed = Ok tt
  /\ newCalls (snd started) (snd failed) = [CloseReceiver r]
  /\ Trigger.activeReceivers (local (snd failed)) = []
  /\ acceptances (trace (snd failed)) = [Some "S1"].
Proof. repeat split. Qed.

(* ================================================================== *)
(** * Completion and session state on the receive paths *)
(* ================================================================== *)

Section ReceivePaths.
Context {rt : NodeRuntime} (env : Env).

Lemma completions_app (h1 h2 : History) :
  completions (h1 ++ h2) = completions h1 ++ completions h2.
Proof.
  induction h1 as [|c h1 IH]; simpl; auto. destruct c; simpl; auto. now rewrite IH.
Qed.

(** The trigger's [processMessage] calls [completeMessage] on nothing,
    whatever the completion setting. *)
Lemma processMessage_completes_nothing
    (cfg : Trigger.Config) (m : Message) (r : Receiver) (st : St Trigger.Closure) :
  exists calls,
    trace (snd (Trigger.processMessage env cfg m r st)) = trace st ++ calls
    /\ completions calls = [].
Proof.
  unfold Trigger.processMessage. unfold_monad.
  destruct (normalizeBody (body m)); simpl; [|exists []; now rewrite app_nil_r].
  destruct (sessionId r); simpl.
  - destruct (negb (Trigger.sessionMode cfg =? "none")%string); simpl.
    + unfold getSessionState, emit, call.
      destruct (getSessionState_reply env (trace st) r); simpl;
        rewrite <- app_assoc; eexists; split; reflexivity.
    + unfold emit, call. simpl. eexists; split; reflexivity.
  - unfold emit, call. simpl. eexists; split; reflexivity.
Qed.

End ReceivePaths.

Lemma newCalls_app {L} (st st' : St L) (calls : History) :
  trace st' = trace st ++ calls -> newCalls st st' = calls.
Proof. unfold newCalls. intros ->. apply skipn_length_app. Qed.

Lemma completions_passCalls {rt : NodeRuntime} (cfg : Node.Config) (receiver : Receiver)
      (isSessionReceiver : bool) (sid : option string) (state : JsValue)
      (ms : list Message) :
  completions (flat_map (passCalls cfg receiver isSessionReceiver sid state) ms)
  = if (Node.receiveMode cfg =? "peekLock")%string then ms else [].
Proof.
  unfold passCalls.
  induction ms as [|m ms IH]; simpl.
  - now destruct (Node.receiveMode cfg =? "peekLock")%string.
  - rewrite completions_app, IH.
    now destruct (Node.receiveMode cfg =? "peekLock")%string.
Qed.

(** C1 as stated fails: on a plain subscription with [autoComplete] off, a
    delivered message is emitted and no [completeMessage] call is made for
    it. *)
Lemma trigger_manual_policy_never_completes :
  let cfg := Samples.triggerCfg "none" false in
  let m := Samples.message "m1" (JStr "hello") in
  let after :=
    Trigger.processMessage (rt := nodeModel) Samples.happy cfg m
                           (Samples.plainReceiver 0) Trigger.initial in
  Trigger.autoComplete cfg = false
  /\ fst after = Ok tt
  /\ List.length (delivered (trace (snd after))) = 1%nat
  /\ ~ (exists receiver, In (CompleteMessage receiver m) (trace (snd after))).
Proof.
  repeat (split; [reflexivity|]).
  intros [receiver H]. simpl in H.
  repeat (destruct H as [H|H]; [discriminate H|]). exact H.
Qed.

Lemma assoc_setField_same (k : string) (v : JsValue) (fields : list (string * JsValue)) :
  assoc k (setField k v fields) = Some v.
Proof.
  induction fields as [|[k' v'] fields IH]; simpl.
  - now rewrite String.eqb_refl.
  - destruct (k =? k')%string eqn:E; simpl; rewrite ?E, ?String.eqb_refl; auto.
Qed.


(* ================================================================== *)
(** * The repository's tests and the spec's scenarios, replayed *)
(* ================================================================== *)

(** 'should throw error for empty message body': the error [execute] throws
    carries the text the test looks for, after the prefix of the outer
    [catch]. *)
Example execute_empty_body :
  let cfg := Samples.nodeCfg "queue" "sendMessage" "sdk" "none" "peekLock" false in
  let run := Node.execute (rt := nodeModel) Samples.happy cfg
                          [Samples.item (JStr "")] Node.initial in
  fst run = Throw (OperationFailed MessageBodyEmpty)
  /\ message (OperationFailed MessageBodyEmpty)
     = "Azure Service Bus operation failed: Message Body cannot be empty".
Proof. split; reflexivity. Qed.

(** 'should receive messages from a queue': one message, delivered with its
    object body as it is, and [completeMessage] called once. *)
Example execute_receive_one :
  let payload := JObj [("testData", JStr "hello world")] in
  let m := Samples.message "test-message-id-123" payload in
  let cfg := Samples.nodeCfg "queue" "receiveMessages" "sdk" "none" "peekLock" false in
  let run := Node.execute (rt := nodeModel) (Samples.withBatch false [m]) cfg
                          [] Node.initial in
  (exists json, fst run = Ok [json] /\ get_prop json "body" = payload)
  /\ completions (trace (snd run)) = [m].
Proof. split; [eexists; split; reflexivity | reflexivity]. Qed.

(** The two body scenarios of the spec: the text [hello] stays a string, the
    text [{"a":1}] becomes the parsed object. *)
Example execute_receive_bodies :
  let batch := [Samples.message "m1" (JStr "hello");
                Samples.message "m2" (JStr Samples.jsonA)] in
  let cfg := Samples.nodeCfg "queue" "receiveMessages" "sdk" "none" "peekLock" false in
  let run := Node.execute (rt := nodeModel) (Samples.withBatch false batch) cfg
                          [] Node.initial in
  match fst run with
  | Ok records => map (fun json => get_prop json "body") records
                  = [JStr "hello"; JObj [("a", JNum 1)]]
  | Throw _ => False
  end.
Proof. reflexivity. Qed.

(* ================================================================== *)
(** * Properties of connection strings *)
(* ================================================================== *)

Section StrFacts.
Import Str.
#[local] Open Scope string_scope.

Lemma split_nonempty (sep : ascii) (s : string) : split sep s <> [].
Proof.
  destruct s as [|c rest]; simpl; [discriminate|].
  destruct (c =? sep)%char; [discriminate|]. destruct (split sep rest); discriminate.
Qed.

(** No piece of a split holds the separator, and a piece holds no character
    the string did not. *)
Lemma split_pieces (sep : ascii) (s piece : string) :
  In piece (split sep s) ->
  occurs sep piece = false /\ (forall d, occurs d piece = true -> occurs d s = true).
Proof.
  revert piece. induction s as [|c rest IH]; intros piece; simpl.
  - intros [<-|[]]. split; [reflexivity | intros d H; discriminate H].
  - destruct (c =? sep)%char eqn:E.
    + intros [<-|Hin].
      * split; [reflexivity | intros d H; discriminate H].
      * destruct (IH _ Hin) as [H1 H2]. split; auto.
        intros d Hd. rewrite (H2 _ Hd). apply orb_true_r.
    + destruct (split sep rest) as [|p ps] eqn:Es.
      * intros [<-|[]]. simpl. rewrite E. split; [reflexivity|].
        intros d Hd. simpl in Hd. rewrite orb_false_r in Hd. now rewrite Hd.
      * intros [<-|Hin].
        -- destruct (IH p (or_introl eq_refl)) as [H1 H2]. simpl. rewrite E, H1.
           split; [reflexivity|]. intros d Hd.
           apply orb_true_iff in Hd. destruct Hd as [Hd|Hd]; [now rewrite Hd|].
           rewrite (H2 _ Hd). apply orb_true_r.
        -- destruct (IH piece (or_intror Hin)) as [H1 H2]. split; auto.
           intros d Hd. rewrite (H2 _ Hd). apply orb_true_r.
Qed.

(** A string without the separator is its own single piece. *)
Lemma split_clean (sep : ascii) (s : string) :
  occurs sep s = false -> split sep s = [s].
Proof.
  induction s as [|c rest IH]; simpl; [reflexivity|].
  intros H. apply orb_false_iff in H. destruct H as [Hc Hrest].
  rewrite Hc, (IH Hrest). reflexivity.
Qed.

(** The text before the first separator is the first piece. *)
Lemma split_first (sep : ascii) (a b : string) :
  occurs sep a = false ->
  split sep (a ++ String sep b) = a :: split sep b.
Proof.
  induction a as [|c rest IH]; simpl.
  - intros _. now rewrite Ascii.eqb_refl.
  - intros H. apply orb_false_iff in H. destruct H as [Hc Hrest].
    rewrite Hc, (IH Hrest). reflexivity.
Qed.

Lemma occurs_app (c : ascii) (a b : string) :
  occurs c (a ++ b) = occurs c a || occurs c b.
Proof. induction a as [|d a IH]; simpl; [reflexivity | now rewrite IH, orb_assoc]. Qed.

Lemma prefix_app (p s : string) : String.prefix p (p ++ s) = true.
Proof.
  induction p as [|c p IH]; [now destruct s|].
  cbn [String.append String.prefix]. destruct (ascii_dec c c); [exact IH | congruence].
Qed.

Lemma prefix_split (p : string) :
  forall s, String.prefix p s = true -> exists post, s = p ++ post.
Proof.
  induction p as [|c p IH]; intros s H.
  - exists s. reflexivity.
  - destruct s as [|d s]; [discriminate H|]. cbn [String.prefix] in H.
    destruct (ascii_dec c d) as [<-|]; [|discriminate H].
    destruct (IH _ H) as [post ->]. exists post. reflexivity.
Qed.

Lemma dropN_app (p s : string) : NodeModel.dropN (String.length p) (p ++ s) = s.
Proof. induction p as [|c p IH]; simpl; [now destruct s | exact IH]. Qed.

Lemma removeFirst_unfold (p s : string) :
  removeFirst p s
  = if String.prefix p s then NodeModel.dropN (String.length p) s
    else match s with
         | EmptyString => EmptyString
         | String c rest => String c (removeFirst p rest)
         end.
Proof. destruct s; reflexivity. Qed.

Lemma removeFirst_prefix (p s : string) : removeFirst p (p ++ s) = s.
Proof. now rewrite removeFirst_unfold, prefix_app, dropN_app. Qed.

Lemma dropN_occurs (d : ascii) (n : nat) :
  forall s, occurs d (NodeModel.dropN n s) = true -> occurs d s = true.
Proof.
  induction n as [|n IH]; intros [|c s]; simpl; auto.
  intros H. rewrite (IH _ H). apply orb_true_r.
Qed.

(** Removing an occurrence adds no character. *)
Lemma removeFirst_occurs (d : ascii) (p s : string) :
  occurs d (removeFirst p s) = true -> occurs d s = true.
Proof.
  induction s as [|c rest IH]; rewrite removeFirst_unfold.
  - destruct (String.prefix p ""); [apply dropN_occurs | auto].
  - destruct (String.prefix p (String c rest)).
    + apply dropN_occurs.
    + simpl. intros H. apply orb_true_iff in H. destruct H as [H|H].
      * now rewrite H.
      * rewrite (IH H). apply orb_true_r.
Qed.

(** Removing a one-character pattern from a string that ends with its only
    occurrence, or that has none. *)
Lemma removeFirst_char_absent (c : ascii) (s : string) :
  occurs c s = false -> removeFirst (String c "") s = s.
Proof.
  induction s as [|d rest IH]; [reflexivity|].
  intros H. simpl in H. apply orb_false_iff in H. destruct H as [Hd Hrest].
  rewrite removeFirst_unfold. cbn [String.prefix].
  destruct (ascii_dec c d) as [->|]; [now rewrite Ascii.eqb_refl in Hd|].
  now rewrite (IH Hrest).
Qed.

Lemma removeFirst_char_last (c : ascii) (s : string) :
  occurs c s = false -> removeFirst (String c "") (s ++ String c "") = s.
Proof.
  induction s as [|d rest IH].
  - intros _. rewrite removeFirst_unfold. cbn [String.append String.prefix].
    destruct (ascii_dec c c); [reflexivity | congruence].
  - intros H. simpl in H. apply orb_false_iff in H. destruct H as [Hd Hrest].
    rewrite removeFirst_unfold. cbn [String.append String.prefix].
    destruct (ascii_dec c d) as [->|]; [now rewrite Ascii.eqb_refl in Hd|].
    now rewrite (IH Hrest).
Qed.

Lemma lowerChar_keeps (x c : ascii) :
  lowerChar x = x -> (forall d, lowerChar d = x -> d = x) ->
  (lowerChar c =? x)%char = (c =? x)%char.
Proof.
  intros Hx Hinj. destruct (c =? x)%char eqn:E.
  - apply Ascii.eqb_eq in E. subst. rewrite Hx. apply Ascii.eqb_refl.
  - destruct (lowerChar c =? x)%char eqn:E'; [|reflexivity].
    apply Ascii.eqb_eq in E'. apply Hinj in E'. subst.
    now rewrite Ascii.eqb_refl in E.
Qed.

Lemma lowerChar_eq_sign (d : ascii) : lowerChar d = "="%char -> d = "="%char.
Proof. destruct d as [[] [] [] [] [] [] [] []]; vm_compute; congruence. Qed.

Lemma lowerChar_semicolon (d : ascii) : lowerChar d = ";"%char -> d = ";"%char.
Proof. destruct d as [[] [] [] [] [] [] [] []]; vm_compute; congruence. Qed.

(** Lower-casing neither adds nor removes an equals sign or a semicolon. *)
Lemma toLowerCase_separators (s : string) :
  occurs "=" (toLowerCase s) = occurs "=" s
  /\ occurs ";" (toLowerCase s) = occurs ";" s.
Proof.
  induction s as [|c rest [IH1 IH2]]; simpl; [auto|].
  rewrite IH1, IH2.
  rewrite (@lowerChar_keeps "="%char c eq_refl lowerChar_eq_sign).
  rewrite (@lowerChar_keeps ";"%char c eq_refl lowerChar_semicolon).
  auto.
Qed.

Lemma includes_unfold (sub s : string) :
  includes sub s
  = String.prefix sub s
    || match s with
       | EmptyString => false
       | String _ rest => includes sub rest
       end.
Proof. destruct s; reflexivity. Qed.

Lemma includes_spec (sub s : string) :
  includes sub s = true <-> exists pre post, s = pre ++ sub ++ post.
Proof.
  split.
  - induction s as [|c rest IH]; rewrite includes_unfold; intros H;
      apply orb_true_iff in H; destruct H as [H|H].
    + destruct (prefix_split _ _ H) as [post ->]. exists "", post. reflexivity.
    + discriminate H.
    + destruct (prefix_split _ _ H) as [post ->]. exists "", post. reflexivity.
    + destruct (IH H) as (pre & post & ->). exists (String c pre), post. reflexivity.
  - intros (pre & post & ->). induction pre as [|c pre IH].
    + rewrite includes_unfold. cbn [String.append]. now rewrite prefix_app.
    + rewrite includes_unfold. cbn [String.append]. rewrite IH. apply orb_true_r.
Qed.

End StrFacts.

Section ConnFacts.
Import Str Conn.
#[local] Open Scope string_scope.

Let clean (s : string) : Prop := occurs "=" s = false /\ occurs ";" s = false.

Lemma assign_clean (k v : string) (parsed : list (string * string)) :
  clean v -> Forall (fun kv => clean (snd kv)) parsed ->
  Forall (fun kv => clean (snd kv)) (assign k v parsed).
Proof.
  intros Hv. induction parsed as [|[k' v'] parsed IH]; simpl; intros H.
  - constructor; auto.
  - inversion H as [|? ? Hhd Htl]; subst.
    destruct (k =? k'); constructor; auto.
Qed.

Lemma parsePart_clean (parsed : list (string * string)) (part : string) :
  occurs ";" part = false ->
  Forall (fun kv => clean (snd kv)) parsed ->
  Forall (fun kv => clean (snd kv)) (parsePart parsed part).
Proof.
  intros Hpart H. unfold parsePart, splitLimit.
  pose proof (@split_pieces "="%char part) as Hp.
  destruct (split "=" part) as [|key [|value l]]; simpl; auto.
  destruct (negb (key =? "") && negb (value =? "")); auto.
  apply assign_clean; auto.
  destruct (Hp value (or_intror (or_introl eq_refl))) as [H1 H2].
  split; [exact H1|].
  destruct (occurs ";" value) eqn:E; [|reflexivity].
  rewrite (H2 _ E) in Hpart. discriminate Hpart.
Qed.

Lemma parseParts_clean (connectionString : string) :
  Forall (fun kv => clean (snd kv)) (parseParts connectionString).
Proof.
  unfold parseParts.
  assert (Hparts : forall p, In p (split ";" connectionString) -> occurs ";" p = false).
  { intros p Hp. apply (split_pieces _ _ _ Hp). }
  assert (Hacc : Forall (fun kv : string * string => clean (snd kv)) []) by constructor.
  revert Hparts Hacc. generalize (@nil (string * string)).
  induction (split ";" connectionString) as [|p ps IH]; intros acc Hparts Hacc; simpl; auto.
  apply IH.
  - intros q Hq. apply Hparts. now right.
  - apply parsePart_clean; auto. apply Hparts. now left.
Qed.

Lemma lookup_clean (k v : string) (parsed : list (string * string)) :
  Forall (fun kv => clean (snd kv)) parsed -> lookup k parsed = Some v -> clean v.
Proof.
  induction parsed as [|[k' v'] parsed IH]; simpl; intros H; [discriminate|].
  inversion H as [|? ? Hhd Htl]; subst.
  destruct (k =? k'); [intros E; inversion E; subst; exact Hhd | auto].
Qed.

Lemma removeFirst_clean (p s : string) : clean s -> clean (removeFirst p s).
Proof.
  intros [H1 H2]. split.
  - destruct (occurs "=" (removeFirst p s)) eqn:E; [|reflexivity].
    now rewrite (removeFirst_occurs _ _ _ E) in H1.
  - destruct (occurs ";" (removeFirst p s)) eqn:E; [|reflexivity].
    now rewrite (removeFirst_occurs _ _ _ E) in H2.
Qed.

Lemma parsed_fields_clean (connectionString : string) (d : ConnectionDetails) :
  parseConnectionString connectionString = inr d ->
  clean (hostname d) /\ clean (username d) /\ clean (password d)
  /\ (forall e, entityPath d = Some e -> clean e).
Proof.
  unfold parseConnectionString. pose proof (parseParts_clean connectionString) as Hc.
  destruct (lookup "endpoint" _) as [endpoint|] eqn:He; [|discriminate].
  intros H. inversion H; subst; clear H. simpl.
  split; [|split; [|split]].
  - apply removeFirst_clean, removeFirst_clean. eapply lookup_clean; eauto.
  - destruct (lookup "sharedaccesskeyname" _) eqn:E; [|split; reflexivity].
    eapply lookup_clean; eauto.
  - destruct (lookup "sharedaccesskey" _) eqn:E; [|split; reflexivity].
    eapply lookup_clean; eauto.
  - intros e E. eapply lookup_clean; eauto.
Qed.

Lemma append_empty_r (s : string) : s ++ "" = s.
Proof. induction s as [|c s IH]; simpl; [reflexivity | now rewrite IH]. Qed.

(** The first piece of a text that continues, if at all, with the
    separator. *)
Lemma split_head (sep : ascii) (k rest : string) :
  occurs sep k = false ->
  rest = "" \/ (exists r, rest = String sep r) ->
  exists pieces, split sep (k ++ rest) = k :: pieces.
Proof.
  intros Hk [->|[r ->]].
  - exists []. rewrite append_empty_r. now apply split_clean.
  - exists (split sep r). now apply split_first.
Qed.

Lemma toLowerCase_nonempty (s t : string) :
  toLowerCase s = t -> t <> "" -> (s =? "") = false.
Proof. destruct s; simpl; [intros <- H; now elim H | reflexivity]. Qed.

Lemma parse_well_formed
    (ke kn kk h n k rest : string) (slash : bool) :
  toLowerCase ke = "endpoint" ->
  toLowerCase kn = "sharedaccesskeyname" ->
  toLowerCase kk = "sharedaccesskey" ->
  clean h -> occurs "/" h = false ->
  clean n -> n <> "" ->
  clean k -> k <> "" ->
  occurs ";" rest = false ->
  rest = "" \/ (exists r, rest = String "=" r) ->
  parseConnectionString
    ((ke ++ "=" ++ "sb://" ++ h ++ (if slash then "/" else ""))
     ++ ";" ++ (kn ++ "=" ++ n)
     ++ ";" ++ (kk ++ "=" ++ k ++ rest))
  = inr {| hostname := h; username := n; password := k; entityPath := None |}.
Proof.
  intros Hke Hkn Hkk [Hh1 Hh2] Hh3 [Hn1 Hn2] Hn [Hk1 Hk2] Hk Hrest Hshape.
  assert (Hsep : forall s t, toLowerCase s = t -> occurs "=" t = false ->
                             occurs ";" t = false -> clean s).
  { intros s t <- H1 H2. destruct (toLowerCase_separators s) as [E1 E2].
    split; congruence. }
  destruct (Hsep _ _ Hke eq_refl eq_refl) as [Hke1 Hke2].
  destruct (Hsep _ _ Hkn eq_refl eq_refl) as [Hkn1 Hkn2].
  destruct (Hsep _ _ Hkk eq_refl eq_refl) as [Hkk1 Hkk2].
  remember ("sb://" ++ h ++ (if slash then "/" else "")) as v1 eqn:Ev1.
  assert (Hv1 : clean v1).
  { rewrite Ev1. split; rewrite !occurs_app; simpl; rewrite ?Hh1, ?Hh2;
      destruct slash; reflexivity. }
  destruct Hv1 as [Hv11 Hv12].
  assert (Hv1ne : (v1 =? "") = false) by (rewrite Ev1; reflexivity).
  assert (Hrm : removeFirst "/" (removeFirst "sb://" v1) = h).
  { rewrite Ev1, removeFirst_prefix. destruct slash.
    - now apply removeFirst_char_last.
    - rewrite append_empty_r. now apply removeFirst_char_absent. }
  clear Ev1.
  destruct (@split_head "="%char k rest Hk1 Hshape) as [pieces Hpieces].
  unfold parseConnectionString, parseParts.
  cbn [String.append].
  assert (Hp1 : occurs ";" (ke ++ String "=" v1) = false).
  { rewrite occurs_app. cbn [occurs]. now rewrite Hke2, Hv12. }
  assert (Hp2 : occurs ";" (kn ++ String "=" n) = false).
  { rewrite occurs_app. cbn [occurs]. now rewrite Hkn2, Hn2. }
  assert (Hp3 : occurs ";" (kk ++ String "=" (k ++ rest)) = false).
  { rewrite occurs_app. cbn [occurs]. rewrite occurs_app. now rewrite Hkk2, Hk2, Hrest. }
  rewrite split_first by exact Hp1. rewrite split_first by exact Hp2.
  rewrite split_clean by exact Hp3.
  cbn [fold_left]. unfold parsePart, splitLimit.
  rewrite !split_first by assumption.
  rewrite (@split_clean "="%char v1 Hv11), (@split_clean "="%char n Hn1), Hpieces.
  cbn [firstn].
  rewrite (toLowerCase_nonempty _ Hke), (toLowerCase_nonempty _ Hkn),
    (toLowerCase_nonempty _ Hkk) by discriminate.
  rewrite Hke, Hkn, Hkk.
  assert (Hne : forall s, s <> "" -> (s =? "") = false).
  { intros s Hs. destruct s; [now elim Hs | reflexivity]. }
  rewrite (Hne n Hn), (Hne k Hk), Hv1ne.
  cbn. now rewrite Hrm.
Qed.

End ConnFacts.

(** X1.  A connection string of the usual shape is read back field by
    field: the keys are matched in any letter case, the host name is the
    endpoint without its [sb://] and without a closing slash, and the shared
    access key is the text up to its first equals sign, so the padding of a
    base64 key is dropped. *)
Theorem parseConnectionString_well_formed
    (ke kn kk h n k rest : string) (slash : bool) :
  Str.toLowerCase ke = "endpoint" ->
  Str.toLowerCase kn = "sharedaccesskeyname" ->
  Str.toLowerCase kk = "sharedaccesskey" ->
  Str.occurs "=" h = false -> Str.occurs ";" h = false -> Str.occurs "/" h = false ->
  Str.occurs "=" n = false -> Str.occurs ";" n = false -> n <> ""%string ->
  Str.occurs "=" k = false -> Str.occurs ";" k = false -> k <> ""%string ->
  Str.occurs ";" rest = false ->
  rest = ""%string \/ (exists r, rest = String "=" r) ->
  Conn.parseConnectionString
    ((ke ++ "=" ++ "sb://" ++ h ++ (if slash then "/" else ""))
     ++ ";" ++ (kn ++ "=" ++ n)
     ++ ";" ++ (kk ++ "=" ++ k ++ rest))%string
  = inr {| Conn.hostname := h; Conn.username := n; Conn.password := k;
           Conn.entityPath := None |}.
Proof.
  intros Hke Hkn Hkk Hh1 Hh2 Hh3 Hn1 Hn2 Hn Hk1 Hk2 Hk Hrest Hshape.
  apply parse_well_formed; auto.
Qed.

Lemma parseConnectionString_well_formed_witness :
  Conn.parseConnectionString
    "Endpoint=sb://test.servicebus.windows.net/;SharedAccessKeyName=RootManageSharedAccessKey;SharedAccessKey=dGVzdGtleTEyMw=="
  = inr {| Conn.hostname := "test.servicebus.windows.net";
           Conn.username := "RootManageSharedAccessKey";
           Conn.password := "dGVzdGtleTEyMw";
           Conn.entityPath := None |}.
Proof.
  apply (@parseConnectionString_well_formed
           "Endpoint" "SharedAccessKeyName" "SharedAccessKey"
           "test.servicebus.windows.net" "RootManageSharedAccessKey"
           "dGVzdGtleTEyMw" "==" true);
    try reflexivity; try discriminate.
  right. eexists. reflexivity.
Defined.

(** X2.  Whatever the connection string, no field of the parsed details
    holds an equals sign or a semicolon. *)
Theorem parseConnectionString_fields_clean
    (connectionString : string) (d : Conn.ConnectionDetails) :
  Conn.parseConnectionString connectionString = inr d ->
  forall field,
    In field [Conn.hostname d; Conn.username d; Conn.password d;
              match Conn.entityPath d with Some e => e | None => ""%string end] ->
    Str.occurs "=" field = false /\ Str.occurs ";" field = false.
Proof.
  intros H field Hin.
  destruct (parsed_fields_clean connectionString H) as (Hh & Hu & Hp & He).
  simpl in Hin. destruct Hin as [<-|[<-|[<-|[<-|[]]]]]; auto.
  destruct (Conn.entityPath d) as [e|]; [now apply He | split; reflexivity].
Qed.

Lemma parseConnectionString_fields_clean_witness :
  exists d,
    Conn.parseConnectionString "Endpoint=sb://ns/;SharedAccessKey=a=b;EntityPath=q=r" = inr d
    /\ Conn.password d = "a"%string
    /\ Conn.entityPath d = Some "q"%string
    /\ Str.occurs "=" (Conn.password d) = false.
Proof.
  eexists. split; [reflexivity | split; [reflexivity | split; [reflexivity|]]].
  refine (proj1 (@parseConnectionString_fields_clean
                   "Endpoint=sb://ns/;SharedAccessKey=a=b;EntityPath=q=r" _ eq_refl _ _)).
  simpl. right. right. left. reflexivity.
Defined.

Lemma parseConnectionString_error (connectionString : string) (e : Conn.ConfigError) :
  Conn.parseConnectionString connectionString = inl e -> e = Conn.MissingEndpoint.
Proof.
  unfold Conn.parseConnectionString.
  destruct (Conn.lookup "endpoint" _); [discriminate | congruence].
Qed.

(** X3.  Both nodes reject the credential before anything else happens: an
    empty connection string, and one that holds the placeholder
    [__n8n_BLANK_VALUE_] anywhere, end the run with the matching error and
    without a single call; and the placeholder error is raised for no other
    connection string. *)
Theorem placeholder_connection_string_rejected
    {rt : NodeRuntime} (env : Env) (tcfg : Trigger.Config) (ncfg : Node.Config)
    (newClient : bool -> string -> Reply unit)
    (connectionString : string) (fuel : nat) (items : list Node.Item)
    (tst : St Trigger.Closure) (nst : St (list JsValue)) :
  let trig := triggerStart env newClient tcfg connectionString fuel tst in
  let exec := executeStart env newClient ncfg connectionString items nst in
  (fst trig = inl Conn.BlankValues <->
     exists pre post,
       connectionString = (pre ++ "__n8n_BLANK_VALUE_" ++ post)%string)
  /\ (fst exec = inl Conn.BlankValues <-> fst trig = inl Conn.BlankValues)
  /\ (fst trig = inl Conn.ConnectionStringRequired <-> connectionString = ""%string)
  /\ (fst exec = inl Conn.ConnectionStringRequired <-> connectionString = ""%string)
  /\ (Conn.checkConnectionString connectionString <> inr tt ->
      snd trig = tst /\ snd exec = nst).
Proof.
  intros trig exec. subst trig exec. unfold triggerStart, executeStart.
  pose proof (includes_spec "__n8n_BLANK_VALUE_" connectionString) as Hinc.
  unfold Conn.checkConnectionString.
  destruct (connectionString =? "")%string eqn:Eempty.
  - apply String.eqb_eq in Eempty. subst. simpl.
    repeat split; auto; try discriminate.
    intros (pre & post & H). destruct pre; discriminate H.
  - assert (Hne : connectionString <> ""%string).
    { intros ->. discriminate Eempty. }
    destruct (Str.includes "__n8n_BLANK_VALUE_" connectionString) eqn:Einc.
    + simpl. repeat split; auto; try discriminate; try (intros; contradiction).
      intros _. now apply Hinc.
    + assert (Hno : ~ exists pre post,
                connectionString = (pre ++ "__n8n_BLANK_VALUE_" ++ post)%string).
      { intros H. apply Hinc in H. discriminate H. }
      destruct (createClient newClient connectionString) as [[]|msg];
        (destruct (Node.isSdk ncfg); [|destruct (Node.isHttp ncfg);
          [destruct (Conn.parseConnectionString connectionString) as [e|d] eqn:Ep;
           [apply parseConnectionString_error in Ep; subst e|]|]]);
        repeat match goal with
               | |- context [let '(_, _) := ?x in _] => destruct x
               end;
        simpl; repeat split; try discriminate; try contradiction;
        try (intros H; now elim Hno); try (intros H; now elim Hne);
        try (intros H; now elim H).
Qed.

(* ================================================================== *)
(** * Which calls a computation can make *)
(* ================================================================== *)

Section EmitsFacts.
Context {L : Type} (P : Call -> Prop).

Lemma emits_silent {A} (m : M L A) :
  (forall st, trace (snd (m st)) = trace st) -> Emits P m.
Proof. intros H st. exists []. rewrite H, app_nil_r. auto. Qed.

Lemma emits_ret {A} (a : A) : Emits P (@ret L A a).
Proof. now apply emits_silent. Qed.

Lemma emits_throw {A} (e : Exn) : Emits P (@throw L A e).
Proof. now apply emits_silent. Qed.

Lemma emits_liftResult {A} (r : Result A) : Emits P (@liftResult L A r).
Proof. now apply emits_silent. Qed.

Lemma emits_getLocal : Emits P (@getLocal L).
Proof. now apply emits_silent. Qed.

Lemma emits_setLocal (l : L) : Emits P (setLocal l).
Proof. now apply emits_silent. Qed.

Lemma emits_currentTime (env : Env) : Emits P (@currentTime L env).
Proof. now apply emits_silent. Qed.

Lemma emits_newReceiver (sid : option string) : Emits P (@newReceiver L sid).
Proof. now apply emits_silent. Qed.

Lemma emits_call {A} (c : Call) (reply : History -> Reply A) :
  P c -> Emits P (@call L A c reply).
Proof. intros Hc st. exists [c]. split; [reflexivity | auto]. Qed.

Lemma emits_bind {A B} (m : M L A) (k : A -> M L B) :
  Emits P m -> (forall a, Emits P (k a)) -> Emits P (bind m k).
Proof.
  intros Hm Hk st. unfold bind. destruct (Hm st) as (c1 & H1 & F1).
  destruct (m st) as [[a|e] st1]; simpl in *.
  - destruct (Hk a st1) as (c2 & H2 & F2). exists (c1 ++ c2).
    rewrite H2, H1, app_assoc. split; [reflexivity | now apply Forall_app].
  - exists c1. auto.
Qed.

Lemma emits_try_catch {A} (m : M L A) (h : Exn -> M L A) :
  Emits P m -> (forall e, Emits P (h e)) -> Emits P (try_catch m h).
Proof.
  intros Hm Hh st. unfold try_catch. destruct (Hm st) as (c1 & H1 & F1).
  destruct (m st) as [[a|e] st1]; simpl in *.
  - exists c1. auto.
  - destruct (Hh e st1) as (c2 & H2 & F2). exists (c1 ++ c2).
    rewrite H2, H1, app_assoc. split; [reflexivity | now apply Forall_app].
Qed.

Lemma emits_forEach {A} (f : A -> M L unit) (xs : list A) :
  (forall x, Emits P (f x)) -> Emits P (forEach f xs).
Proof.
  intros Hf. induction xs as [|x xs IH]; simpl.
  - apply emits_ret.
  - apply emits_bind; auto.
Qed.

End EmitsFacts.

Lemma emits_weaken {L A} (P Q : Call -> Prop) (m : M L A) :
  (forall c, P c -> Q c) -> Emits P m -> Emits Q m.
Proof.
  intros HPQ Hm st. destruct (Hm st) as (calls & H & F).
  exists calls. split; [exact H|]. eapply Forall_impl; eauto.
Qed.

Ltac emits :=
  repeat first
    [ apply emits_ret | apply emits_throw | apply emits_liftResult
    | apply emits_getLocal | apply emits_setLocal | apply emits_currentTime
    | apply emits_newReceiver
    | apply emits_call
    | apply emits_bind; [|intro]
    | apply emits_try_catch; [|intro]
    | apply emits_forEach; intro
    | match goal with
      | |- Emits _ (if ?b then _ else _) => destruct b
      | |- Emits _ (match ?x with _ => _ end) => destruct x
      end ].

(* ================================================================== *)
(** * Properties of [execute] as a whole *)
(* ================================================================== *)

Ltac unfold_node :=
  unfold Node.dispatch, Node.sendToQueue, Node.sendToTopic, Node.receiveMessages,
         Node.sendQueueItem, Node.sendTopicItem, Node.receiveOne, Node.openReceiver,
         Node.readSessionState, Node.writeSessionState, Node.pushReturn,
         Node.sendMessages, Node.sendMessageViaHTTP, Node.closeSender,
         acceptSession, acceptNextSession, createReceiver, getSessionState,
         setSessionState, receiveBatch, completeMessage, closeReceiver.

Lemma dispatch_leaves_client
    {rt : NodeRuntime} (env : Env) (cfg : Node.Config) (items : list Node.Item) :
  Emits (fun c => c <> CloseClient) (Node.dispatch env cfg items).
Proof.
  unfold_node. emits; discriminate.
Qed.

(** X4.  [execute] with the SDK protocol always ends by closing the client,
    once, whether the operation went through or threw; with another protocol
    it never closes a client.  What it throws is the operation's error under
    the prefix of the outer [catch], unless closing the client is what
    failed. *)
Theorem execute_closes_client_last
    {rt : NodeRuntime} (env : Env) (cfg : Node.Config) (items : list Node.Item)
    (st : St (list JsValue)) :
  let run := Node.execute env cfg items st in
  (exists calls,
     Forall (fun c => c <> CloseClient) calls
     /\ newCalls st (snd run)
        = calls ++ (if Node.isSdk cfg then [CloseClient] else []))
  /\ (forall e, fst run = Throw e ->
        (exists cause, e = OperationFailed cause
                       /\ fst (Node.dispatch env cfg items st) = Throw cause)
        \/ (Node.isSdk cfg = true /\ exists msg, e = SdkError msg))
  /\ (forall records, fst run = Ok records ->
        fst (Node.dispatch env cfg items st) = Ok tt).
Proof.
  intros run. subst run.
  destruct (dispatch_leaves_client env cfg items st) as (calls & Htr & Hall).
  destruct (Node.dispatch env cfg items st) as [r st1] eqn:Ed. simpl in Htr.
  unfold Node.execute, bind, try_finally, try_catch, throw, ret, getLocal,
    closeClient, call.
  cbv beta. rewrite Ed.
  assert (Hnew : forall tail l,
            newCalls st {| trace := trace st1 ++ tail; nextRid := nextRid st1; local := l |}
            = calls ++ tail).
  { intros tail l. unfold newCalls. cbn [trace]. rewrite Htr, <- app_assoc.
    apply skipn_length_app. }
  assert (Hnew0 : newCalls st st1 = calls ++ []).
  { unfold newCalls. rewrite Htr, app_nil_r. apply skipn_length_app. }
  destruct r as [[]|cause]; destruct (Node.isSdk cfg);
    try destruct (closeClient_reply env (trace st1)) as [[]|msg];
    cbn [fst snd];
    (split; [exists calls; split; [exact Hall | first [apply Hnew | apply Hnew0]]
            | split; [intros e He; inversion He; subst; eauto
                     | intros records Hr; try discriminate Hr; reflexivity]]).
Qed.

Section SendLoops.
Context {rt : NodeRuntime} (env : Env) (cfg : Node.Config).

Hypothesis sdk : Node.isSdk cfg = true.
Hypothesis accepts : forall h m, sendMessages_reply env h m = Done tt.

(** The state after some passes of a send loop. *)
Let after (st : St (list JsValue)) (calls : History) (records : list JsValue)
  : St (list JsValue) :=
  {| trace := trace st ++ calls; nextRid := nextRid st; local := local st ++ records |}.

Let goodPass (f : Node.Item -> M (list JsValue) unit) : Prop :=
  (forall item st, isEmptyMessageBody (Node.messageBody item) = false ->
     exists record,
       f item st = (Ok tt, after st [SendMessages (Node.buildMessage item); Push record]
                                 [record]))
  /\ (forall item st, isEmptyMessageBody (Node.messageBody item) = true ->
        f item st = (Throw MessageBodyEmpty, st)).

Lemma sendQueueItem_good : goodPass (Node.sendQueueItem env cfg).
Proof.
  split; intros item st Hbody; unfold Node.sendQueueItem; rewrite Hbody, ?sdk;
    [|reflexivity].
  unfold Node.sendMessages, Node.pushReturn. unfold_monad. rewrite accepts.
  eexists. unfold after. cbn. rewrite <- app_assoc. reflexivity.
Qed.

Lemma sendTopicItem_good : goodPass (Node.sendTopicItem env cfg).
Proof.
  split; intros item st Hbody; unfold Node.sendTopicItem; rewrite Hbody;
    [|reflexivity].
  unfold Node.sendMessages, Node.pushReturn. unfold_monad. rewrite accepts.
  eexists. unfold after. cbn. rewrite <- app_assoc. reflexivity.
Qed.

Lemma after_nil (st : St (list JsValue)) : after st [] [] = st.
Proof. destruct st. unfold after. simpl. now rewrite !app_nil_r. Qed.

Lemma after_after (st : St (list JsValue)) c1 r1 c2 r2 :
  after (after st c1 r1) c2 r2 = after st (c1 ++ c2) (r1 ++ r2).
Proof. unfold after. simpl. now rewrite !app_assoc. Qed.

Lemma sentMessages_app (h1 h2 : History) :
  sentMessages (h1 ++ h2) = sentMessages h1 ++ sentMessages h2.
Proof.
  induction h1 as [|c h1 IH]; simpl; auto. destruct c; simpl; auto. now rewrite IH.
Qed.

Lemma sendLoop_all (f : Node.Item -> M (list JsValue) unit) (items : list Node.Item) :
  goodPass f ->
  Forall (fun item => isEmptyMessageBody (Node.messageBody item) = false) items ->
  forall st, exists calls records,
    forEach f items st = (Ok tt, after st calls records)
    /\ List.length records = List.length items
    /\ sentMessages calls = map Node.buildMessage items
    /\ Forall (fun c => c <> CloseSender /\ c <> CloseClient) calls.
Proof.
  intros [Hgood _]. induction 1 as [|item items Hitem Hitems IH]; intros st.
  - exists [], []. simpl. unfold ret. rewrite after_nil. auto.
  - simpl. unfold bind. destruct (Hgood item st Hitem) as [record ->].
    destruct (IH (after st [SendMessages (Node.buildMessage item); Push record] [record]))
      as (calls & records & -> & Hlen & Hsent & Hall).
    eexists. exists (record :: records). rewrite after_after. split; [reflexivity|].
    simpl. rewrite Hlen, Hsent. repeat split; auto.
    repeat constructor; try discriminate. exact Hall.
Qed.

Lemma sendLoop_stops (f : Node.Item -> M (list JsValue) unit)
      (sent : list Node.Item) (bad : Node.Item) (rest : list Node.Item) :
  goodPass f ->
  Forall (fun item => isEmptyMessageBody (Node.messageBody item) = false) sent ->
  isEmptyMessageBody (Node.messageBody bad) = true ->
  forall st, exists calls records,
    forEach f (sent ++ bad :: rest) st = (Throw MessageBodyEmpty, after st calls records)
    /\ sentMessages calls = map Node.buildMessage sent
    /\ Forall (fun c => c <> CloseSender /\ c <> CloseClient) calls.
Proof.
  intros [Hgood Hbad] Hsent Hempty. induction Hsent as [|item items Hitem Hitems IH];
    intros st.
  - exists [], []. simpl. unfold bind. rewrite (Hbad _ _ Hempty), after_nil. auto.
  - simpl. unfold bind. destruct (Hgood item st Hitem) as [record ->].
    destruct (IH (after st [SendMessages (Node.buildMessage item); Push record] [record]))
      as (calls & records & -> & Hs & Hall).
    eexists. eexists. rewrite after_after. split; [reflexivity|].
    simpl. rewrite Hs. split; auto.
    repeat constructor; try discriminate. exact Hall.
Qed.

Hypothesis closes : forall h, closeSender_reply env h = Done tt.
Hypothesis disconnects : forall h, closeClient_reply env h = Done tt.

Lemma sendToQueue_run (items : list Node.Item) (st : St (list JsValue)) :
  Node.sendToQueue env cfg items st
  = (let (r, st1) :=
       forEach (Node.sendQueueItem env cfg) items
               (after st [CreateSender (Node.queueName cfg)] []) in
     match r with
     | Ok _ => (Ok tt, after st1 [CloseSender] [])
     | Throw e => (Throw e, st1)
     end).
Proof.
  unfold Node.sendToQueue, Node.closeSender. rewrite sdk. unfold_monad.
  cbv beta. cbn [fst snd trace nextRid local].
  replace {| trace := trace st ++ [CreateSender (Node.queueName cfg)];
             nextRid := nextRid st; local := local st |}
    with (after st [CreateSender (Node.queueName cfg)] [])
    by (unfold after; now rewrite app_nil_r).
  destruct (forEach _ items _) as [[[]|e] st1]; [|reflexivity].
  rewrite closes. unfold after. now rewrite app_nil_r.
Qed.

Lemma sendToTopic_run (items : list Node.Item) (st : St (list JsValue)) :
  Node.sendToTopic env cfg items st
  = (let (r, st1) :=
       forEach (Node.sendTopicItem env cfg) items
               (after st [CreateSender (Node.topicName cfg)] []) in
     match r with
     | Ok _ => (Ok tt, after st1 [CloseSender] [])
     | Throw e => (Throw e, st1)
     end).
Proof.
  unfold Node.sendToTopic, Node.closeSender. rewrite sdk. unfold_monad.
  cbv beta. cbn [negb fst snd trace nextRid local].
  replace {| trace := trace st ++ [CreateSender (Node.topicName cfg)];
             nextRid := nextRid st; local := local st |}
    with (after st [CreateSender (Node.topicName cfg)] [])
    by (unfold after; now rewrite app_nil_r).
  destruct (forEach _ items _) as [[[]|e] st1]; [|reflexivity].
  rewrite closes. unfold after. now rewrite app_nil_r.
Qed.

(** The send operation the configuration selects. *)
Lemma dispatch_send (items : list Node.Item) :
  Node.resource cfg = "queue"%string \/ Node.resource cfg = "topic"%string ->
  Node.operation cfg = "sendMessage"%string ->
  exists (f : Node.Item -> M (list JsValue) unit) (name : string),
    goodPass f
    /\ forall st,
         Node.dispatch env cfg items st
         = (let (r, st1) := forEach f items (after st [CreateSender name] []) in
            match r with
            | Ok _ => (Ok tt, after st1 [CloseSender] [])
            | Throw e => (Throw e, st1)
            end).
Proof.
  intros Hres Hop. unfold Node.dispatch. rewrite Hop. destruct Hres as [-> | ->]; simpl.
  - exists (Node.sendQueueItem env cfg), (Node.queueName cfg).
    split; [apply sendQueueItem_good | apply sendToQueue_run].
  - exists (Node.sendTopicItem env cfg), (Node.topicName cfg).
    split; [apply sendTopicItem_good | apply sendToTopic_run].
Qed.

Lemma execute_run (items : list Node.Item) (st : St (list JsValue)) :
  Node.execute env cfg items st
  = (let (r, st1) := Node.dispatch env cfg items st in
     match r with
     | Ok _ => (Ok (local st1), after st1 [CloseClient] [])
     | Throw e => (Throw (OperationFailed e), after st1 [CloseClient] [])
     end).
Proof.
  unfold Node.execute, closeClient. rewrite sdk. unfold_monad. cbv beta.
  destruct (Node.dispatch env cfg items st) as [[[]|e] st1]; rewrite disconnects;
    unfold after; cbn; now rewrite app_nil_r.
Qed.

Lemma newCalls_after (st : St (list JsValue)) (calls : History) (records : list JsValue) :
  newCalls st (after st calls records) = calls.
Proof. unfold newCalls, after. simpl. apply skipn_length_app. Qed.

(** X5.  A send operation over the SDK, to a queue or to a topic, whose
    items all have a body and whose sends the broker accepts, sends one message
    per input item, in item order, and returns one record per item after the
    records already collected. *)
Theorem send_one_message_per_item (items : list Node.Item) (st : St (list JsValue)) :
  Node.resource cfg = "queue"%string \/ Node.resource cfg = "topic"%string ->
  Node.operation cfg = "sendMessage"%string ->
  Forall (fun item => isEmptyMessageBody (Node.messageBody item) = false) items ->
  let run := Node.execute env cfg items st in
  exists records,
    fst run = Ok (local st ++ records)
    /\ List.length records = List.length items
    /\ sentMessages (newCalls st (snd run)) = map Node.buildMessage items
    /\ exists calls,
         newCalls st (snd run) = calls ++ [CloseSender; CloseClient]
         /\ Forall (fun c => c <> CloseSender /\ c <> CloseClient) calls.
Proof.
  intros Hres Hop Hitems run. subst run.
  destruct (dispatch_send items Hres Hop) as (f & name & Hgood & Hrun).
  rewrite execute_run, Hrun.
  destruct (sendLoop_all Hgood Hitems (after st [CreateSender name] []))
    as (calls & records & -> & Hlen & Hsent & Hall).
  rewrite !after_after. cbn [fst snd]. exists records.
  split; [unfold after; cbn [local app]; now rewrite app_nil_r|]. split; [exact Hlen|].
  rewrite newCalls_after. split.
  - rewrite !sentMessages_app, Hsent. simpl. now rewrite !app_nil_r.
  - exists (CreateSender name :: calls). split.
    + simpl. now rewrite <- !app_assoc.
    + constructor; [split; discriminate | exact Hall].
Qed.

(** X6.  A send operation stops at the first item whose body is empty: the
    items before it have been sent and stay sent, nothing after it is sent,
    the sender is left unclosed, and the error is the empty-body error under
    the prefix of the outer [catch]. *)
Theorem send_stops_at_empty_body
    (sent : list Node.Item) (bad : Node.Item) (rest : list Node.Item)
    (st : St (list JsValue)) :
  Node.resource cfg = "queue"%string \/ Node.resource cfg = "topic"%string ->
  Node.operation cfg = "sendMessage"%string ->
  Forall (fun item => isEmptyMessageBody (Node.messageBody item) = false) sent ->
  isEmptyMessageBody (Node.messageBody bad) = true ->
  let run := Node.execute env cfg (sent ++ bad :: rest) st in
  fst run = Throw (OperationFailed MessageBodyEmpty)
  /\ sentMessages (newCalls st (snd run)) = map Node.buildMessage sent
  /\ ~ In CloseSender (newCalls st (snd run)).
Proof.
  intros Hres Hop Hsent Hbad run. subst run.
  destruct (dispatch_send (sent ++ bad :: rest) Hres Hop) as (f & name & Hgood & Hrun).
  rewrite execute_run, Hrun.
  destruct (@sendLoop_stops f sent bad rest Hgood Hsent Hbad (after st [CreateSender name] []))
    as (calls & records & -> & Hs & Hall).
  rewrite !after_after. cbn [fst snd]. split; [reflexivity|].
  rewrite newCalls_after. split.
  - rewrite !sentMessages_app, Hs. simpl. now rewrite ?app_nil_r.
  - intros Hin. simpl in Hin. destruct Hin as [Hin|Hin]; [discriminate Hin|].
    apply in_app_or in Hin. destruct Hin as [Hin|[Hin|[]]]; [|discriminate Hin].
    rewrite Forall_forall in Hall. now destruct (Hall _ Hin).
Qed.

End SendLoops.

Lemma send_one_message_per_item_witness :
  let cfg := Samples.nodeCfg "topic" "sendMessage" "sdk" "none" "peekLock" false in
  let items := [Samples.item (JNum 0); Samples.item (JStr "hello")] in
  let run := Node.execute (rt := nodeModel) Samples.happy cfg items Node.initial in
  exists records,
    fst run = Ok records /\ List.length records = 2%nat
    /\ sentMessages (trace (snd run)) = map (Node.buildMessage) items.
Proof.
  intros cfg items run.
  destruct (@send_one_message_per_item nodeModel Samples.happy cfg eq_refl
              (fun _ _ => eq_refl) (fun _ => eq_refl) (fun _ => eq_refl)
              items Node.initial (or_intror eq_refl) eq_refl)
    as (records & H1 & H2 & H3 & _).
  - repeat constructor.
  - exists records. repeat split; assumption.
Defined.

Lemma send_stops_at_empty_body_witness :
  let cfg := Samples.nodeCfg "queue" "sendMessage" "sdk" "none" "peekLock" false in
  let run := Node.execute (rt := nodeModel) Samples.happy cfg
               [Samples.item (JNum 0); Samples.item (JStr " "); Samples.item (JStr "x")]
               Node.initial in
  fst run = Throw (OperationFailed MessageBodyEmpty)
  /\ sentMessages (trace (snd run)) = [Node.buildMessage (Samples.item (JNum 0))].
Proof.
  intros cfg run.
  destruct (@send_stops_at_empty_body nodeModel Samples.happy cfg eq_refl
              (fun _ _ => eq_refl) (fun _ => eq_refl) (fun _ => eq_refl)
              [Samples.item (JNum 0)] (Samples.item (JStr " ")) [Samples.item (JStr "x")]
              Node.initial (or_introl eq_refl) eq_refl)
    as (H1 & H2 & _).
  - repeat constructor.
  - reflexivity.
  - split; assumption.
Defined.

(* ================================================================== *)
(** * The message a send builds *)
(* ================================================================== *)

Lemma assoc_setField_other (k k' : string) (v : JsValue) (fields : list (string * JsValue)) :
  k <> k' -> assoc k (setField k' v fields) = assoc k fields.
Proof.
  intros Hne. induction fields as [|[k0 v0] fields IH]; simpl.
  - destruct (k =? k')%string eqn:E; [apply String.eqb_eq in E; contradiction | reflexivity].
  - destruct (k' =? k0)%string eqn:E0; simpl.
    + apply String.eqb_eq in E0. subst k0.
      destruct (k =? k')%string eqn:E; [apply String.eqb_eq in E; contradiction | reflexivity].
    + destruct (k =? k0)%string; auto.
Qed.

(** X7.  The message of a send carries the item's body and content type as
    they are.  A message id or a session id that is empty or only white space
    is left out; any other is sent as typed, untrimmed.  The record returned
    for the item reports the message id of the message, so none when it was
    left out. *)
Theorem buildMessage_fields (item : Node.Item) (entityKey entityName sentAt : string) :
  let message := Node.buildMessage item in
  get_prop message "body" = Node.messageBody item
  /\ get_prop message "contentType" = JStr (Node.contentType item)
  /\ get_prop message "messageId"
     = (if Node.nonBlank (Node.messageId item)
        then JStr (Node.messageId item) else JUndefined)
  /\ get_prop message "sessionId"
     = (if Node.nonBlank (Node.itemSessionId item)
        then JStr (Node.itemSessionId item) else JUndefined)
  /\ get_prop (Node.sentRecord message entityKey entityName sentAt) "messageId"
     = get_prop message "messageId"
  /\ (Node.messageProperties item = None ->
      get_prop message "applicationProperties" = JUndefined).
Proof.
  intros message. subst message. unfold Node.buildMessage.
  destruct (Node.nonBlank (Node.messageId item));
    destruct (Node.nonBlank (Node.itemSessionId item));
    destruct (Node.messageProperties item) as [props|];
    repeat split; try reflexivity; intros H; discriminate H.
Qed.

Lemma applicationProperties_assoc (k : string) (props : list (string * string)) :
  forall acc,
    assoc k (fold_left
               (fun acc (kv : string * string) =>
                  if negb (fst kv =? "")%string && negb (snd kv =? "")%string
                  then setField (fst kv) (JStr (snd kv)) acc else acc)
               props acc)
    = match lastValue k props with
      | Some v => Some (JStr v)
      | None => assoc k acc
      end.
Proof.
  induction props as [|[k' v] props IH]; intros acc; [reflexivity|].
  cbn [fold_left lastValue fst snd]. rewrite IH.
  destruct (lastValue k props) as [later|]; [reflexivity|].
  destruct (k' =? "")%string eqn:Ek; destruct (v =? "")%string eqn:Ev;
    destruct (k =? k')%string eqn:E; cbn [negb andb]; try reflexivity.
  - apply String.eqb_eq in E. subst k'. apply assoc_setField_same.
  - apply assoc_setField_other. intros ->. now rewrite String.eqb_refl in E.
Qed.

(** X8.  When an item gives message properties, the message's
    [applicationProperties] holds, for each key, the value of the last pair
    with that key among the pairs whose key and value are both non-empty, and
    nothing for a key with no such pair.  The key [__proto__], which an
    assignment does not store as a property, is left aside. *)
Theorem applicationProperties_last_value
    (item : Node.Item) (props : list (string * string)) (k : string) :
  Node.messageProperties item = Some props ->
  k <> "__proto__"%string ->
  get_prop (get_prop (Node.buildMessage item) "applicationProperties") k
  = match lastValue k props with
    | Some v => JStr v
    | None => JUndefined
    end.
Proof.
  intros Hprops _.
  assert (Hobj : get_prop (Node.buildMessage item) "applicationProperties"
                 = Node.applicationPropertiesOf props).
  { unfold Node.buildMessage. rewrite Hprops.
    destruct (Node.nonBlank (Node.messageId item));
      destruct (Node.nonBlank (Node.itemSessionId item)); reflexivity. }
  rewrite Hobj. unfold Node.applicationPropertiesOf, get_prop.
  rewrite applicationProperties_assoc.
  destruct (lastValue k props); reflexivity.
Qed.

Lemma applicationProperties_last_value_witness :
  let item := {| Node.messageBody := JStr "hello";
                 Node.messageProperties :=
                   Some [("a", "1"); ("", "x"); ("a", "2"); ("b", "")]%string;
                 Node.contentType := "text/plain";
                 Node.messageId := "";
                 Node.itemSessionId := "" |} in
  let properties := get_prop (Node.buildMessage item) "applicationProperties" in
  get_prop properties "a" = JStr "2" /\ get_prop properties "b" = JUndefined.
Proof.
  intros item properties. split.
  - apply (@applicationProperties_last_value item _ "a" eq_refl). discriminate.
  - apply (@applicationProperties_last_value item _ "b" eq_refl). discriminate.
Defined.

(* ================================================================== *)
(** * [execute] without the SDK protocol *)
(* ================================================================== *)

Lemma emits_try_finally {L A} (P : Call -> Prop) (m : M L A) (f : M L unit) :
  Emits P m -> Emits P f -> Emits P (try_finally m f).
Proof.
  intros Hm Hf st. unfold try_finally. destruct (Hm st) as (c1 & H1 & F1).
  destruct (m st) as [res st1]. simpl in H1.
  destruct (Hf st1) as (c2 & H2 & F2).
  destruct (f st1) as [[[]|e] st2]; simpl in *; exists (c1 ++ c2);
    rewrite H2, H1, app_assoc; (split; [reflexivity | now apply Forall_app]).
Qed.

(** X9.  With a protocol other than the SDK's, [execute] makes no call on
    the SDK at all: no sender, receiver or client is created, used or closed.
    Its only calls are the HTTP sends, each to the configured queue, and the
    pushes of the records.  A topic send and a queue receive are refused with
    the SDK-only error before any call. *)
Theorem other_protocol_makes_no_sdk_call
    {rt : NodeRuntime} (env : Env) (cfg : Node.Config) (items : list Node.Item) :
  Node.isSdk cfg = false ->
  Emits (fun c => match c with
                  | SendViaHttp entityName _ =>
                      entityName = Node.queueName cfg /\ Node.isHttp cfg = true
                  | Push _ => True
                  | _ => False
                  end)
        (Node.execute env cfg items)
  /\ (Node.resource cfg = "topic"%string -> Node.operation cfg = "sendMessage"%string ->
      forall st, Node.execute env cfg items st
                 = (Throw (OperationFailed TopicSdkOnly), st))
  /\ (Node.resource cfg = "queue"%string -> Node.operation cfg = "receiveMessages"%string ->
      forall st, Node.execute env cfg items st
                 = (Throw (OperationFailed ReceiveSdkOnly), st)).
Proof.
  intros Hsdk. split; [|split].
  - unfold Node.execute. unfold_node. rewrite Hsdk. cbn [negb].
    apply emits_bind; [|intro; apply emits_getLocal].
    apply emits_try_finally; [|apply emits_ret].
    apply emits_try_catch; [|intro; apply emits_throw].
    destruct (Node.isHttp cfg) eqn:Hhttp; emits; auto.
  - intros Hres Hop st. unfold Node.execute, Node.dispatch, Node.sendToTopic.
    rewrite Hres, Hop, Hsdk. reflexivity.
  - intros Hres Hop st. unfold Node.execute, Node.dispatch, Node.receiveMessages.
    rewrite Hres, Hop, Hsdk. reflexivity.
Qed.

Lemma other_protocol_makes_no_sdk_call_witness :
  let cfg := Samples.nodeCfg "queue" "sendMessage" "http" "none" "peekLock" false in
  let run := Node.execute (rt := nodeModel) Samples.happy cfg
               [Samples.item (JStr "hello")] Node.initial in
  exists record,
    trace (snd run)
    = [SendViaHttp "orders" (Node.buildMessage (Samples.item (JStr "hello"))); Push record]
    /\ Forall (fun c => match c with
                        | SendViaHttp entityName _ =>
                            entityName = Node.queueName cfg /\ Node.isHttp cfg = true
                        | Push _ => True
                        | _ => False
                        end) (trace (snd run)).
Proof.
  intros cfg run. eexists. split; [reflexivity|].
  destruct (proj1 (@other_protocol_makes_no_sdk_call nodeModel Samples.happy cfg
                     [Samples.item (JStr "hello")] eq_refl) Node.initial)
    as (calls & Htrace & Hall).
  fold run in Htrace. rewrite Htrace. exact Hall.
Defined.

(* ================================================================== *)
(** * The one-shot receive as a whole *)
(* ================================================================== *)

Section ReceiveRuns.
Context {rt : NodeRuntime} (env : Env) (cfg : Node.Config) (batch : list Message).

Hypothesis sdk : Node.isSdk cfg = true.
Hypothesis queue : Node.resource cfg = "queue"%string.
Hypothesis receive : Node.operation cfg = "receiveMessages"%string.
Hypothesis delivers : forall h r, receiveMessages_reply env h r = Done batch.
Hypothesis completes : forall h r m, completeMessage_reply env h r m = Done tt.
Hypothesis normal : Forall (fun m => exists b, normalizeBody (body m) = Ok b) batch.
Hypothesis disconnects : forall h, closeClient_reply env h = Done tt.

Lemma withRecords_nil (st : St (list JsValue)) : withRecords st [] [] = st.
Proof. destruct st. unfold withRecords. simpl. now rewrite !app_nil_r. Qed.

Lemma withRecords_withRecords (st : St (list JsValue)) c1 r1 c2 r2 :
  withRecords (withRecords st c1 r1) c2 r2 = withRecords st (c1 ++ c2) (r1 ++ r2).
Proof. unfold withRecords. simpl. now rewrite !app_assoc. Qed.

Lemma receiveOne_run (receiver : Receiver) (isSessionReceiver : bool)
      (sid : option string) (state : JsValue) (m : Message) (st : St (list JsValue)) :
  (exists b, normalizeBody (body m) = Ok b) ->
  Node.receiveOne env cfg receiver isSessionReceiver sid state m st
  = (Ok tt, withRecords st (passCalls cfg receiver isSessionReceiver sid state m)
                        [batchRecord isSessionReceiver sid state m]).
Proof.
  intros [b Hb]. unfold Node.receiveOne, passCalls, batchRecord, batchSessionInfo.
  unfold Node.pushReturn, completeMessage. unfold_monad. rewrite Hb. cbv beta.
  unfold withRecords. cbn [fst snd trace nextRid local].
  destruct (Node.receiveMode cfg =? "peekLock")%string.
  - rewrite completes. cbn. now rewrite <- app_assoc.
  - reflexivity.
Qed.

Lemma receiveLoop_run (receiver : Receiver) (isSessionReceiver : bool)
      (sid : option string) (state : JsValue) (ms : list Message) :
  Forall (fun m => exists b, normalizeBody (body m) = Ok b) ms ->
  forall st,
    forEach (Node.receiveOne env cfg receiver isSessionReceiver sid state) ms st
    = (Ok tt, withRecords st
                (flat_map (passCalls cfg receiver isSessionReceiver sid state) ms)
                (map (batchRecord isSessionReceiver sid state) ms)).
Proof.
  induction 1 as [|m ms Hm Hms IH]; intros st.
  - simpl. unfold ret. now rewrite withRecords_nil.
  - cbn [forEach]. unfold bind. rewrite receiveOne_run by exact Hm.
    rewrite IH, withRecords_withRecords. reflexivity.
Qed.

Lemma statesWritten_app (h1 h2 : History) :
  statesWritten (h1 ++ h2) = statesWritten h1 ++ statesWritten h2.
Proof.
  induction h1 as [|c h1 IH]; simpl; auto. destruct c; simpl; auto. now rewrite IH.
Qed.

Lemma passCalls_quiet (receiver : Receiver) (isSessionReceiver : bool)
      (sid : option string) (state : JsValue) (ms : list Message) :
  statesWritten (flat_map (passCalls cfg receiver isSessionReceiver sid state) ms) = []
  /\ closedReceivers (flat_map (passCalls cfg receiver isSessionReceiver sid state) ms) = [].
Proof.
  unfold passCalls. induction ms as [|m ms [IH1 IH2]]; [split; reflexivity|].
  cbn [flat_map]. rewrite statesWritten_app, closedReceivers_app, IH1, IH2.
  destruct (Node.receiveMode cfg =? "peekLock")%string; split; reflexivity.
Qed.

(** X11.  A receive without sessions whose batch goes through returns one
    record per message of the batch, in batch order, after the records
    already collected, and its calls are exactly these: the receiver is
    created with the configured receive mode, the batch is asked for once with
    the configured count and the wait in milliseconds, each message's record
    is pushed and, under peek-lock, the message completed, and then the
    receiver and the client are closed. *)
Theorem receive_plain_batch (items : list Node.Item) (st : St (list JsValue)) :
  (Node.sessionMode cfg =? "specific")%string = false ->
  (Node.sessionMode cfg =? "next")%string = false ->
  (forall h r, closeReceiver_reply env h r = Done tt) ->
  let receiver := {| rid := nextRid st; sessionId := None |} in
  let run := Node.execute env cfg items st in
  fst run = Ok (local st ++ map (batchRecord false None JNull) batch)
  /\ newCalls st (snd run)
     = [CreateReceiver (QueueEntity (Node.queueName cfg)) (Some (Node.receiveMode cfg));
        ReceiveMessages receiver (Node.maxMessageCount cfg)
                        (Node.maxWaitTimeInSeconds cfg * 1000)]
       ++ flat_map (passCalls cfg receiver false None JNull) batch
       ++ [CloseReceiver receiver; CloseClient].
Proof.
  intros Hspecific Hnext closes receiver run. subst run.
  unfold Node.execute, Node.dispatch. rewrite queue, receive. cbn [String.eqb Ascii.eqb Bool.eqb].
  unfold Node.receiveMessages, Node.openReceiver, Node.readSessionState,
    Node.writeSessionState.
  rewrite sdk, Hspecific, Hnext. cbn [negb andb].
  unfold createReceiver, newReceiver, receiveBatch, closeReceiver, closeClient.
  unfold_monad. cbv beta. cbn [andb negb fst snd trace nextRid local]. rewrite delivers.
  fold receiver. rewrite receiveLoop_run by exact normal.
  unfold withRecords. cbn [fst snd trace nextRid local].
  rewrite closes, disconnects. cbn [fst snd trace nextRid local].
  split; [reflexivity|].
  unfold newCalls. cbn [trace]. rewrite <- !app_assoc. apply skipn_length_app.
Qed.

(** X12.  In the 'specific' session mode with session state managed, a new
    session state that is not JSON is found out only after the batch: every
    message has had its record pushed and, under peek-lock, has been completed
    when the operation throws the state-update error.  No state is written,
    the receiver is not closed, and the records pushed are not returned. *)
Theorem bad_session_state_found_after_batch
    (items : list Node.Item) (st : St (list JsValue)) :
  Node.sessionMode cfg = "specific"%string ->
  Node.manageSessionState cfg = true ->
  Node.nonBlank (Node.newSessionState cfg) = true ->
  JSON_parse (Node.newSessionState cfg) = None ->
  (forall h, acceptSession_reply env h (QueueEntity (Node.queueName cfg))
                                 (Node.receiveSessionId cfg) = Done tt) ->
  let run := Node.execute env cfg items st in
  (exists msg, fst run = Throw (OperationFailed (UpdateStateFailed (SyntaxError msg))))
  /\ completions (newCalls st (snd run))
     = (if (Node.receiveMode cfg =? "peekLock")%string then batch else [])
  /\ List.length (local (snd run)) = (List.length (local st) + List.length batch)%nat
  /\ statesWritten (newCalls st (snd run)) = []
  /\ closedReceivers (newCalls st (snd run)) = [].
Proof.
  intros Hmode Hmanage Hstate Hparse accepts run. subst run.
  unfold Node.execute, Node.dispatch. rewrite queue, receive. cbn [String.eqb Ascii.eqb Bool.eqb].
  unfold Node.receiveMessages, Node.openReceiver, Node.readSessionState,
    Node.writeSessionState.
  rewrite sdk, Hmode, Hmanage, Hstate, Hparse. cbn [String.eqb Ascii.eqb Bool.eqb negb andb].
  unfold acceptSession, newReceiver, getSessionState, receiveBatch, closeClient.
  unfold_monad. cbv beta. cbn [andb negb fst snd trace nextRid local]. rewrite accepts.
  cbn [andb negb fst snd trace nextRid local].
  set (receiver := {| rid := nextRid st; sessionId := Some (Node.receiveSessionId cfg) |}).
  destruct (getSessionState_reply env _ receiver) as [state|msg];
    cbn [fst snd trace nextRid local]; rewrite delivers;
    rewrite receiveLoop_run by exact normal;
    unfold withRecords; cbn [fst snd trace nextRid local]; rewrite disconnects;
    cbn [fst snd trace nextRid local];
    (split; [eexists; reflexivity|]);
    unfold newCalls; cbn [trace]; rewrite <- ?app_assoc; rewrite skipn_length_app;
    cbn [app completions statesWritten closedReceivers];
    rewrite completions_app, statesWritten_app, closedReceivers_app,
      completions_passCalls, length_app, length_map;
    match goal with
    | |- context [flat_map (passCalls cfg ?r ?b ?sid ?state) batch] =>
        destruct (passCalls_quiet r b sid state batch) as [-> ->]
    end;
    cbn [app completions statesWritten closedReceivers]; rewrite app_nil_r;
    repeat split; reflexivity.
Qed.

End ReceiveRuns.

Lemma receive_plain_batch_witness :
  let batch := [Samples.message "m1" (JStr "hello"); Samples.message "m2" (JNum 7)] in
  let cfg := Samples.nodeCfg "queue" "receiveMessages" "sdk" "none" "peekLock" false in
  let receiver := Samples.plainReceiver 0 in
  let run := Node.execute (rt := nodeModel) (Samples.withBatch false batch) cfg []
                          Node.initial in
  fst run = Ok (map (batchRecord (rt := nodeModel) false None JNull) batch)
  /\ newCalls Node.initial (snd run)
     = [CreateReceiver (QueueEntity "orders") (Some "peekLock"%string);
        ReceiveMessages receiver 10 60000]
       ++ flat_map (passCalls (rt := nodeModel) cfg receiver false None JNull) batch
       ++ [CloseReceiver receiver; CloseClient].
Proof.
  intros batch cfg receiver run.
  assert (Hnormal : Forall (fun m => exists b, normalizeBody (rt := nodeModel) (body m) = Ok b)
                           batch).
  { repeat constructor; eexists; reflexivity. }
  exact (@receive_plain_batch nodeModel (Samples.withBatch false batch) cfg batch
           eq_refl eq_refl eq_refl (fun _ _ => eq_refl) (fun _ _ _ => eq_refl) Hnormal
           (fun _ => eq_refl) [] Node.initial eq_refl eq_refl (fun _ _ => eq_refl)).
Defined.

Lemma bad_session_state_found_after_batch_witness :
  let batch := [Samples.message "m1" (JStr "hello"); Samples.message "m2" (JNum 7)] in
  let cfg := {| Node.resource := "queue"; Node.operation := "receiveMessages";
                Node.protocol := "sdk"; Node.queueName := "orders";
                Node.topicName := ""; Node.maxMessageCount := 10;
                Node.maxWaitTimeInSeconds := 60; Node.receiveMode := "peekLock";
                Node.sessionMode := "specific"; Node.receiveSessionId := "S1";
                Node.sessionTimeout := 60; Node.manageSessionState := true;
                Node.newSessionState := "{state: done}" |} in
  let run := Node.execute (rt := nodeModel) (Samples.withBatch true batch) cfg []
                          Node.initial in
  fst run = Throw (OperationFailed (UpdateStateFailed
                     (SyntaxError "Unexpected token in JSON")))
  /\ completions (trace (snd run)) = batch
  /\ statesWritten (trace (snd run)) = []
  /\ closedReceivers (trace (snd run)) = [].
Proof.
  intros batch cfg run.
  assert (Hnormal : Forall (fun m => exists b, normalizeBody (rt := nodeModel) (body m) = Ok b)
                           batch).
  { repeat constructor; eexists; reflexivity. }
  destruct (@bad_session_state_found_after_batch nodeModel (Samples.withBatch true batch)
              cfg batch eq_refl eq_refl eq_refl (fun _ _ => eq_refl)
              (fun _ _ _ => eq_refl) Hnormal (fun _ => eq_refl) [] Node.initial
              eq_refl eq_refl eq_refl eq_refl (fun _ => eq_refl))
    as (_ & Hdone & _ & Hstate & Hclosed).
  split; [reflexivity|]. split; [exact Hdone|]. split; [exact Hstate | exact Hclosed].
Defined.

(* ================================================================== *)
(** * The session loop of the trigger *)
(* ================================================================== *)

Section SessionLoopRuns.
Context {rt : NodeRuntime} (env : Env) (cfg : Trigger.Config).

(** X13.  Whatever the broker answers and however long it runs, the session
    loop only asks for a session, subscribes and waits.  It asks for the
    configured session id in the 'specific' mode only and for the next session
    in the 'any' mode only, always on the configured entity and with the lock
    renewal of [sessionTimeout] seconds; it subscribes with the configured
    completion setting and concurrency; it waits one or five seconds.  It
    never creates a plain receiver, reads a session state, completes a message
    or closes anything. *)
Theorem session_loop_calls (passes : nat) :
  Emits (fun c =>
           match c with
           | AcceptSession e sid ms =>
               Trigger.sessionMode cfg = "specific"%string
               /\ e = Trigger.entity cfg /\ sid = Trigger.specificSessionId cfg
               /\ ms = Trigger.sessionTimeout cfg * 1000
           | AcceptNextSession e ms =>
               Trigger.sessionMode cfg = "any"%string
               /\ e = Trigger.entity cfg /\ ms = Trigger.sessionTimeout cfg * 1000
           | Subscribe _ auto concurrency =>
               auto = Trigger.autoComplete cfg
               /\ concurrency = Trigger.maxConcurrentCalls cfg
           | Sleep ms => ms = 1000 \/ ms = 5000
           | _ => False
           end)
        (Trigger.startSessionHandling env cfg passes).
Proof.
  induction passes as [|passes IH]; cbn [Trigger.startSessionHandling].
  - apply emits_ret.
  - apply emits_bind; [|intros []; [apply emits_ret | exact IH]].
    unfold Trigger.sessionLoopBody, Trigger.getOrCreateSessionReceiver,
      Trigger.getActive, Trigger.setActive, acceptSession, acceptNextSession,
      subscribe, sleep.
    destruct (Trigger.sessionMode cfg =? "specific")%string eqn:Especific;
      destruct (Trigger.sessionMode cfg =? "any")%string eqn:Eany;
      rewrite ?String.eqb_eq in *; emits; auto.
Qed.

Lemma unknown_mode_pass (st : St Trigger.Closure) :
  Trigger.sessionMode cfg <> "specific"%string ->
  Trigger.sessionMode cfg <> "any"%string ->
  Trigger.sessionLoopBody env cfg st
  = (Ok false, withCalls st [Sleep 5000] (Trigger.activeReceivers (local st))).
Proof.
  intros Hspecific Hany.
  apply String.eqb_neq in Hspecific. apply String.eqb_neq in Hany.
  unfold Trigger.sessionLoopBody, Trigger.getOrCreateSessionReceiver.
  rewrite Hspecific, Hany.
  destruct st as [h n [rs act]].
  destruct (negb (Trigger.managerInitialized cfg)); reflexivity.
Qed.

Lemma repeat_snoc {A} (x : A) (n : nat) : x :: repeat x n = repeat x n ++ [x].
Proof. induction n as [|n IH]; simpl; [reflexivity | now rewrite <- IH]. Qed.

Lemma unknown_mode_loop (passes : nat) :
  Trigger.sessionMode cfg <> "specific"%string ->
  Trigger.sessionMode cfg <> "any"%string ->
  forall st,
    Trigger.startSessionHandling env cfg passes st
    = (Ok Trigger.Looping,
       withCalls st (repeat (Sleep 5000) passes) (Trigger.activeReceivers (local st))).
Proof.
  intros Hspecific Hany. induction passes as [|passes IH]; intros st.
  - simpl. unfold ret. now rewrite withCalls_nil.
  - cbn [Trigger.startSessionHandling]. unfold bind.
    rewrite unknown_mode_pass by assumption. rewrite IH.
    rewrite withCalls_withCalls. reflexivity.
Qed.

(** X14.  A trigger whose session mode is none of 'none', 'specific' and
    'any', given a connection string that passes the two checks: when the
    SDK's client constructor takes the connection string, the trigger starts
    without an error and never contacts the broker, for it creates no
    receiver, asks for no session and subscribes to nothing; each pass of its
    loop is one wait of five seconds, and the loop never ends.  When the
    constructor throws, with the WebSockets transport and again without, the
    trigger raises that error before any call. *)
Theorem unknown_session_mode_only_sleeps
    (newClient : bool -> string -> Reply unit)
    (connectionString : string) (passes : nat) (st : St Trigger.Closure) :
  Conn.checkConnectionString connectionString = inr tt ->
  Trigger.sessionMode cfg <> "none"%string ->
  Trigger.sessionMode cfg <> "specific"%string ->
  Trigger.sessionMode cfg <> "any"%string ->
  (createClient newClient connectionString = Done tt ->
   triggerStart env newClient cfg connectionString passes st
   = (inr (Ok tt),
      withCalls st (repeat (Sleep 5000) passes) (Trigger.activeReceivers (local st))))
  /\ (forall msg,
        createClient newClient connectionString = Fail msg ->
        triggerStart env newClient cfg connectionString passes st
        = (inr (Throw (SdkError msg)), st))
  /\ fst (Trigger.startSessionHandling env cfg passes st) = Ok Trigger.Looping.
Proof.
  intros Hcheck Hnone Hspecific Hany. split; [|split].
  - intros Hclient. unfold triggerStart, Trigger.createReceivers.
    rewrite Hcheck, Hclient.
    apply String.eqb_neq in Hnone. rewrite Hnone.
    unfold bind at 1. unfold ret at 1. unfold bind.
    now rewrite unknown_mode_loop by assumption.
  - intros msg Hclient. unfold triggerStart. now rewrite Hcheck, Hclient.
  - now rewrite unknown_mode_loop by assumption.
Qed.

(** X15.  In the 'specific' mode, while the broker refuses the session, the
    loop asks for it again after a wait of five seconds, pass after pass: the
    same session id, the same wait, no limit on the number of attempts and no
    error reported. *)
Theorem refused_session_retried_without_bound (passes : nat) :
  Trigger.sessionMode cfg = "specific"%string ->
  (forall h, exists msg,
     acceptSession_reply env h (Trigger.entity cfg) (Trigger.specificSessionId cfg)
     = Fail msg) ->
  forall st,
    JsMap.get (Trigger.specificSessionId cfg) (Trigger.activeReceivers (local st)) = None ->
    Trigger.startSessionHandling env cfg passes st
    = (Ok Trigger.Looping,
       withCalls st
         (List.concat (repeat [AcceptSession (Trigger.entity cfg) (Trigger.specificSessionId cfg)
                                        (Trigger.sessionTimeout cfg * 1000);
                          Sleep 5000] passes))
         (Trigger.activeReceivers (local st))).
Proof.
  intros Hmode Hrefuse. induction passes as [|passes IH]; intros st Hget.
  - simpl. unfold ret. now rewrite withCalls_nil.
  - cbn [Trigger.startSessionHandling]. unfold bind.
    destruct (Hrefuse (trace st)) as [msg Hmsg].
    rewrite (specific_refused_retries env cfg st Hmode Hget Hmsg).
    rewrite IH by exact Hget. rewrite withCalls_withCalls. reflexivity.
Qed.

End SessionLoopRuns.

Lemma unknown_session_mode_only_sleeps_witness :
  let connectionString :=
    "Endpoint=sb://ns.servicebus.windows.net/;SharedAccessKeyName=root;SharedAccessKey=a2V5"%string in
  triggerStart Samples.happy exampleClient (Samples.triggerCfg "next" true)
               connectionString 3 Trigger.initial
  = (inr (Ok tt), withCalls Trigger.initial [Sleep 5000; Sleep 5000; Sleep 5000] [])
  /\ triggerStart Samples.happy exampleClient (Samples.triggerCfg "next" true)
                  "Endpoint=sb://ns.servicebus.windows.net/" 3 Trigger.initial
     = (inr (Throw (SdkError "Connection string malformed")), Trigger.initial).
Proof.
  intros connectionString.
  assert (Hmode : forall mode, mode <> "next"%string ->
                    Trigger.sessionMode (Samples.triggerCfg "next" true) <> mode).
  { intros mode Hne H. apply Hne. symmetry. exact H. }
  split.
  - apply (@unknown_session_mode_only_sleeps Samples.happy
             (Samples.triggerCfg "next" true) exampleClient connectionString
             3 Trigger.initial eq_refl);
      try (apply Hmode; discriminate).
    reflexivity.
  - apply (@unknown_session_mode_only_sleeps Samples.happy
             (Samples.triggerCfg "next" true) exampleClient
             "Endpoint=sb://ns.servicebus.windows.net/" 3 Trigger.initial eq_refl);
      try (apply Hmode; discriminate).
    reflexivity.
Defined.

Lemma refused_session_retried_without_bound_witness :
  let env := {| acceptSession_reply := fun _ _ _ => Fail "session is locked";
                acceptNextSession_reply := acceptNextSession_reply Samples.happy;
                subscribe_reply := subscribe_reply Samples.happy;
                getSessionState_reply := getSessionState_reply Samples.happy;
                setSessionState_reply := setSessionState_reply Samples.happy;
                receiveMessages_reply := receiveMessages_reply Samples.happy;
                completeMessage_reply := completeMessage_reply Samples.happy;
                closeReceiver_reply := closeReceiver_reply Samples.happy;
                closeClient_reply := closeClient_reply Samples.happy;
                sendMessages_reply := sendMessages_reply Samples.happy;
                sendViaHttp_reply := sendViaHttp_reply Samples.happy;
                closeSender_reply := closeSender_reply Samples.happy;
                now := now Samples.happy |} in
  Trigger.startSessionHandling env (Samples.triggerCfg "specific" true) 2
                               Trigger.initial
  = (Ok Trigger.Looping,
     withCalls Trigger.initial
       [AcceptSession (QueueEntity "orders") "S1" 60000; Sleep 5000;
        AcceptSession (QueueEntity "orders") "S1" 60000; Sleep 5000] []).
Proof.
  intros env.
  apply (@refused_session_retried_without_bound env
           (Samples.triggerCfg "specific" true) 2 eq_refl
           (fun _ => ex_intro _ "session is locked"%string eq_refl)
           Trigger.initial eq_refl).
Defined.

(* ================================================================== *)
(** * No receiver is lost *)
(* ================================================================== *)

Lemma accountedFor_mono (st st' : St Trigger.Closure) (n : nat) :
  incl (Trigger.receivers (local st)) (Trigger.receivers (local st')) ->
  (forall r, In r (JsMap.values (Trigger.activeReceivers (local st))) ->
             In r (JsMap.values (Trigger.activeReceivers (local st')))
             \/ In r (closedReceivers (trace st'))) ->
  incl (closedReceivers (trace st)) (closedReceivers (trace st')) ->
  accountedFor st n -> accountedFor st' n.
Proof.
  intros Hplain Hactive Hclosed [H|[H|H]]; apply in_map_iff in H;
    destruct H as [r [<- Hin]].
  - left. apply in_map. auto.
  - destruct (Hactive r Hin); [right; left | right; right]; now apply in_map.
  - right; right. apply in_map. auto.
Qed.

Lemma values_set_fresh {V} (k : string) (v : V) (m : JsMap.t V) :
  JsMap.get k m = None -> JsMap.values (JsMap.set k v m) = JsMap.values m ++ [v].
Proof.
  unfold JsMap.values. induction m as [|[k' v'] m IH]; simpl; [reflexivity|].
  destruct (k =? k')%string; [discriminate|]. intros H. simpl. now rewrite IH.
Qed.

Lemma closePlain_all (env : Env) (rs : list Receiver) :
  (forall h r, closeReceiver_reply env h r = Done tt) ->
  forall st : St Trigger.Closure,
    forEach (closeReceiver env) rs st
    = (Ok tt, withCalls st (map CloseReceiver rs) (Trigger.activeReceivers (local st))).
Proof.
  intros Hclose. induction rs as [|r rs IH]; intros st.
  - simpl. unfold ret. now rewrite withCalls_nil.
  - simpl. unfold bind. rewrite closeReceiver_run, Hclose, IH, withCalls_withCalls.
    reflexivity.
Qed.

Section NoneLostFacts.
Context {rt : NodeRuntime} (env : Env) (cfg : Trigger.Config).

Hypothesis notAny : Trigger.sessionMode cfg <> "any"%string.

(** What the operations keep: no receiver is lost, without sessions the
    registry stays empty, and its only key is the configured session id. *)
Let Tracked (st : St Trigger.Closure) : Prop :=
  NoneLost st
  /\ ((Trigger.sessionMode cfg = "none"%string -> Trigger.activeReceivers (local st) = [])
      /\ (forall k r, In (k, r) (Trigger.activeReceivers (local st)) ->
                      k = Trigger.specificSessionId cfg)).

Let Keeps {A} (m : M Trigger.Closure A) : Prop :=
  forall st, Tracked st -> Tracked (snd (m st)).

Lemma tracked_calls (st : St Trigger.Closure) (calls : History) :
  Tracked st -> Tracked (withCalls st calls (Trigger.activeReceivers (local st))).
Proof.
  intros [Hlost Hnone]. split; [|exact Hnone].
  intros n Hn. apply (@accountedFor_mono st); auto.
  - apply incl_refl.
  - simpl. rewrite closedReceivers_app. now apply incl_appl, incl_refl.
Qed.

Lemma tracked_cleared (st : St Trigger.Closure) (before after : History) :
  Tracked st ->
  Tracked (withCalls st
             (before ++ map CloseReceiver (JsMap.values (Trigger.activeReceivers (local st)))
                     ++ after) []).
Proof.
  intros [Hlost Hnone]. split; [|split; [reflexivity | intros k r []]].
  intros n Hn. apply (@accountedFor_mono st); auto.
  - apply incl_refl.
  - intros r Hr. right. simpl.
    rewrite !closedReceivers_app, closedReceivers_closes.
    apply in_or_app. right. apply in_or_app. right. apply in_or_app. now left.
  - simpl. rewrite closedReceivers_app. now apply incl_appl, incl_refl.
Qed.

Lemma keeps_same {A} (m : M Trigger.Closure A) :
  (forall st, snd (m st) = st) -> Keeps m.
Proof. intros H st Hst. now rewrite H. Qed.

Lemma keeps_call {A} (c : Call) (reply : History -> Reply A) : Keeps (call c reply).
Proof.
  intros st Hst. pose proof (tracked_calls [c] Hst) as H.
  unfold withCalls in H. unfold call. simpl. destruct st as [h n [rs act]]. exact H.
Qed.

Lemma keeps_bind {A B} (m : M Trigger.Closure A) (k : A -> M Trigger.Closure B) :
  Keeps m -> (forall a, Keeps (k a)) -> Keeps (bind m k).
Proof.
  intros Hm Hk st H. unfold bind. specialize (Hm st H).
  destruct (m st) as [[a|e] st']; simpl in *; [now apply Hk | exact Hm].
Qed.

Lemma keeps_try_catch {A} (m : M Trigger.Closure A) (h : Exn -> M Trigger.Closure A) :
  Keeps m -> (forall e, Keeps (h e)) -> Keeps (try_catch m h).
Proof.
  intros Hm Hh st H. unfold try_catch. specialize (Hm st H).
  destruct (m st) as [[a|e] st']; simpl in *; [exact Hm | now apply Hh].
Qed.

Lemma keeps_forEach {A} (f : A -> M Trigger.Closure unit) (xs : list A) :
  (forall x, Keeps (f x)) -> Keeps (forEach f xs).
Proof.
  intros Hf. induction xs as [|x xs IH]; simpl.
  - now apply keeps_same.
  - apply keeps_bind; auto.
Qed.

Lemma keeps_getOrCreate : Keeps (Trigger.getOrCreateSessionReceiver env cfg).
Proof.
  intros st Hst. unfold Trigger.getOrCreateSessionReceiver, Trigger.managerInitialized.
  destruct (Trigger.sessionMode cfg =? "none")%string eqn:Enone; [exact Hst|].
  cbn [negb].
  destruct (Trigger.sessionMode cfg =? "specific")%string.
  - unfold_trigger. simpl.
    destruct (JsMap.get _ _) eqn:Hget; [exact Hst|]. simpl.
    destruct (acceptSession_reply env (trace st) _ _); simpl.
    + destruct Hst as [Hlost Hnone]. split.
      * intros n Hn. unfold created in Hn. simpl in Hn.
        assert (Hcase : (n < nextRid st)%nat \/ n = nextRid st) by lia.
        destruct Hcase as [Hold | ->].
        -- apply (@accountedFor_mono st); auto; simpl.
           ++ apply incl_refl.
           ++ intros r Hr. left. rewrite values_set_fresh by exact Hget.
              apply in_or_app. now left.
           ++ rewrite closedReceivers_app. now apply incl_appl, incl_refl.
        -- right; left. simpl. rewrite values_set_fresh by exact Hget.
           rewrite map_app. apply in_or_app. right. now left.
      * split; [intros Hmode; rewrite Hmode in Enone; discriminate Enone|].
        intros k r Hin. simpl in Hin.
        destruct (in_set _ _ _ _ _ Hin) as [[-> _]|Hold]; [reflexivity|].
        exact (proj2 Hnone _ _ Hold).
    + apply (@keeps_call unit _ (fun _ => Done tt) st Hst).
  - destruct (Trigger.sessionMode cfg =? "any")%string eqn:Eany; [|exact Hst].
    apply String.eqb_eq in Eany. contradiction.
Qed.

Lemma keeps_createReceivers : Keeps (Trigger.createReceivers cfg).
Proof.
  intros st [Hlost Hnone]. unfold Trigger.createReceivers.
  destruct (Trigger.sessionMode cfg =? "none")%string; [|split; assumption].
  unfold createReceiver, newReceiver. unfold_monad. simpl. split; [|exact Hnone].
  intros n Hn. unfold created in Hn. simpl in Hn.
  assert (Hcase : (n < nextRid st)%nat \/ n = nextRid st) by lia.
  destruct Hcase as [Hold | ->].
  - apply (@accountedFor_mono st); auto; simpl.
    + now apply incl_appl, incl_refl.
    + rewrite closedReceivers_app. now apply incl_appl, incl_refl.
  - left. simpl. rewrite map_app. apply in_or_app. right. now left.
Qed.

Lemma keeps_processError : Keeps (Trigger.processError env cfg).
Proof.
  intros st Hst. rewrite processError_run.
  destruct (negb (Trigger.sessionMode cfg =? "none")%string); simpl; [|exact Hst].
  pose proof (@tracked_cleared st [] [] Hst) as H. simpl in H.
  now rewrite app_nil_r in H.
Qed.

Lemma keeps_sessionProcessError (r : Receiver) :
  Keeps (Trigger.sessionProcessError env cfg r).
Proof.
  intros st Hst. unfold Trigger.sessionProcessError. unfold bind at 1.
  pose proof (keeps_processError Hst) as Herr. rewrite processError_run in *.
  destruct (negb (Trigger.sessionMode cfg =? "none")%string) eqn:Emode; simpl in *.
  - exact Herr.
  - assert (Hempty : Trigger.activeReceivers (local st) = []).
    { apply (proj1 (proj2 Hst)). apply String.eqb_eq.
      now destruct (Trigger.sessionMode cfg =? "none")%string. }
    unfold_trigger. rewrite Hempty. simpl. exact Hst.
Qed.

Lemma keeps_processMessage (m : Message) (r : Receiver) :
  Keeps (Trigger.processMessage env cfg m r).
Proof.
  unfold Trigger.processMessage.
  apply keeps_bind; [now apply keeps_same | intros messageBody].
  apply keeps_bind; [now apply keeps_same | intros receivedAt].
  apply keeps_bind; [|intros json; apply keeps_call].
  destruct (sessionId r); [|now apply keeps_same].
  destruct (negb (Trigger.sessionMode cfg =? "none")%string); [|now apply keeps_same].
  apply keeps_try_catch; [|intros e; now apply keeps_same].
  apply keeps_bind; [apply keeps_call | intros v; now apply keeps_same].
Qed.

Lemma keeps_sessionLoopBody : Keeps (Trigger.sessionLoopBody env cfg).
Proof.
  unfold Trigger.sessionLoopBody. apply keeps_try_catch.
  - apply keeps_bind; [apply keeps_getOrCreate | intros r].
    apply keeps_bind; [apply keeps_call | intros _].
    destruct (Trigger.sessionMode cfg =? "specific")%string; [now apply keeps_same|].
    apply keeps_bind; [apply keeps_call | intros _; now apply keeps_same].
  - intros e. apply keeps_bind; [apply keeps_call | intros _; now apply keeps_same].
Qed.

Lemma keeps_start :
  Keeps (Trigger.createReceivers cfg ;; Trigger.subscribePlain env cfg).
Proof.
  apply keeps_bind; [apply keeps_createReceivers | intros _].
  unfold Trigger.subscribePlain.
  apply keeps_bind; [now apply keeps_same | intros cl].
  apply keeps_forEach. intros r. apply keeps_call.
Qed.

Lemma keeps_closeFunction : Keeps (Trigger.closeFunction env cfg).
Proof.
  intros st Hst.
  destruct (closeFunction_once env cfg st) as (k & reached & -> & _ & _).
  cbn [snd]. unfold shutdownCalls.
  destruct (reached && Trigger.managerInitialized cfg).
  - apply tracked_cleared. exact Hst.
  - now apply tracked_calls.
Qed.

Lemma perform_keeps (st : St Trigger.Closure) (op : Op) :
  Tracked st -> Tracked (perform env cfg st op).
Proof.
  intros H. destruct op; simpl.
  - now apply keeps_start.
  - now apply keeps_getOrCreate.
  - now apply keeps_sessionLoopBody.
  - now apply keeps_processMessage.
  - now apply keeps_processError.
  - now apply keeps_sessionProcessError.
  - now apply keeps_closeFunction.
Qed.

Lemma runOps_tracked (ops : list Op) : Tracked (runOps env cfg ops).
Proof.
  unfold runOps.
  assert (H0 : Tracked Trigger.initial).
  { split; [|split; [reflexivity | intros k r []]].
    intros n Hn. unfold created in Hn. simpl in Hn. lia. }
  revert H0. generalize Trigger.initial.
  induction ops as [|op ops IH]; simpl; intros st H; auto.
  apply IH. now apply perform_keeps.
Qed.

(** Outside the 'any' mode an open session receiver is a registered one,
    and the registry has one key at most. *)
Lemma runOps_open_registered (ops : list Op) :
  let st := runOps env cfg ops in
  (List.length (openSessionReceivers st) <= 1)%nat
  /\ forall n, In n (openSessionReceivers st) ->
               In n (map rid (JsMap.values (Trigger.activeReceivers (local st)))).
Proof.
  intros st. destruct (runOps_tracked ops) as (Hlost & _ & Hkey).
  pose proof (runOps_ok env cfg ops) as Hok. fold st in Hlost, Hkey, Hok.
  assert (Hreg : forall n, In n (openSessionReceivers st) ->
            In n (map rid (JsMap.values (Trigger.activeReceivers (local st))))).
  { intros n Hn. unfold openSessionReceivers in Hn. apply filter_In in Hn.
    destruct Hn as [Hseq Hopen]. apply in_seq in Hseq.
    apply andb_true_iff in Hopen. destruct Hopen as [Hplain Hclosed].
    assert (Hnot : forall l, negb (existsb (Nat.eqb n) l) = true -> ~ In n l).
    { intros l Hl Hin. apply negb_true_iff in Hl.
      assert (Hex : existsb (Nat.eqb n) l = true).
      { apply existsb_exists. exists n. split; [exact Hin | apply Nat.eqb_refl]. }
      rewrite Hl in Hex. discriminate Hex. }
    destruct (Hlost n) as [H|[H|H]]; [unfold created; lia | | exact H |].
    - elim (Hnot _ Hplain H).
    - elim (Hnot _ Hclosed H). }
  split; [|exact Hreg].
  assert (Hone : (List.length (Trigger.activeReceivers (local st)) <= 1)%nat).
  { pose proof (keys_unique Hok) as Hnd. unfold JsMap.keys in Hnd.
    destruct (Trigger.activeReceivers (local st)) as [|[k1 r1] [|[k2 r2] rest]];
      simpl; try lia.
    exfalso. inversion Hnd as [|? ? Hn _]; subst. apply Hn. left.
    rewrite (Hkey k1 r1), (Hkey k2 r2); simpl; auto. }
  apply Nat.le_trans
    with (List.length (map rid (JsMap.values (Trigger.activeReceivers (local st))))).
  - apply NoDup_incl_length; [|exact Hreg].
    unfold openSessionReceivers. apply NoDup_filter, seq_NoDup.
  - unfold JsMap.values. now rewrite !length_map.
Qed.

(** X16.  Outside the 'any' mode the trigger never loses a receiver: after
    any sequence of its operations (start-up, acceptances, loop passes,
    deliveries, errors on either kind of subscription, shutdown), every
    receiver created so far is in the [receivers] array, is registered, or has
    had [close] called on it. *)
Theorem no_receiver_lost (ops : list Op) : NoneLost (runOps env cfg ops).
Proof. exact (proj1 (runOps_tracked ops)). Qed.

(** X17.  Outside the 'any' mode, and with a broker that answers every
    [close], the shutdown leaves no receiver open: after any sequence of
    operations, once [closeFunction] has run, [close] has been called on every
    receiver the trigger ever created, and the connection has been closed. *)
Theorem shutdown_closes_every_receiver (ops : list Op) :
  (forall h r, closeReceiver_reply env h r = Done tt) ->
  let st := runOps env cfg ops in
  let final := snd (Trigger.closeFunction env cfg st) in
  (forall n, created st n -> In n (map rid (closedReceivers (trace final))))
  /\ In CloseClient (newCalls st final).
Proof.
  intros Hclose st final.
  destruct (runOps_tracked ops) as (Hlost & Hnone & _). fold st in Hlost, Hnone.
  assert (Hrun : final
                 = withCalls st
                     (shutdownCalls (Trigger.receivers (local st))
                        (JsMap.values (Trigger.activeReceivers (local st))) true)
                     (if Trigger.managerInitialized cfg then []
                      else Trigger.activeReceivers (local st))).
  { subst final. unfold Trigger.closeFunction. unfold try_catch. unfold bind at 1.
    unfold getLocal at 1. cbn beta iota. unfold bind at 1.
    rewrite (closePlain_all env (Trigger.receivers (local st)) Hclose).
    unfold bind at 1. unfold Trigger.managerInitialized in *.
    destruct (Trigger.sessionMode cfg =? "none")%string eqn:Enone; cbn [negb].
    - apply String.eqb_eq in Enone. rewrite (Hnone Enone).
      unfold ret at 1. unfold closeClient, call. cbn.
      unfold withCalls, shutdownCalls. cbn. rewrite <- ?app_assoc.
      destruct (closeClient_reply env _) as [[]|msg]; reflexivity.
    - unfold Trigger.getActive, Trigger.setActive. unfold_monad. cbn beta iota.
      rewrite (closeEach_all env cfg).
      cbn [fst snd local Trigger.activeReceivers withCalls].
      unfold closeClient, call. cbn.
      unfold withCalls, shutdownCalls, JsMap.clear. cbn. rewrite <- !app_assoc.
      destruct (closeClient_reply env _) as [[]|msg]; reflexivity. }
  split.
  - intros n Hn. rewrite Hrun. cbn [trace withCalls].
    rewrite closedReceivers_app, closedReceivers_shutdownCalls, !map_app.
    destruct (Hlost n Hn) as [H|[H|H]]; apply in_or_app.
    + right. apply in_or_app. now left.
    + right. apply in_or_app. now right.
    + now left.
  - rewrite Hrun. unfold newCalls, withCalls. cbn [trace].
    rewrite skipn_length_app. unfold shutdownCalls.
    apply in_or_app. right. apply in_or_app. right. now left.
Qed.

End NoneLostFacts.

(** C8, as the code has it.  After any sequence of operations of a trigger
    (start-up, specific-session or next-session acceptance, session loop
    passes, deliveries, errors on either kind of subscription, shutdown) the
    registry holds at most one receiver for each session id.  Outside the
    'any' mode at most one session receiver is open at any time, open meaning
    created with [close] never called on it, and it is a registered one: so
    an insertion never leaves a second open receiver for a session id. *)
Theorem registry_one_live_receiver
    {rt : NodeRuntime} (env : Env) (cfg : Trigger.Config) (ops : list Op) (sid : string) :
  let st := runOps env cfg ops in
  (List.length (registeredUnder sid st) <= 1)%nat
  /\ NoDup (JsMap.keys (Trigger.activeReceivers (local st)))
  /\ (Trigger.sessionMode cfg <> "any"%string ->
      (List.length (openSessionReceivers st) <= 1)%nat
      /\ forall n, In n (openSessionReceivers st) ->
                   In n (map rid (JsMap.values (Trigger.activeReceivers (local st))))).
Proof.
  intros st. pose proof (runOps_ok env cfg ops) as H. fold st in H.
  split; [|split].
  - unfold registeredUnder. rewrite length_map.
    apply unique_key_one_entry. apply (keys_unique H).
  - apply (keys_unique H).
  - intros Hmode. exact (@runOps_open_registered rt env cfg Hmode ops).
Qed.

Lemma registry_one_live_receiver_witness :
  let cfg := Samples.triggerCfg "specific" true in
  let st := runOps (rt := nodeModel) Samples.happy cfg
                   [OpLoopPass; OpSessionError (Samples.sessionReceiver 0 "S1");
                    OpLoopPass] in
  nextRid st = 2%nat
  /\ openSessionReceivers st = [1%nat]
  /\ (List.length (openSessionReceivers st) <= 1)%nat.
Proof.
  intros cfg st. split; [reflexivity|]. split; [reflexivity|].
  refine (proj1 (proj2 (proj2 (@registry_one_live_receiver nodeModel Samples.happy cfg
                                 [OpLoopPass;
                                  OpSessionError (Samples.sessionReceiver 0 "S1");
                                  OpLoopPass] "S1")) _)).
  discriminate.
Defined.

(** C8 as stated fails in the 'any' mode: when the broker hands out the same
    session id twice, the second acceptance takes the place of the first in
    the registry and nothing closes the first receiver, so two receivers of
    one session id are open. *)
Lemma any_mode_two_open_receivers :
  let cfg := Samples.triggerCfg "any" true in
  let first := Trigger.getOrCreateSessionReceiver Samples.happy cfg Trigger.initial in
  let second := Trigger.getOrCreateSessionReceiver Samples.happy cfg (snd first) in
  let st := runOps (rt := nodeModel) Samples.happy cfg [OpAccept; OpAccept] in
  snd second = st
  /\ fst first = Ok (Samples.sessionReceiver 0 "S-next")
  /\ fst second = Ok (Samples.sessionReceiver 1 "S-next")
  /\ closedReceivers (trace st) = []
  /\ openSessionReceivers st = [0%nat; 1%nat]
  /\ registeredUnder "S-next" st = [Samples.sessionReceiver 1 "S-next"].
Proof. repeat split. Qed.

Lemma no_receiver_lost_witness :
  NoneLost (runOps (rt := nodeModel) Samples.happy (Samples.triggerCfg "specific" true)
                   [OpLoopPass; OpSessionError (Samples.sessionReceiver 0 "S1");
                    OpLoopPass; OpDeliver (Samples.message "m1" (JStr "hello"))
                                          (Samples.sessionReceiver 1 "S1")]).
Proof.
  apply (@no_receiver_lost nodeModel Samples.happy (Samples.triggerCfg "specific" true)).
  discriminate.
Defined.

Lemma shutdown_closes_every_receiver_witness :
  let cfg := Samples.triggerCfg "specific" true in
  let st := runOps (rt := nodeModel) Samples.happy cfg [OpLoopPass; OpError; OpLoopPass] in
  let final := snd (Trigger.closeFunction Samples.happy cfg st) in
  nextRid st = 2%nat
  /\ (forall n, created st n -> In n (map rid (closedReceivers (trace final))))
  /\ In CloseClient (newCalls st final).
Proof.
  intros cfg st final. split; [reflexivity|].
  apply (@shutdown_closes_every_receiver nodeModel Samples.happy cfg).
  - discriminate.
  - reflexivity.
Defined.

Lemma keys_set_present {V} (k : string) (v v0 : V) (m : JsMap.t V) :
  JsMap.get k m = Some v0 -> JsMap.keys (JsMap.set k v m) = JsMap.keys m.
Proof.
  unfold JsMap.keys. induction m as [|[k' v'] m IH]; simpl; [discriminate|].
  destruct (k =? k')%string eqn:E; simpl.
  - apply String.eqb_eq in E. now subst.
  - intros H. now rewrite IH.
Qed.

(** X18.  In the 'any' mode, when the broker hands out a session id the
    registry already holds, the new receiver takes the place of the old one
    under that key: the registry keeps its keys, the old receiver is no longer
    registered, and the pass makes no call but the acceptance, so [close] is
    not called on the receiver that was replaced. *)
Theorem any_mode_replaces_unclosed
    (env : Env) (cfg : Trigger.Config) (st : St Trigger.Closure)
    (sid : string) (old : Receiver) :
  Trigger.sessionMode cfg = "any"%string ->
  acceptNextSession_reply env (trace st) (Trigger.entity cfg) = Done sid ->
  JsMap.get sid (Trigger.activeReceivers (local st)) = Some old ->
  let run := Trigger.getOrCreateSessionReceiver env cfg st in
  let fresh := {| rid := nextRid st; sessionId := Some sid |} in
  fst run = Ok fresh
  /\ JsMap.get sid (Trigger.activeReceivers (local (snd run))) = Some fresh
  /\ JsMap.keys (Trigger.activeReceivers (local (snd run)))
     = JsMap.keys (Trigger.activeReceivers (local st))
  /\ Trigger.receivers (local (snd run)) = Trigger.receivers (local st)
  /\ newCalls st (snd run)
     = [AcceptNextSession (Trigger.entity cfg) (Trigger.sessionTimeout cfg * 1000)].
Proof.
  intros Hmode Hreply Hget run fresh. subst run.
  unfold Trigger.getOrCreateSessionReceiver, Trigger.managerInitialized.
  rewrite Hmode. cbn [String.eqb Ascii.eqb Bool.eqb negb].
  unfold_trigger. rewrite Hreply. cbn [fst snd trace nextRid local sessionId
                                       Trigger.activeReceivers Trigger.receivers].
  fold fresh. split; [reflexivity|]. split; [apply get_set_same|].
  split; [now apply keys_set_present with (v0 := old)|]. split; [reflexivity|].
  unfold newCalls. cbn [trace]. apply skipn_length_app.
Qed.

Lemma any_mode_replaces_unclosed_witness :
  let cfg := Samples.triggerCfg "any" true in
  let st := snd (Trigger.getOrCreateSessionReceiver Samples.happy cfg Trigger.initial) in
  let run := Trigger.getOrCreateSessionReceiver Samples.happy cfg st in
  Trigger.activeReceivers (local st) = [("S-next"%string, Samples.sessionReceiver 0 "S-next")]
  /\ Trigger.activeReceivers (local (snd run))
     = [("S-next"%string, Samples.sessionReceiver 1 "S-next")]
  /\ newCalls st (snd run) = [AcceptNextSession (QueueEntity "orders") 60000]
  /\ ~ accountedFor (snd run) 0.
Proof.
  intros cfg st run.
  destruct (@any_mode_replaces_unclosed Samples.happy cfg st "S-next"
              (Samples.sessionReceiver 0 "S-next") eq_refl eq_refl eq_refl)
    as (_ & _ & _ & _ & Hcalls).
  split; [reflexivity|]. split; [reflexivity|]. split; [exact Hcalls|].
  intros [H|[H|H]]; simpl in H; intuition discriminate.
Defined.

(* ================================================================== *)
(** * A body that cannot be decoded *)
(* ================================================================== *)

(** X19.  A message whose body the normalizer cannot decode (a Buffer-shaped
    object whose data [Buffer.from] rejects) stops a receive without sessions
    where it stands: the messages before it have had their records pushed and,
    under peek-lock, have been completed; the message itself and those after
    it are neither pushed nor completed; the receiver is not closed, and the
    operation throws the decoding error, so the records pushed are not
    returned.  On the trigger, such a delivery throws before anything is
    emitted and before any call. *)
Theorem undecodable_body_stops_receive
    {rt : NodeRuntime} (env : Env) (cfg : Node.Config) (tcfg : Trigger.Config)
    (good : list Message) (bad : Message) (rest : list Message) (e : Exn)
    (items : list Node.Item) (st : St (list JsValue))
    (r : Receiver) (tst : St Trigger.Closure) :
  Node.isSdk cfg = true ->
  Node.resource cfg = "queue"%string ->
  Node.operation cfg = "receiveMessages"%string ->
  (Node.sessionMode cfg =? "specific")%string = false ->
  (Node.sessionMode cfg =? "next")%string = false ->
  (forall h r, receiveMessages_reply env h r = Done (good ++ bad :: rest)) ->
  (forall h r m, completeMessage_reply env h r m = Done tt) ->
  (forall h, closeClient_reply env h = Done tt) ->
  Forall (fun m => exists b, normalizeBody (body m) = Ok b) good ->
  normalizeBody (body bad) = Throw e ->
  let run := Node.execute env cfg items st in
  fst run = Throw (OperationFailed e)
  /\ completions (newCalls st (snd run))
     = (if (Node.receiveMode cfg =? "peekLock")%string then good else [])
  /\ List.length (local (snd run)) = (List.length (local st) + List.length good)%nat
  /\ closedReceivers (newCalls st (snd run)) = []
  /\ Trigger.processMessage env tcfg bad r tst = (Throw e, tst).
Proof.
  intros sdk queue receive Hspecific Hnext delivers completes disconnects Hgood Hbad run.
  subst run.
  assert (Hloop : forall receiver st0,
            forEach (Node.receiveOne env cfg receiver false None JNull)
                    (good ++ bad :: rest) st0
            = (Throw e, withRecords st0
                          (flat_map (passCalls cfg receiver false None JNull) good)
                          (map (batchRecord false None JNull) good))).
  { clear delivers. intros receiver. induction Hgood as [|m ms Hm Hms IH]; intros st0.
    - cbn [app forEach flat_map map]. unfold bind, Node.receiveOne.
      unfold_monad. rewrite Hbad. now rewrite withRecords_nil.
    - cbn [app forEach flat_map map]. unfold bind.
      rewrite (@receiveOne_run rt env cfg completes) by exact Hm.
      rewrite IH, withRecords_withRecords. reflexivity. }
  assert (Htrigger : Trigger.processMessage env tcfg bad r tst = (Throw e, tst)).
  { unfold Trigger.processMessage. unfold_monad. now rewrite Hbad. }
  split; [|split; [|split; [|split; [|exact Htrigger]]]].
  all: unfold Node.execute, Node.dispatch; rewrite queue, receive;
    cbn [String.eqb Ascii.eqb Bool.eqb];
    unfold Node.receiveMessages, Node.openReceiver, Node.readSessionState,
      Node.writeSessionState;
    rewrite sdk, Hspecific, Hnext;
    unfold createReceiver, newReceiver, receiveBatch, closeReceiver, closeClient;
    unfold_monad; cbv beta; cbn [andb negb fst snd trace nextRid local];
    rewrite delivers, Hloop; unfold withRecords;
    cbn [fst snd trace nextRid local]; rewrite disconnects;
    cbn [fst snd trace nextRid local].
  - reflexivity.
  - unfold newCalls. cbn [trace]. rewrite <- ?app_assoc, skipn_length_app.
    cbn [app completions]. rewrite completions_app, completions_passCalls.
    cbn [completions]. now rewrite app_nil_r.
  - now rewrite length_app, length_map.
  - unfold newCalls. cbn [trace]. rewrite <- ?app_assoc, skipn_length_app.
    cbn [app closedReceivers]. rewrite closedReceivers_app.
    destruct (@passCalls_quiet rt cfg {| rid := nextRid st; sessionId := None |}
                false None JNull good) as [_ ->].
    reflexivity.
Qed.

Lemma undecodable_body_stops_receive_witness :
  let good := Samples.message "m1" (JStr "hello") in
  let bad := Samples.message "m2" (JObj [("type", JStr "Buffer")]) in
  let last := Samples.message "m3" (JStr "world") in
  let cfg := Samples.nodeCfg "queue" "receiveMessages" "sdk" "none" "peekLock" false in
  let run := Node.execute (rt := nodeModel) (Samples.withBatch false [good; bad; last]) cfg []
                          Node.initial in
  (exists e, fst run = Throw (OperationFailed e))
  /\ completions (trace (snd run)) = [good]
  /\ closedReceivers (trace (snd run)) = [].
Proof.
  intros good bad last cfg run.
  destruct (normalizeBody (rt := nodeModel) (body bad)) as [b|e] eqn:Hbad;
    [discriminate Hbad|].
  destruct (@undecodable_body_stops_receive nodeModel (Samples.withBatch false [good; bad; last])
              cfg (Samples.triggerCfg "none" true) [good] bad [last] e []
              Node.initial (Samples.plainReceiver 0) Trigger.initial
              eq_refl eq_refl eq_refl eq_refl eq_refl (fun _ _ => eq_refl)
              (fun _ _ _ => eq_refl) (fun _ => eq_refl))
    as (Hres & Hdone & _ & Hclosed & _).
  - repeat constructor. eexists. reflexivity.
  - exact Hbad.
  - split; [exists e; exact Hres|]. split; [exact Hdone | exact Hclosed].
Defined.

(* ================================================================== *)
(** * The headers of the HTTP request *)
(* ================================================================== *)

Section HttpFacts.
Context {hr : Http.HttpRuntime}.

Lemma lookup_assign_same (k v : string) (headers : Http.Headers) :
  Conn.lookup k (Conn.assign k v headers) = Some v.
Proof.
  induction headers as [|[k' v'] headers IH]; simpl.
  - now rewrite String.eqb_refl.
  - destruct (k =? k')%string eqn:E; simpl; rewrite ?E, ?String.eqb_refl; auto.
Qed.

Lemma lookup_assign_other (k k' v : string) (headers : Http.Headers) :
  k <> k' -> Conn.lookup k (Conn.assign k' v headers) = Conn.lookup k headers.
Proof.
  intros Hne. induction headers as [|[k0 v0] headers IH]; simpl.
  - destruct (k =? k')%string eqn:E; [apply String.eqb_eq in E; contradiction | reflexivity].
  - destruct (k' =? k0)%string eqn:E0; simpl.
    + apply String.eqb_eq in E0. subst k0.
      destruct (k =? k')%string eqn:E; [apply String.eqb_eq in E; contradiction | reflexivity].
    + destruct (k =? k0)%string; auto.
Qed.

Lemma assoc_absent (k : string) (fields : list (string * JsValue)) :
  ~ In k (map fst fields) -> assoc k fields = None.
Proof.
  induction fields as [|[k' v'] fields IH]; simpl; [reflexivity|].
  intros Hn. destruct (k =? k')%string eqn:E.
  - apply String.eqb_eq in E. subst. exfalso. apply Hn. now left.
  - apply IH. intros Hin. apply Hn. now right.
Qed.

(** Copying a record with distinct keys into the headers. *)
Lemma copy_entries (k : string) (fields : list (string * JsValue)) :
  NoDup (map fst fields) ->
  forall headers,
    Conn.lookup k
      (fold_left (fun headers (entry : string * JsValue) =>
                    Conn.assign (fst entry) (Http.String_of (snd entry)) headers)
                 fields headers)
    = match assoc k fields with
      | Some v => Some (Http.String_of v)
      | None => Conn.lookup k headers
      end.
Proof.
  induction fields as [|[k0 v0] fields IH]; intros Hnd headers; [reflexivity|].
  inversion Hnd as [|? ? Hn Hd]; subst. cbn [fold_left fst snd assoc].
  rewrite IH by exact Hd.
  destruct (k =? k0)%string eqn:E.
  - apply String.eqb_eq in E. subst k0.
    rewrite (assoc_absent _ _ Hn). apply lookup_assign_same.
  - destruct (assoc k fields); [reflexivity|].
    apply lookup_assign_other. intros ->. now rewrite String.eqb_refl in E.
Qed.

Lemma setField_keys (k : string) (v : JsValue) (fields : list (string * JsValue)) (k0 : string) :
  In k0 (map fst (setField k v fields)) -> k0 = k \/ In k0 (map fst fields).
Proof.
  induction fields as [|[k' v'] fields IH]; simpl.
  - intros [H|[]]; auto.
  - destruct (k =? k')%string eqn:E; simpl; intros [H|H]; auto.
    destruct (IH H); auto.
Qed.

Lemma setField_NoDup (k : string) (v : JsValue) (fields : list (string * JsValue)) :
  NoDup (map fst fields) -> NoDup (map fst (setField k v fields)).
Proof.
  induction fields as [|[k' v'] fields IH]; simpl; intros H.
  - constructor; [intros []|constructor].
  - inversion H as [|? ? Hn Hd]; subst.
    destruct (k =? k')%string eqn:E; simpl.
    + apply String.eqb_eq in E. subst. now constructor.
    + constructor; auto. intros Hin.
      destruct (setField_keys _ _ _ _ Hin) as [->|]; auto.
      now rewrite String.eqb_refl in E.
Qed.

Lemma applicationProperties_NoDup (props : list (string * string)) :
  forall acc,
    NoDup (map fst acc) ->
    NoDup (map fst (fold_left
                      (fun acc (kv : string * string) =>
                         if negb (fst kv =? "")%string && negb (snd kv =? "")%string
                         then setField (fst kv) (JStr (snd kv)) acc else acc)
                      props acc)).
Proof.
  induction props as [|[k v] props IH]; intros acc Hacc; [exact Hacc|].
  cbn [fold_left fst snd]. apply IH.
  destruct (negb (k =? "")%string && negb (v =? "")%string); [|exact Hacc].
  now apply setField_NoDup.
Qed.

(** X20.  Over HTTP, every message property of an item becomes a request
    header of the same name, and it is assigned after the headers the node
    sets itself: a property named [Authorization], [Content-Type] or
    [BrokerProperties] replaces the SAS token, the content type or the broker
    properties in the request, and a header no property names keeps the
    node's value.  The key [__proto__], which an assignment does not store,
    is left aside. *)
Theorem message_property_overrides_header
    (time : Z) (d : Conn.ConnectionDetails) (queueName : string)
    (item : Node.Item) (props : list (string * string)) (k : string) :
  Node.messageProperties item = Some props ->
  k <> "__proto__"%string ->
  let message := Node.buildMessage item in
  Http.header k (Http.requestHeaders time d queueName message)
  = match lastValue k props with
    | Some v => Some v
    | None => Http.header k (Http.baseHeaders time d queueName message)
    end.
Proof.
  intros Hprops _ message. subst message.
  assert (Hobj : get_prop (Node.buildMessage item) "applicationProperties"
                 = Node.applicationPropertiesOf props).
  { unfold Node.buildMessage. rewrite Hprops.
    destruct (Node.nonBlank (Node.messageId item));
      destruct (Node.nonBlank (Node.itemSessionId item)); reflexivity. }
  unfold Http.header, Http.requestHeaders. cbv zeta. rewrite Hobj.
  unfold Node.applicationPropertiesOf. cbn [truthy Http.entries].
  rewrite copy_entries by (apply applicationProperties_NoDup; constructor).
  rewrite applicationProperties_assoc. cbn [assoc].
  destruct (lastValue k props) as [v|]; [|reflexivity].
  now rewrite Http.String_of_string.
Qed.

End HttpFacts.

Lemma message_property_overrides_header_witness :
  let item := {| Node.messageBody := JStr "hello";
                 Node.messageProperties :=
                   Some [("Authorization", "none"); ("trace", "on")]%string;
                 Node.contentType := "text/plain";
                 Node.messageId := "";
                 Node.itemSessionId := "" |} in
  let d := {| Conn.hostname := "ns.servicebus.windows.net"; Conn.username := "root";
              Conn.password := "key"; Conn.entityPath := None |} in
  let headers :=
    Http.requestHeaders (hr := Http.exampleRuntime) 0 d "orders" (Node.buildMessage item) in
  Http.header "Authorization" headers = Some "none"%string
  /\ Http.header "Content-Type" headers = Some "text/plain"%string.
Proof.
  intros item d headers. split.
  - apply (@message_property_overrides_header Http.exampleRuntime 0 d "orders" item _
             "Authorization" eq_refl).
    discriminate.
  - apply (@message_property_overrides_header Http.exampleRuntime 0 d "orders" item _
             "Content-Type" eq_refl).
    discriminate.
Defined.

(* ================================================================== *)
(** * The empty-body check in a send as a whole *)
(* ================================================================== *)


Lemma withRecords_same (st : St (list JsValue)) : withRecords st [] [] = st.
Proof. destruct st. unfold withRecords. simpl. now rewrite !app_nil_r. Qed.

Lemma withRecords_more (st : St (list JsValue)) c1 r1 c2 r2 :
  withRecords (withRecords st c1 r1) c2 r2 = withRecords st (c1 ++ c2) (r1 ++ r2).
Proof. unfold withRecords. simpl. now rewrite !app_assoc. Qed.



Section SendRuns.
Context {rt : NodeRuntime} (env : Env) (cfg : Node.Config).














End SendRuns.



(* ================================================================== *)
(** * The one-shot receive, step by step *)
(* ================================================================== *)

(** The calls a state has beyond another hold no [close]. *)
Lemma closedReceivers_none (calls : History) :
  Forall (fun c => isClose c = false) calls -> closedReceivers calls = [].
Proof.
  induction 1 as [|c calls Hc _ IH]; [reflexivity|].
  destruct c; simpl in *; auto; discriminate Hc.
Qed.

Lemma completions_none (calls : History) :
  Forall (fun c => match c with CompleteMessage _ _ => False | _ => True end) calls ->
  completions calls = [].
Proof.
  induction 1 as [|c calls Hc _ IH]; [reflexivity|].
  destruct c; simpl in *; auto; contradiction.
Qed.

Section ReceiveSteps.
Context {rt : NodeRuntime} (env : Env) (cfg : Node.Config).

(** One pass of the loop, by what the normalizer and the broker answer. *)
Lemma receiveOne_cases (receiver : Receiver) (isSessionReceiver : bool)
      (sid : option string) (state : JsValue) (m : Message) (st : St (list JsValue)) :
  Node.receiveOne env cfg receiver isSessionReceiver sid state m st
  = match normalizeBody (body m) with
    | Throw e => (Throw e, st)
    | Ok _ =>
        (if (Node.receiveMode cfg =? "peekLock")%string
         then match completeMessage_reply env
                      (trace st ++ [Push (batchRecord isSessionReceiver sid state m)])
                      receiver m with
              | Done _ => Ok tt
              | Fail msg => Throw (SdkError msg)
              end
         else Ok tt,
         withRecords st (passCalls cfg receiver isSessionReceiver sid state m)
                     [batchRecord isSessionReceiver sid state m])
    end.
Proof.
  unfold Node.receiveOne, passCalls, batchRecord, batchSessionInfo.
  unfold Node.pushReturn, completeMessage. unfold_monad.
  destruct (normalizeBody (body m)) as [b|e]; [|reflexivity]. cbv beta.
  unfold withRecords. cbn [fst snd trace nextRid local].
  destruct (Node.receiveMode cfg =? "peekLock")%string.
  - destruct (completeMessage_reply env _ receiver m) as [[]|msg];
      cbn; now rewrite <- app_assoc.
  - reflexivity.
Qed.

(** Where the loop stops, by what the normalizer and the broker answer: the
    first [k] passes go through, and either the batch is done or pass [k]
    throws, before any call when the body does not normalize and after its
    two calls when the completion is what throws. *)
Lemma receiveLoop_stops (receiver : Receiver) (isSessionReceiver : bool)
      (sid : option string) (state : JsValue) (messages : list Message) :
  forall st : St (list JsValue),
  let loop :=
    forEach (Node.receiveOne env cfg receiver isSessionReceiver sid state) messages st in
  let calls := passCalls cfg receiver isSessionReceiver sid state in
  let record := batchRecord isSessionReceiver sid state in
  exists k,
    (k <= List.length messages)%nat
    /\ (forall i m, (i < k)%nat -> nth_error messages i = Some m ->
          passGoesThrough env cfg receiver isSessionReceiver sid state
            (beforePass cfg receiver isSessionReceiver sid state (trace st) messages i) m)
    /\ ((k = List.length messages
         /\ loop = (Ok tt, withRecords st (flat_map calls messages) (map record messages)))
        \/ exists m e,
             nth_error messages k = Some m
             /\ ((normalizeBody (body m) = Throw e
                  /\ loop = (Throw e, withRecords st (flat_map calls (firstn k messages))
                                                  (map record (firstn k messages))))
                 \/ ((Node.receiveMode cfg =? "peekLock")%string = true
                     /\ (exists b, normalizeBody (body m) = Ok b)
                     /\ exists msg,
                          completeMessage_reply env
                            (beforePass cfg receiver isSessionReceiver sid state
                                        (trace st) messages k ++ [Push (record m)])
                            receiver m = Fail msg
                          /\ e = SdkError msg
                          /\ loop
                             = (Throw e,
                                withRecords st (flat_map calls (firstn (S k) messages))
                                            (map record (firstn (S k) messages)))))).
Proof.
  induction messages as [|m0 rest IH]; intros st loop calls record; subst loop.
  - exists 0%nat. split; [simpl; lia|]. split; [intros i m Hi; lia|].
    left. split; [reflexivity|]. simpl. unfold ret. now rewrite withRecords_same.
  - cbn [forEach]. unfold bind. rewrite receiveOne_cases.
    destruct (normalizeBody (body m0)) as [b0|e0] eqn:Hnorm.
    + fold (calls m0) (record m0).
      set (st1 := withRecords st (calls m0) [record m0]).
      assert (Hstop : forall msg,
                (Node.receiveMode cfg =? "peekLock")%string = true ->
                completeMessage_reply env (trace st ++ [Push (record m0)]) receiver m0
                = Fail msg ->
                exists m e,
                  nth_error (m0 :: rest) 0 = Some m
                  /\ ((normalizeBody (body m) = Throw e
                       /\ (@Throw unit (SdkError msg), st1)
                          = (Throw e, withRecords st (flat_map calls (firstn 0 (m0 :: rest)))
                                                  (map record (firstn 0 (m0 :: rest)))))
                      \/ ((Node.receiveMode cfg =? "peekLock")%string = true
                          /\ (exists b, normalizeBody (body m) = Ok b)
                          /\ exists msg0,
                               completeMessage_reply env
                                 (beforePass cfg receiver isSessionReceiver sid state
                                             (trace st) (m0 :: rest) 0 ++ [Push (record m)])
                                 receiver m = Fail msg0
                               /\ e = SdkError msg0
                               /\ (@Throw unit (SdkError msg), st1)
                                  = (Throw e,
                                     withRecords st
                                       (flat_map calls (firstn 1 (m0 :: rest)))
                                       (map record (firstn 1 (m0 :: rest))))))).
      { intros msg Hmode Hfail. exists m0, (SdkError msg). split; [reflexivity|].
        right. split; [exact Hmode|]. split; [eauto|]. exists msg.
        unfold beforePass. cbn [firstn flat_map map]. rewrite !app_nil_r.
        split; [exact Hfail|]. split; reflexivity. }
      assert (Hgo : (if (Node.receiveMode cfg =? "peekLock")%string
                     then match completeMessage_reply env (trace st ++ [Push (record m0)])
                                  receiver m0 with
                          | Done _ => Ok tt
                          | Fail msg => Throw (SdkError msg)
                          end
                     else Ok tt) = Ok tt ->
                    passGoesThrough env cfg receiver isSessionReceiver sid state
                                    (trace st) m0).
      { intros H. split; [eauto|]. intros Hmode. fold (record m0).
        rewrite Hmode in H.
        destruct (completeMessage_reply env _ receiver m0) as [[]|msg];
          [reflexivity | discriminate H]. }
      destruct (if (Node.receiveMode cfg =? "peekLock")%string
                then match completeMessage_reply env (trace st ++ [Push (record m0)])
                             receiver m0 with
                     | Done _ => Ok tt
                     | Fail msg => Throw (SdkError msg)
                     end
                else Ok tt) as [[]|e1] eqn:Hpass.
      * specialize (Hgo eq_refl).
        destruct (IH st1) as (k & Hk & Hbefore & Hcases).
        assert (Hshift : forall i,
                  beforePass cfg receiver isSessionReceiver sid state (trace st1) rest i
                  = beforePass cfg receiver isSessionReceiver sid state (trace st)
                               (m0 :: rest) (S i)).
        { intros i. unfold beforePass, st1. cbn [trace withRecords firstn flat_map].
          fold calls. now rewrite <- !app_assoc. }
        exists (S k). split; [simpl; lia|]. split.
        -- intros i m Hi Hnth. destruct i as [|i].
           ++ simpl in Hnth. inversion Hnth; subst m.
              unfold beforePass. cbn [firstn flat_map]. now rewrite app_nil_r.
           ++ simpl in Hnth. rewrite <- Hshift. apply Hbefore; [lia | exact Hnth].
        -- destruct Hcases as [[-> Hloop]|(m & e & Hnth & Hcase)].
           ++ left. split; [reflexivity|]. rewrite Hloop. unfold st1.
              rewrite withRecords_more. reflexivity.
           ++ right. exists m, e. split; [exact Hnth|].
              destruct Hcase as [[Hthrow Hloop]|(Hmode & Hb & msg & Hfail & He & Hloop)].
              ** left. split; [exact Hthrow|]. rewrite Hloop. unfold st1.
                 rewrite withRecords_more. reflexivity.
              ** right. split; [exact Hmode|]. split; [exact Hb|]. exists msg.
                 rewrite <- Hshift. split; [exact Hfail|]. split; [exact He|].
                 rewrite Hloop. unfold st1. rewrite withRecords_more. reflexivity.
      * exists 0%nat. split; [simpl; lia|]. split; [intros i m Hi; lia|]. right.
        destruct (Node.receiveMode cfg =? "peekLock")%string eqn:Hmode;
          [|discriminate Hpass].
        destruct (completeMessage_reply env (trace st ++ [Push (record m0)]) receiver m0)
          as [[]|msg] eqn:Hreply; [discriminate Hpass|].
        inversion Hpass; subst e1. exact (Hstop msg eq_refl eq_refl).
    + exists 0%nat. split; [simpl; lia|]. split; [intros i m Hi; lia|].
      right. exists m0, e0. split; [reflexivity|]. left. split; [exact Hnorm|].
      cbn [firstn flat_map map]. now rewrite withRecords_same.
Qed.

(** How the receiver is opened. *)
Lemma openReceiver_calls (st : St (list JsValue)) :
  trace (snd (Node.openReceiver env cfg st)) = trace st ++ [openingCall cfg]
  /\ local (snd (Node.openReceiver env cfg st)) = local st
  /\ (forall receiver sid,
        fst (Node.openReceiver env cfg st) = Ok (receiver, true, sid) ->
        (Node.sessionMode cfg =? "none")%string = false).
Proof.
  unfold Node.openReceiver, openingCall, acceptSession, acceptNextSession, createReceiver,
    newReceiver.
  unfold_monad.
  destruct (Node.sessionMode cfg =? "specific")%string eqn:Especific;
    [|destruct (Node.sessionMode cfg =? "next")%string eqn:Enext].
  - apply String.eqb_eq in Especific.
    destruct (acceptSession_reply env (trace st) _ _); simpl;
      (split; [reflexivity|]); (split; [reflexivity|]); intros receiver sid H;
      try discriminate H; now rewrite Especific.
  - apply String.eqb_eq in Enext.
    destruct (acceptNextSession_reply env (trace st) _); simpl;
      (split; [reflexivity|]); (split; [reflexivity|]); intros receiver sid H;
      try discriminate H; now rewrite Enext.
  - simpl. split; [reflexivity|]. split; [reflexivity|]. intros receiver sid H.
    discriminate H.
Qed.

(** The state read before the batch never throws; it makes at most the one
    call. *)
Lemma readSessionState_calls (receiver : Receiver) (isSessionReceiver : bool)
      (st : St (list JsValue)) :
  let read := Node.readSessionState env cfg receiver isSessionReceiver st in
  (exists state, fst read = Ok state)
  /\ local (snd read) = local st
  /\ (trace (snd read) = trace st \/ trace (snd read) = trace st ++ [GetSessionState receiver]).
Proof.
  unfold Node.readSessionState, getSessionState. unfold_monad.
  destruct (isSessionReceiver && negb (Node.sessionMode cfg =? "none")%string);
    [|simpl; eauto].
  destruct (Node.manageSessionState cfg); [|simpl; eauto].
  destruct (getSessionState_reply env (trace st) receiver); simpl; eauto.
Qed.

(** What follows the loop: the state update and the [close]. *)
Lemma closing_calls (receiver : Receiver) (isSessionReceiver : bool)
      (st : St (list JsValue)) :
  let closing :=
    (Node.writeSessionState env cfg receiver isSessionReceiver ;;
     closeReceiver env receiver) st in
  local (snd closing) = local st
  /\ exists calls,
       trace (snd closing) = trace st ++ calls
       /\ Forall (fun c => match c with
                           | SetSessionState _ _ | CloseReceiver _ => True
                           | _ => False
                           end) calls.
Proof.
  unfold Node.writeSessionState, setSessionState, closeReceiver. unfold_monad.
  destruct (isSessionReceiver && negb (Node.sessionMode cfg =? "none")%string);
    [destruct (Node.manageSessionState cfg && Node.nonBlank (Node.newSessionState cfg));
     [destruct (JSON_parse (Node.newSessionState cfg)) as [v|];
      [destruct (setSessionState_reply env (trace st) receiver v)|]|]|];
    simpl; (split; [reflexivity|]);
    rewrite <- ?app_assoc;
    first [ eexists [_; _]; split; [reflexivity | repeat constructor]
          | eexists [_]; split; [reflexivity | repeat constructor]
          | exists []; split; [now rewrite app_nil_r | constructor] ].
Qed.

(** [receiveMessages] from the batch on, once the receiver is open. *)
Lemma receiveMessages_shape
      (st st1 st2 : St (list JsValue)) (receiver : Receiver) (isSessionReceiver : bool)
      (sid : option string) (state : JsValue) :
  Node.isSdk cfg = true ->
  Node.openReceiver env cfg st = (Ok (receiver, isSessionReceiver, sid), st1) ->
  Node.readSessionState env cfg receiver isSessionReceiver st1 = (Ok state, st2) ->
  let received :=
    withRecords st2 [ReceiveMessages receiver (Node.maxMessageCount cfg)
                                     (Node.maxWaitTimeInSeconds cfg * 1000)] [] in
  Node.receiveMessages env cfg st
  = match receiveMessages_reply env (trace st2) receiver with
    | Fail msg => (Throw (SdkError msg), received)
    | Done messages =>
        let loop :=
          forEach (Node.receiveOne env cfg receiver isSessionReceiver sid state)
                  messages received in
        match fst loop with
        | Throw e => (Throw e, snd loop)
        | Ok _ =>
            (Node.writeSessionState env cfg receiver isSessionReceiver ;;
             closeReceiver env receiver) (snd loop)
        end
    end.
Proof.
  intros Hsdk Hopen Hread received. subst received.
  unfold Node.receiveMessages. rewrite Hsdk. cbn [negb].
  unfold bind at 1. rewrite Hopen. unfold bind at 1. rewrite Hread.
  unfold bind at 1. unfold receiveBatch, call.
  replace {| trace := trace st2 ++ [ReceiveMessages receiver (Node.maxMessageCount cfg)
                                      (Node.maxWaitTimeInSeconds cfg * 1000)];
             nextRid := nextRid st2; local := local st2 |}
    with (withRecords st2 [ReceiveMessages receiver (Node.maxMessageCount cfg)
                                           (Node.maxWaitTimeInSeconds cfg * 1000)] [])
    by (unfold withRecords; now rewrite app_nil_r).
  destruct (receiveMessages_reply env (trace st2) receiver) as [messages|msg];
    [|reflexivity].
  unfold bind at 1.
  destruct (forEach _ messages _) as [[[]|e] st4]; reflexivity.
Qed.

End ReceiveSteps.

Section ReceiveOutcome.
Context {rt : NodeRuntime} (env : Env) (cfg : Node.Config).

(** A one-shot receive whose receiver opened and whose batch arrived: the
    passes that go through, and where it ends. *)
Lemma receiveMessages_outcome
      (st st1 st2 : St (list JsValue)) (receiver : Receiver) (isSessionReceiver : bool)
      (sid : option string) (state : JsValue) (messages : list Message) :
  Node.isSdk cfg = true ->
  Node.openReceiver env cfg st = (Ok (receiver, isSessionReceiver, sid), st1) ->
  Node.readSessionState env cfg receiver isSessionReceiver st1 = (Ok state, st2) ->
  receiveMessages_reply env (trace st2) receiver = Done messages ->
  let run := Node.receiveMessages env cfg st in
  let received :=
    withRecords st2 [ReceiveMessages receiver (Node.maxMessageCount cfg)
                                     (Node.maxWaitTimeInSeconds cfg * 1000)] [] in
  let calls := passCalls cfg receiver isSessionReceiver sid state in
  let record := batchRecord isSessionReceiver sid state in
  let before :=
    beforePass cfg receiver isSessionReceiver sid state (trace received) messages in
  exists k,
    (k <= List.length messages)%nat
    /\ (forall i m, (i < k)%nat -> nth_error messages i = Some m ->
          passGoesThrough env cfg receiver isSessionReceiver sid state (before i) m)
    /\ ((k = List.length messages
         /\ run = (Node.writeSessionState env cfg receiver isSessionReceiver ;;
                   closeReceiver env receiver)
                    (withRecords received (flat_map calls messages) (map record messages)))
        \/ exists m e,
             nth_error messages k = Some m
             /\ ((normalizeBody (body m) = Throw e
                  /\ run = (Throw e, withRecords received (flat_map calls (firstn k messages))
                                                 (map record (firstn k messages))))
                 \/ ((Node.receiveMode cfg =? "peekLock")%string = true
                     /\ (exists b, normalizeBody (body m) = Ok b)
                     /\ exists msg,
                          completeMessage_reply env (before k ++ [Push (record m)])
                                                receiver m = Fail msg
                          /\ e = SdkError msg
                          /\ run = (Throw e,
                                    withRecords received
                                      (flat_map calls (firstn (S k) messages))
                                      (map record (firstn (S k) messages)))))).
Proof.
  intros Hsdk Hopen Hread Hbatch run received calls record before.
  subst run. rewrite (@receiveMessages_shape _ env cfg st _ _ _ _ _ _ Hsdk Hopen Hread), Hbatch.
  cbv zeta. fold received.
  destruct (receiveLoop_stops env cfg receiver isSessionReceiver sid state messages received)
    as (k & Hk & Hbefore & Hcases).
  exists k. split; [exact Hk|]. split; [exact Hbefore|].
  destruct Hcases as [[Hlen Hloop]|(m & e & Hnth & Hcase)].
  - left. split; [exact Hlen|]. rewrite Hloop. reflexivity.
  - right. exists m, e. split; [exact Hnth|].
    destruct Hcase as [[Hthrow Hloop]|(Hmode & Hb & msg & Hfail & He & Hloop)].
    + left. split; [exact Hthrow|]. rewrite Hloop. reflexivity.
    + right. split; [exact Hmode|]. split; [exact Hb|]. exists msg.
      split; [exact Hfail|]. split; [exact He|]. rewrite Hloop. reflexivity.
Qed.

(** Only the passes of the loop complete messages. *)
Lemma completions_receive (receiver : Receiver) (read passes closing : History)
      (maxCount waitMs : Z) :
  read = [] \/ read = [GetSessionState receiver] ->
  Forall (fun c => match c with
                   | SetSessionState _ _ | CloseReceiver _ => True
                   | _ => False
                   end) closing ->
  completions ([openingCall cfg] ++ read ++ [ReceiveMessages receiver maxCount waitMs]
                 ++ passes ++ closing)
  = completions passes.
Proof.
  intros Hread Hclosing. rewrite !completions_app.
  assert (H1 : completions [openingCall cfg] = []).
  { unfold openingCall.
    destruct (Node.sessionMode cfg =? "specific")%string; [reflexivity|].
    destruct (Node.sessionMode cfg =? "next")%string; reflexivity. }
  assert (H2 : completions read = []) by (destruct Hread as [-> | ->]; reflexivity).
  assert (H3 : completions closing = []).
  { apply completions_none. eapply Forall_impl; [|exact Hclosing].
    intros c Hc. destruct c; auto. }
  rewrite H1, H2, H3. simpl. now rewrite app_nil_r.
Qed.

(** No step of the receive before its last calls [close]. *)
Lemma receive_steps_quiet (receiver : Receiver) (isSessionReceiver : bool)
      (sid : option string) (state : JsValue) (messages : list Message) :
  Emits (fun c => isClose c = false) (Node.openReceiver env cfg)
  /\ Emits (fun c => isClose c = false)
           (Node.readSessionState env cfg receiver isSessionReceiver)
  /\ Emits (fun c => isClose c = false)
           (forEach (Node.receiveOne env cfg receiver isSessionReceiver sid state) messages)
  /\ Emits (fun c => isClose c = false)
           (Node.writeSessionState env cfg receiver isSessionReceiver).
Proof.
  repeat split; unfold_node; emits; reflexivity.
Qed.

End ReceiveOutcome.

Lemma quiet_then {L A} (P : Call -> Prop) (m : M L A) (st st' : St L) :
  Emits P m ->
  (exists calls, trace st' = trace st ++ calls /\ Forall P calls) ->
  exists calls, trace (snd (m st')) = trace st ++ calls /\ Forall P calls.
Proof.
  intros Hm (calls & Htr & Hall). destruct (Hm st') as (more & Hmore & Hall').
  exists (calls ++ more). rewrite Hmore, Htr, <- app_assoc. split; [reflexivity|].
  apply Forall_app. split; assumption.
Qed.

Lemma quiet_not_closed {L} (st st' : St L) :
  (exists calls, trace st' = trace st ++ calls /\ Forall (fun c => isClose c = false) calls) ->
  closedReceivers (newCalls st st') = [].
Proof.
  intros (calls & Htr & Hall). rewrite (@newCalls_app _ _ _ _ Htr).
  now apply closedReceivers_none.
Qed.

(** C1, as the code has it.  In a one-shot [receiveMessages] whose receiver
    opened and whose batch arrived, the receiver is opened by one call, which
    passes the receive mode for a plain receiver and no receive mode when a
    session is accepted, so that with a session the parameter only decides
    whether the node calls [completeMessage].  The loop then goes through the
    batch in order: each pass pushes the record and then, under peek-lock
    only, calls [completeMessage] once on that message.  The run stops at the
    first message whose body does not normalize (before any call for it) or,
    under peek-lock, whose completion the broker rejects (after its record
    was pushed); nothing is pushed, completed, written or closed after it,
    and the error is thrown.  When no pass fails the whole batch is handled
    and only the session-state update and the [close] follow.  So under
    peek-lock the completed messages are exactly those up to the stopping
    point, each once and after its record, and under receive-and-delete
    nothing is completed.  The trigger's [processMessage] makes no
    [completeMessage] call, with [autoComplete] on or off. *)
Theorem completion_follows_policy
    {rt : NodeRuntime} (env : Env) (ncfg : Node.Config) (tcfg : Trigger.Config)
    (st st1 st2 : St (list JsValue)) (receiver : Receiver) (isSessionReceiver : bool)
    (sid : option string) (state : JsValue) (messages : list Message)
    (m : Message) (r : Receiver) (tst : St Trigger.Closure) :
  Node.isSdk ncfg = true ->
  Node.openReceiver env ncfg st = (Ok (receiver, isSessionReceiver, sid), st1) ->
  Node.readSessionState env ncfg receiver isSessionReceiver st1 = (Ok state, st2) ->
  receiveMessages_reply env (trace st2) receiver = Done messages ->
  let manual := (Node.receiveMode ncfg =? "peekLock")%string in
  let run := Node.receiveMessages env ncfg st in
  let received :=
    trace st2 ++ [ReceiveMessages receiver (Node.maxMessageCount ncfg)
                                  (Node.maxWaitTimeInSeconds ncfg * 1000)] in
  let calls := passCalls ncfg receiver isSessionReceiver sid state in
  let record := batchRecord isSessionReceiver sid state in
  let before := beforePass ncfg receiver isSessionReceiver sid state received messages in
  trace st1 = trace st ++ [openingCall ncfg]
  /\ (trace st2 = trace st1 \/ trace st2 = trace st1 ++ [GetSessionState receiver])
  /\ (exists k,
        (k <= List.length messages)%nat
        /\ (forall i m', (i < k)%nat -> nth_error messages i = Some m' ->
              passGoesThrough env ncfg receiver isSessionReceiver sid state (before i) m')
        /\ ((k = List.length messages
             /\ (exists closing,
                   trace (snd run) = received ++ flat_map calls messages ++ closing
                   /\ Forall (fun c => match c with
                                       | SetSessionState _ _ | CloseReceiver _ => True
                                       | _ => False
                                       end) closing)
             /\ completions (newCalls st (snd run)) = (if manual then messages else []))
            \/ exists m' e,
                 nth_error messages k = Some m'
                 /\ fst run = Throw e
                 /\ ((normalizeBody (body m') = Throw e
                      /\ trace (snd run) = received ++ flat_map calls (firstn k messages)
                      /\ completions (newCalls st (snd run))
                         = (if manual then firstn k messages else []))
                     \/ (manual = true
                         /\ (exists b, normalizeBody (body m') = Ok b)
                         /\ (exists msg,
                               completeMessage_reply env (before k ++ [Push (record m')])
                                                     receiver m' = Fail msg
                               /\ e = SdkError msg)
                         /\ trace (snd run)
                            = received ++ flat_map calls (firstn (S k) messages)
                         /\ completions (newCalls st (snd run))
                            = firstn (S k) messages))))
  /\ completions (newCalls tst (snd (Trigger.processMessage env tcfg m r tst))) = [].
Proof.
  intros Hsdk Hopen Hread Hbatch manual run received calls record before.
  assert (Hst1 : trace st1 = trace st ++ [openingCall ncfg]).
  { pose proof (openReceiver_calls env ncfg st) as [H _]. now rewrite Hopen in H. }
  assert (Hst2 : exists read,
             trace st2 = trace st1 ++ read /\ (read = [] \/ read = [GetSessionState receiver])).
  { pose proof (readSessionState_calls env ncfg receiver isSessionReceiver st1)
      as (_ & _ & H).
    rewrite Hread in H. cbn [snd] in H. destruct H as [H|H].
    - exists []. rewrite app_nil_r. auto.
    - exists [GetSessionState receiver]. auto. }
  split; [exact Hst1|]. split.
  { destruct Hst2 as (read & Htr & [-> | ->]);
      [left; now rewrite app_nil_r in Htr | right; exact Htr]. }
  split.
  - destruct Hst2 as (read & Htr2 & Hreadcalls).
    assert (Hall : forall passes closing,
               Forall (fun c => match c with
                                | SetSessionState _ _ | CloseReceiver _ => True
                                | _ => False
                                end) closing ->
               trace (snd run) = received ++ passes ++ closing ->
               completions (newCalls st (snd run)) = completions passes).
    { intros passes closing Hclosing Htr.
      assert (Hnew : trace (snd run)
                     = trace st ++ ([openingCall ncfg] ++ read
                                      ++ [ReceiveMessages receiver (Node.maxMessageCount ncfg)
                                            (Node.maxWaitTimeInSeconds ncfg * 1000)]
                                      ++ passes ++ closing)).
      { rewrite Htr. unfold received. rewrite Htr2, Hst1, <- !app_assoc. reflexivity. }
      rewrite (@newCalls_app _ _ _ _ Hnew).
      now apply completions_receive. }
    destruct (@receiveMessages_outcome _ env ncfg st _ _ _ _ _ _ _ Hsdk Hopen Hread Hbatch)
      as (k & Hk & Hbefore & Hcases).
    exists k. split; [exact Hk|]. split; [exact Hbefore|].
    destruct Hcases as [[Hlen Hrun]|(m' & e & Hnth & Hcase)].
    + left. split; [exact Hlen|].
      pose proof (closing_calls env ncfg receiver isSessionReceiver
                    (withRecords
                       (withRecords st2
                          [ReceiveMessages receiver (Node.maxMessageCount ncfg)
                                           (Node.maxWaitTimeInSeconds ncfg * 1000)] [])
                       (flat_map calls messages) (map record messages)))
        as (_ & closing & Htr & Hclosing).
      unfold calls, record in Htr. rewrite <- Hrun in Htr. fold run calls record in Htr.
      cbn [trace withRecords] in Htr. fold received in Htr. rewrite <- app_assoc in Htr.
      split; [exists closing; split; [exact Htr | exact Hclosing]|].
      rewrite (Hall _ _ Hclosing Htr). apply completions_passCalls.
    + right. exists m', e. split; [exact Hnth|].
      destruct Hcase as [[Hthrow Hrun]|(Hmode & Hb & msg & Hfail & He & Hrun)];
        fold run calls record in Hrun.
      * split; [now rewrite Hrun|]. left. split; [exact Hthrow|].
        assert (Htr : trace (snd run) = received ++ flat_map calls (firstn k messages)).
        { rewrite Hrun. reflexivity. }
        split; [exact Htr|].
        rewrite (Hall (flat_map calls (firstn k messages)) [] (Forall_nil _))
          by (now rewrite app_nil_r).
        apply completions_passCalls.
      * split; [now rewrite Hrun|]. right. split; [exact Hmode|]. split; [exact Hb|].
        split; [exists msg; split; [exact Hfail | exact He]|].
        assert (Htr : trace (snd run) = received ++ flat_map calls (firstn (S k) messages)).
        { rewrite Hrun. reflexivity. }
        split; [exact Htr|].
        rewrite (Hall (flat_map calls (firstn (S k) messages)) [] (Forall_nil _))
          by (now rewrite app_nil_r).
        unfold calls. rewrite completions_passCalls. now rewrite Hmode.
  - destruct (processMessage_completes_nothing env tcfg m r tst) as (c & Htr & Hc).
    now rewrite (@newCalls_app _ _ _ _ Htr).
Qed.

Lemma completion_follows_policy_witness :
  let good := Samples.message "m1" (JStr "hello") in
  let bad := Samples.message "m2" (JObj [("type", JStr "Buffer")]) in
  let last := Samples.message "m3" (JStr "world") in
  let env := Samples.withBatch false [good; bad; last] in
  let ncfg := Samples.nodeCfg "queue" "receiveMessages" "sdk" "specific" "receiveAndDelete"
                              false in
  let tcfg := Samples.triggerCfg "none" false in
  let receiver := Samples.sessionReceiver 0 "S1" in
  let st1 := snd (Node.openReceiver env ncfg Node.initial) in
  Node.isSdk ncfg = true
  /\ Node.openReceiver env ncfg Node.initial = (Ok (receiver, true, Some "S1"%string), st1)
  /\ Node.readSessionState env ncfg receiver true st1 = (Ok JNull, st1)
  /\ receiveMessages_reply env (trace st1) receiver = Done [good; bad; last]
  /\ trace st1 = [AcceptSession (QueueEntity "orders") "S1" 60000]
  /\ completions
       (newCalls Trigger.initial
          (snd (Trigger.processMessage (rt := nodeModel) env tcfg good
                                       (Samples.plainReceiver 0) Trigger.initial))) = [].
Proof.
  intros good bad last env ncfg tcfg receiver st1.
  pose proof (@completion_follows_policy nodeModel env ncfg tcfg Node.initial st1 st1
                receiver true (Some "S1"%string) JNull [good; bad; last] good
                (Samples.plainReceiver 0) Trigger.initial
                eq_refl eq_refl eq_refl eq_refl) as H.
  cbn zeta in H. destruct H as (Hopened & _ & _ & Htrigger).
  split; [reflexivity|]. split; [reflexivity|]. split; [reflexivity|].
  split; [reflexivity|]. split; [exact Hopened | exact Htrigger].
Defined.



(** X10.  The one-shot receive, step by step.  When opening the receiver
    throws, the run ends there with that error.  Otherwise the state read
    never throws; when the broker rejects the batch request, the run ends
    there with the SDK's error; when a pass of the loop throws (a body that
    does not normalize, a rejected completion), the run ends there with that
    error; when the update of the session state throws, the run ends there
    with that error.  In each of these cases [close] is called on no
    receiver.  Only when all of them went through is [close] called, once, on
    the receiver that was opened, as the very last call, and the run returns
    or throws as that [close] does. *)
Theorem receiver_closed_last_or_never
    {rt : NodeRuntime} (env : Env) (cfg : Node.Config) (st : St (list JsValue)) :
  Node.isSdk cfg = true ->
  let run := Node.receiveMessages env cfg st in
  let opened := Node.openReceiver env cfg st in
  match fst opened with
  | Throw e =>
      run = (Throw e, snd opened) /\ closedReceivers (newCalls st (snd run)) = []
  | Ok (receiver, isSessionReceiver, sid) =>
      let read := Node.readSessionState env cfg receiver isSessionReceiver (snd opened) in
      exists state,
        fst read = Ok state
        /\ let received :=
             withRecords (snd read)
                         [ReceiveMessages receiver (Node.maxMessageCount cfg)
                                          (Node.maxWaitTimeInSeconds cfg * 1000)] [] in
           match receiveMessages_reply env (trace (snd read)) receiver with
           | Fail msg =>
               run = (Throw (SdkError msg), received)
               /\ closedReceivers (newCalls st (snd run)) = []
           | Done messages =>
               let loop :=
                 forEach (Node.receiveOne env cfg receiver isSessionReceiver sid state)
                         messages received in
               match fst loop with
               | Throw e =>
                   run = (Throw e, snd loop)
                   /\ closedReceivers (newCalls st (snd run)) = []
               | Ok _ =>
                   let write :=
                     Node.writeSessionState env cfg receiver isSessionReceiver (snd loop) in
                   match fst write with
                   | Throw e =>
                       run = (Throw e, snd write)
                       /\ closedReceivers (newCalls st (snd run)) = []
                   | Ok _ =>
                       run = (match closeReceiver_reply env (trace (snd write)) receiver with
                              | Done _ => Ok tt
                              | Fail msg => Throw (SdkError msg)
                              end,
                              withRecords (snd write) [CloseReceiver receiver] [])
                       /\ closedReceivers (newCalls st (snd write)) = []
                       /\ closedReceivers (newCalls st (snd run)) = [receiver]
                   end
               end
           end
  end.
Proof.
  intros Hsdk run opened. subst run opened.
  assert (Hstart : exists calls,
             trace st = trace st ++ calls /\ Forall (fun c => isClose c = false) calls).
  { exists []. now rewrite app_nil_r. }
  destruct (Node.openReceiver env cfg st) as [[[[receiver isS] sid]|e] st1] eqn:Hopen;
    cbn [fst snd].
  2: { assert (Hrun : Node.receiveMessages env cfg st = (Throw e, st1)).
       { unfold Node.receiveMessages. rewrite Hsdk. cbn [negb]. unfold bind.
         now rewrite Hopen. }
       split; [exact Hrun|]. rewrite Hrun. cbn [snd].
       destruct (receive_steps_quiet env cfg (Samples.plainReceiver 0) false None JNull [])
         as (Q & _).
       pose proof (@quiet_then _ _ _ _ _ _ Q Hstart) as H. rewrite Hopen in H.
       now apply quiet_not_closed. }
  destruct (Node.readSessionState env cfg receiver isS st1) as [[state|e] st2] eqn:Hread;
    cbn [fst snd].
  2: { pose proof (readSessionState_calls env cfg receiver isS st1) as ([state H] & _).
       rewrite Hread in H. discriminate H. }
  exists state. split; [reflexivity|]. cbv zeta.
  rewrite (@receiveMessages_shape _ env cfg st _ _ _ _ _ _ Hsdk Hopen Hread). cbv zeta.
  destruct (receiveMessages_reply env (trace st2) receiver) as [messages|msg] eqn:Hbatch.
  2: { split; [reflexivity|]. cbn [snd].
       destruct (receive_steps_quiet env cfg receiver isS sid state []) as (Q1 & Q2 & _).
       pose proof (@quiet_then _ _ _ _ _ _ Q1 Hstart) as H1. rewrite Hopen in H1. cbn [snd] in H1.
       pose proof (@quiet_then _ _ _ _ _ _ Q2 H1) as H2. rewrite Hread in H2. cbn [snd] in H2.
       apply quiet_not_closed. destruct H2 as (calls & Htr & Hall).
       exists (calls ++ [ReceiveMessages receiver (Node.maxMessageCount cfg)
                                         (Node.maxWaitTimeInSeconds cfg * 1000)]).
       cbn [trace withRecords]. rewrite Htr, <- app_assoc. split; [reflexivity|].
       apply Forall_app. split; [exact Hall | repeat constructor]. }
  destruct (receive_steps_quiet env cfg receiver isS sid state messages)
    as (Q1 & Q2 & Q3 & Q4).
  pose proof (@quiet_then _ _ _ _ _ _ Q1 Hstart) as H1. rewrite Hopen in H1. cbn [snd] in H1.
  pose proof (@quiet_then _ _ _ _ _ _ Q2 H1) as H2. rewrite Hread in H2. cbn [snd] in H2.
  assert (H3 : exists calls,
             trace (withRecords st2
                      [ReceiveMessages receiver (Node.maxMessageCount cfg)
                                       (Node.maxWaitTimeInSeconds cfg * 1000)] [])
             = trace st ++ calls
             /\ Forall (fun c => isClose c = false) calls).
  { destruct H2 as (calls & Htr & Hall).
    exists (calls ++ [ReceiveMessages receiver (Node.maxMessageCount cfg)
                                      (Node.maxWaitTimeInSeconds cfg * 1000)]).
    cbn [trace withRecords]. rewrite Htr, <- app_assoc. split; [reflexivity|].
    apply Forall_app. split; [exact Hall | repeat constructor]. }
  pose proof (@quiet_then _ _ _ _ _ _ Q3 H3) as H4.
  destruct (forEach (Node.receiveOne env cfg receiver isS sid state) messages
                    (withRecords st2
                       [ReceiveMessages receiver (Node.maxMessageCount cfg)
                                        (Node.maxWaitTimeInSeconds cfg * 1000)] []))
    as [[[]|e] st4] eqn:Hloop; cbn [fst snd] in *.
  2: { split; [reflexivity|]. now apply quiet_not_closed. }
  pose proof (@quiet_then _ _ _ _ _ _ Q4 H4) as H5.
  unfold bind.
  destruct (Node.writeSessionState env cfg receiver isS st4) as [[[]|e] st5] eqn:Hwrite;
    cbn [fst snd] in *.
  2: { split; [reflexivity|]. now apply quiet_not_closed. }
  unfold closeReceiver, call, withRecords. rewrite app_nil_r.
  split; [destruct (closeReceiver_reply env (trace st5) receiver) as [[]|msg]; reflexivity|]. split; [now apply quiet_not_closed|].
  cbn [snd trace]. destruct H5 as (calls & Htr & Hall).
  assert (Hnew : trace st5 ++ [CloseReceiver receiver]
                 = trace st ++ (calls ++ [CloseReceiver receiver])).
  { now rewrite Htr, <- app_assoc. }
  unfold newCalls. cbn [trace]. rewrite Hnew, skipn_length_app, closedReceivers_app.
  rewrite (closedReceivers_none Hall). reflexivity.
Qed.

Lemma receiver_closed_last_or_never_witness :
  let good := Samples.message "m1" (JStr "hello") in
  let bad := Samples.message "m2" (JObj [("type", JStr "Buffer")]) in
  let cfg := Samples.nodeCfg "queue" "receiveMessages" "sdk" "none" "peekLock" false in
  let receiver := Samples.plainReceiver 0 in
  let through := Node.receiveMessages (rt := nodeModel) (Samples.withBatch false [good]) cfg
                                      Node.initial in
  let stopped := Node.receiveMessages (rt := nodeModel) (Samples.withBatch false [good; bad])
                                      cfg Node.initial in
  Node.isSdk cfg = true
  /\ fst through = Ok tt
  /\ closedReceivers (newCalls Node.initial (snd through)) = [receiver]
  /\ (exists e, fst stopped = Throw e)
  /\ closedReceivers (newCalls Node.initial (snd stopped)) = [].
Proof.
  intros good bad cfg receiver through stopped.
  pose proof (@receiver_closed_last_or_never nodeModel (Samples.withBatch false [good]) cfg
                Node.initial eq_refl) as H1.
  pose proof (@receiver_closed_last_or_never nodeModel (Samples.withBatch false [good; bad])
                cfg Node.initial eq_refl) as H2.
  cbv zeta in H1, H2.
  split; [reflexivity|].
  destruct H1 as (state1 & Hstate1 & H1). destruct H2 as (state2 & Hstate2 & H2).
  inversion Hstate1; subst state1. inversion Hstate2; subst state2.
  destruct H1 as (Hrun1 & _ & Hclosed1). destruct H2 as (Hrun2 & Hclosed2).
  split; [fold through in Hrun1; now rewrite Hrun1|].
  split; [exact Hclosed1|].
  split; [eexists; fold stopped in Hrun2; rewrite Hrun2; reflexivity | exact Hclosed2].
Defined.
